(** * Recipe knowledge graph: builder and queries

    A shallow embedding of [scripts/build_graph.py] (ingestion, diet
    inference, cuisine chains) and [app/graph_loader.py] (filtered search and
    detail lookup), with the properties of the specification stated over it.

    Conventions.
    - Text is [string]; [lower], [strip] and the regular expressions of
      [normalise_text] act on ASCII letters, digits and whitespace.
    - The RDF graph is the list of its triples in insertion order, without
      repetition ([add] absorbs a triple that is already there).  A triple
      carries the kind of object its predicate has in [build_graph.py]: a
      node, a plain string literal, an [xsd:integer] literal or the
      [xsd:float] literal of [rec:hasRating].
    - A SPARQL group is a list comprehension over the graph: a triple pattern
      enumerates the matching triples in insertion order, [OPTIONAL] is
      [optional], [FILTER] keeps the rows on which its condition is true (an
      error counts as false), [ORDER BY] is a stable sort.
    - Python's [dict] is an association list in insertion order, [set] is
      [gset] and [list(set)] is [elements]. *)

From Stdlib Require Import ZArith Ascii String SpecFloat.
From stdpp Require Import base tactics option list strings pretty gmap sets sorting.

Local Open Scope string_scope.
Local Open Scope list_scope.
Local Open Scope Z_scope.
#[local] Set Warnings "-clear-no-such-hyp".

(** ** Strings as Python sees them *)

Module Py.

Definition code (c : ascii) : N := N_of_ascii c.

Definition is_upper (c : ascii) : bool := (65 <=? code c)%N && (code c <=? 90)%N.
Definition is_lower (c : ascii) : bool := (97 <=? code c)%N && (code c <=? 122)%N.
Definition is_digit (c : ascii) : bool := (48 <=? code c)%N && (code c <=? 57)%N.

(** [str.isspace] on ASCII: TAB, LF, VT, FF, CR, FS, GS, RS, US and space. *)
Definition is_space (c : ascii) : bool :=
  ((9 <=? code c)%N && (code c <=? 13)%N)
  || ((28 <=? code c)%N && (code c <=? 32)%N).

Definition lower_char (c : ascii) : ascii :=
  if is_upper c then ascii_of_N (code c + 32) else c.

(** [s.lower()] *)
Fixpoint lower (s : string) : string :=
  match s with
  | EmptyString => EmptyString
  | String c s' => String (lower_char c) (lower s')
  end.

(** [s.lstrip(chars)], [s.rstrip(chars)] and [s.strip(chars)], with the
    set of characters given as a predicate. *)
Fixpoint lstrip (p : ascii → bool) (s : string) : string :=
  match s with
  | EmptyString => EmptyString
  | String c s' => if p c then lstrip p s' else s
  end.

Fixpoint rstrip (p : ascii → bool) (s : string) : string :=
  match s with
  | EmptyString => EmptyString
  | String c s' =>
      match rstrip p s' with
      | EmptyString => if p c then EmptyString else String c EmptyString
      | r => String c r
      end
  end.

Definition strip_chars (p : ascii → bool) (s : string) : string :=
  rstrip p (lstrip p s).

(** [s.strip()] *)
Definition strip (s : string) : string := strip_chars is_space s.

(** [needle in hay] on strings *)
Fixpoint contains (needle hay : string) : bool :=
  String.prefix needle hay
  || match hay with
     | EmptyString => false
     | String _ hay' => contains needle hay'
     end.

(** [any(token in s for token in tokens)] *)
Definition any_in (tokens : list string) (s : string) : bool :=
  existsb (λ token, contains token s) tokens.

(** [s.split(sep)] for a one-character separator *)
Fixpoint split (sep : ascii) (s : string) : list string :=
  match s with
  | EmptyString => [EmptyString]
  | String c s' =>
      if bool_decide (c = sep) then EmptyString :: split sep s'
      else match split sep s' with
           | piece :: pieces => String c piece :: pieces
           | [] => [String c EmptyString]
           end
  end.

(** Truthiness of a [str] *)
Definition nonempty (s : string) : bool :=
  match s with EmptyString => false | _ => true end.

End Py.

(** ** The RDF graph *)

Definition REC_NS : string := "http://example.org/recipes#".
Definition SCHEMA_NS : string := "http://schema.org/".
Definition OWL_NS : string := "http://www.w3.org/2002/07/owl#".

Inductive node : Type :=
| URIRef (iri : string)
| BNode (id : string).

(** [str(node)] *)
Definition node_str (n : node) : string :=
  match n with URIRef iri => iri | BNode id => id end.

(** [REC[name]], [SCHEMA[name]], [OWL.name] *)
Definition REC (name : string) : node := URIRef (REC_NS +:+ name).
Definition SCHEMA (name : string) : node := URIRef (SCHEMA_NS +:+ name).
Definition OWL (name : string) : node := URIRef (OWL_NS +:+ name).

(** Predicates whose object is a node. *)
Inductive link : Type :=
| RDF_type | RDFS_subClassOf
| REC_hasIngredient | REC_hasCuisine | REC_hasDiet
| REC_avoidsIngredientCategory | SCHEMA_step.

(** Predicates whose object is a plain string literal. *)
Inductive text_prop : Type := RDFS_label | SCHEMA_url.

(** Predicates whose object is an [xsd:integer] literal. *)
Inductive int_prop : Type :=
| REC_hasPrepTime | REC_hasCookTime | REC_hasTotalTime
| REC_hasServings | SCHEMA_position.

Inductive triple : Type :=
| Link (s : node) (p : link) (o : node)
| Text (s : node) (p : text_prop) (o : string)
| Int (s : node) (p : int_prop) (o : Z)
| Rating (s : node) (o : spec_float).

Global Instance node_eq_dec : EqDecision node.
Proof. solve_decision. Defined.
Global Instance link_eq_dec : EqDecision link.
Proof. solve_decision. Defined.
Global Instance text_prop_eq_dec : EqDecision text_prop.
Proof. solve_decision. Defined.
Global Instance int_prop_eq_dec : EqDecision int_prop.
Proof. solve_decision. Defined.
Global Instance spec_float_eq_dec : EqDecision spec_float.
Proof. solve_decision. Defined.
Global Instance triple_eq_dec : EqDecision triple.
Proof. solve_decision. Defined.

Definition graph : Type := list triple.

(** [graph.add(t)]: a graph is a set of triples. *)
Definition add (g : graph) (t : triple) : graph :=
  if bool_decide (t ∈ g) then g else g ++ [t].

(** [t in graph] *)
Definition has (g : graph) (t : triple) : bool := bool_decide (t ∈ g).

(** [graph.objects(s, p)], by kind of object, and [graph.subjects(p, o)]. *)
Definition objects (g : graph) (s : node) (p : link) : list node :=
  omap (λ t, match t with
             | Link s' p' o => if bool_decide (s' = s ∧ p' = p) then Some o else None
             | _ => None
             end) g.

Definition subjects (g : graph) (p : link) (o : node) : list node :=
  omap (λ t, match t with
             | Link s p' o' => if bool_decide (p' = p ∧ o' = o) then Some s else None
             | _ => None
             end) g.

Definition texts (g : graph) (s : node) (p : text_prop) : list string :=
  omap (λ t, match t with
             | Text s' p' o => if bool_decide (s' = s ∧ p' = p) then Some o else None
             | _ => None
             end) g.

Definition ints (g : graph) (s : node) (p : int_prop) : list Z :=
  omap (λ t, match t with
             | Int s' p' o => if bool_decide (s' = s ∧ p' = p) then Some o else None
             | _ => None
             end) g.

Definition ratings (g : graph) (s : node) : list spec_float :=
  omap (λ t, match t with
             | Rating s' o => if bool_decide (s' = s) then Some o else None
             | _ => None
             end) g.

(** [graph.value(s, p)]: the first object, or [None]. *)
Definition value (g : graph) (s : node) (p : text_prop) : option string :=
  head (texts g s p).

(** ** Query text built by interpolation

    [graph_loader.py] pastes its arguments into the SPARQL text.  The text is
    the intended query only when the argument contains none of the characters
    that end or escape its quoting; the outcome records what happens
    otherwise. *)

Inductive outcome (A : Type) : Type :=
| Returns (a : A)   (* the call returns [a] *)
| Raises            (* rdflib rejects the query text and the exception propagates *)
| NotVerbatim.      (* the argument closes or escapes its own quoting: the text
                       is another query, which this development does not follow *)
Arguments Returns {A} a.
Arguments Raises {A}.
Arguments NotVerbatim {A}.

Global Instance outcome_ret : MRet outcome := λ A a, Returns a.
Global Instance outcome_bind : MBind outcome := λ A B k m,
  match m with
  | Returns a => k a
  | Raises => Raises
  | NotVerbatim => NotVerbatim
  end.

Definition LF : ascii := ascii_of_N 10.
Definition CR : ascii := ascii_of_N 13.
Definition DQUOTE : ascii := ascii_of_N 34.
Definition BACKSLASH : ascii := ascii_of_N 92.

(** An argument pasted between double quotes: a SPARQL string literal cannot
    hold a raw line break; a double quote ends it and a backslash starts an
    escape. *)
Fixpoint in_double_quotes (s : string) : outcome string :=
  match s with
  | EmptyString => Returns EmptyString
  | String c s' =>
      if bool_decide (c = LF ∨ c = CR) then Raises
      else if bool_decide (c = DQUOTE ∨ c = BACKSLASH) then NotVerbatim
      else r ← in_double_quotes s'; Returns (String c r)
  end.

(** An argument pasted between angle brackets: an IRI reference holds no
    control character, no space and none of the characters less-than, double
    quote, braces, bar, caret, backquote and backslash; a greater-than sign
    ends it. *)
Definition iri_forbidden (c : ascii) : bool :=
  (Py.code c <=? 32)%N
  || bool_decide (c ∈ [ascii_of_N 60; DQUOTE; ascii_of_N 123; ascii_of_N 125;
                        ascii_of_N 124; ascii_of_N 94; ascii_of_N 96; BACKSLASH]).

Fixpoint in_angle_brackets (s : string) : outcome string :=
  match s with
  | EmptyString => Returns EmptyString
  | String c s' =>
      if iri_forbidden c then Raises
      else if bool_decide (c = ascii_of_N 62) then NotVerbatim
      else r ← in_angle_brackets s'; Returns (String c r)
  end.

(** ** Query evaluation *)

(** [OPTIONAL { ... }] joined to the left: every match, or one row that
    leaves the variable unbound. *)
Definition optional {A} (matches : list A) : list (option A) :=
  match matches with
  | [] => [None]
  | _ => Some <$> matches
  end.

(** [?s p ?o . ?o rdfs:label ?l] *)
Definition labelled (g : graph) (s : node) (p : link) : list string :=
  o ← objects g s p; texts g o RDFS_label.

(** [sorted(rows, key=...)]: a stable sort, here by insertion. *)
Fixpoint insert_sorted {A} (le : A → A → bool) (x : A) (l : list A) : list A :=
  match l with
  | [] => [x]
  | y :: l' => if le x y then x :: y :: l' else y :: insert_sorted le x l'
  end.

Definition stable_sort {A} (le : A → A → bool) (l : list A) : list A :=
  foldr (insert_sorted le) [] l.

(** Truthiness of an optional argument or of a bound literal. *)
Definition truthy_text (v : option string) : bool :=
  match v with Some s => Py.nonempty s | None => false end.

Definition truthy_int (v : option Z) : bool :=
  match v with Some z => negb (z =? 0) | None => false end.

Definition truthy_float (v : option spec_float) : bool :=
  match v with
  | Some (S754_zero _) => false
  | Some _ => true
  | None => false
  end.

(** [str(x) if x else None], [x.toPython() if x else None] *)
Definition text_or_none (v : option string) : option string :=
  if truthy_text v then v else None.
Definition int_or_none (v : option Z) : option Z :=
  if truthy_int v then v else None.
Definition float_or_none (v : option spec_float) : option spec_float :=
  if truthy_float v then v else None.

Record RecipeSummary : Type := {
  uri : string;
  label : string;
  url : option string;
  rating : option spec_float;
  total_time : option Z;
  cuisines : list string;
  diets : list string;
}.

Record RecipeDetail : Type := {
  summary :> RecipeSummary;
  ingredients : list string;
  directions : list string;
}.

Module Search.

(** A solution of the group of [search]: the selected variables, and the
    three that only the filters read. *)
Record row : Type := {
  v_recipe : node;
  v_label : string;
  v_url : option string;
  v_rating : option spec_float;
  v_totalTime : option Z;
  v_cuisineLabel : option string;
  v_dietLabel : option string;
  v_ingredientLabel : option string;
  v_cuisineLabelFilter : option string;
  v_dietLabelFilter : option string;
}.

(** [where_parts]: the fixed patterns, then the patterns each supplied
    filter appends. *)
Definition where_block (g : graph) (ingredient cuisine diet : option string)
  : list row :=
  recipe ← subjects g RDF_type (REC "Recipe");
  label ← texts g recipe RDFS_label;
  url ← optional (texts g recipe SCHEMA_url);
  rating ← optional (ratings g recipe);
  totalTime ← optional (ints g recipe REC_hasTotalTime);
  cuisineLabel ← optional (labelled g recipe REC_hasCuisine);
  dietLabel ← optional (labelled g recipe REC_hasDiet);
  ingredientLabel ←
    (if truthy_text ingredient
     then Some <$> labelled g recipe REC_hasIngredient else [None]);
  cuisineLabelFilter ←
    (if truthy_text cuisine
     then Some <$> labelled g recipe REC_hasCuisine else [None]);
  dietLabelFilter ←
    (if truthy_text diet
     then Some <$> labelled g recipe REC_hasDiet else [None]);
  [ {| v_recipe := recipe; v_label := label; v_url := url; v_rating := rating;
       v_totalTime := totalTime; v_cuisineLabel := cuisineLabel;
       v_dietLabel := dietLabel; v_ingredientLabel := ingredientLabel;
       v_cuisineLabelFilter := cuisineLabelFilter;
       v_dietLabelFilter := dietLabelFilter |} ].

(** [FILTER(CONTAINS(LCASE(?v), LCASE(text)))] *)
Definition contains_lcase (v : option string) (text : string) : bool :=
  match v with
  | Some l => Py.contains (Py.lower text) (Py.lower l)
  | None => false
  end.

(** [FILTER(LCASE(?v) = LCASE(text))] *)
Definition equals_lcase (v : option string) (text : string) : bool :=
  match v with
  | Some l => bool_decide (Py.lower l = Py.lower text)
  | None => false
  end.

(** [FILTER(xsd:integer(?totalTime) <= bound)] *)
Definition at_most (v : option Z) (bound : Z) : bool :=
  match v with
  | Some t => t <=? bound
  | None => false
  end.

(** [filter_parts] *)
Definition filter_parts (ingredient cuisine diet : option string)
    (max_total_time : option Z) : list (row → bool) :=
  (if truthy_text ingredient
   then [λ r, contains_lcase (v_ingredientLabel r) (default "" ingredient)]
   else [])
  ++ (if truthy_text cuisine
      then [λ r, equals_lcase (v_cuisineLabelFilter r) (default "" cuisine)]
      else [])
  ++ (if truthy_text diet
      then [λ r, equals_lcase (v_dietLabelFilter r) (default "" diet)]
      else [])
  ++ (match max_total_time with
      | Some bound => [λ r, at_most (v_totalTime r) bound]
      | None => []
      end).

Definition filter_block (parts : list (row → bool)) (r : row) : bool :=
  forallb (λ part, part r) parts.

(** [ORDER BY LCASE(?label)] *)
Definition by_lcase_label (a b : row) : bool :=
  String.leb (Py.lower (v_label a)) (Py.lower (v_label b)).

(** The rows of [self.graph.query(query)]. *)
Definition query (g : graph) (ingredient cuisine diet : option string)
    (max_total_time : option Z) : list row :=
  stable_sort by_lcase_label
    (filter (λ r, filter_block
                    (filter_parts ingredient cuisine diet max_total_time) r)
            (where_block g ingredient cuisine diet)).

(** An entry of [recipe_data]. *)
Record data : Type := {
  d_uri : string;
  d_label : string;
  d_url : option string;
  d_rating : option spec_float;
  d_total_time : option Z;
  d_cuisines : gset string;
  d_diets : gset string;
}.

Definition new_data (r : row) : data :=
  {| d_uri := node_str (v_recipe r);
     d_label := v_label r;
     d_url := text_or_none (v_url r);
     d_rating := float_or_none (v_rating r);
     d_total_time := int_or_none (v_totalTime r);
     d_cuisines := ∅;
     d_diets := ∅ |}.

Definition add_cuisine (l : string) (d : data) : data :=
  {| d_uri := d_uri d; d_label := d_label d; d_url := d_url d;
     d_rating := d_rating d; d_total_time := d_total_time d;
     d_cuisines := d_cuisines d ∪ {[ l ]}; d_diets := d_diets d |}.

Definition add_diet (l : string) (d : data) : data :=
  {| d_uri := d_uri d; d_label := d_label d; d_url := d_url d;
     d_rating := d_rating d; d_total_time := d_total_time d;
     d_cuisines := d_cuisines d; d_diets := d_diets d ∪ {[ l ]} |}.

(** [recipe_data[key]] updated in place. *)
Definition update (key : string) (f : data → data)
    (recipe_data : list (string * data)) : list (string * data) :=
  (λ kv, if bool_decide (kv.1 = key) then (kv.1, f kv.2) else kv) <$> recipe_data.

(** The body of [for row in rows]. *)
Definition group_row (recipe_data : list (string * data)) (r : row)
  : list (string * data) :=
  let recipe_uri := node_str (v_recipe r) in
  let recipe_data :=
    if bool_decide (recipe_uri ∈ recipe_data.*1) then recipe_data
    else recipe_data ++ [(recipe_uri, new_data r)] in
  let recipe_data :=
    match text_or_none (v_cuisineLabel r) with
    | Some l => update recipe_uri (add_cuisine l) recipe_data
    | None => recipe_data
    end in
  match text_or_none (v_dietLabel r) with
  | Some l => update recipe_uri (add_diet l) recipe_data
  | None => recipe_data
  end.

Definition group (rows : list row) : list (string * data) :=
  foldl group_row [] rows.

Definition to_summary (d : data) : RecipeSummary :=
  {| uri := d_uri d; label := d_label d; url := d_url d;
     rating := d_rating d; total_time := d_total_time d;
     cuisines := elements (d_cuisines d);
     diets := elements (d_diets d) |}.

Definition summaries (rows : list row) : list RecipeSummary :=
  (λ kv, to_summary kv.2) <$> group rows.

(** The interpolated arguments, in the order they enter the text. *)
Definition quoted (arg : option string) : outcome unit :=
  if truthy_text arg
  then in_double_quotes (default "" arg) ;; Returns ()
  else Returns ().

End Search.

(** [RecipeGraph.search] *)
Definition search (g : graph) (ingredient cuisine diet : option string)
    (max_total_time : option Z) : outcome (list RecipeSummary) :=
  Search.quoted ingredient ;;
  Search.quoted cuisine ;;
  Search.quoted diet ;;
  Returns (Search.summaries
             (Search.query g ingredient cuisine diet max_total_time)).

(** ** [scripts/build_graph.py] *)

Record RecipeRecord : Type := {
  name : string;
  prep_time : option Z;
  cook_time : option Z;
  rec_total_time : option Z;
  servings : option Z;
  rec_ingredients : list string;
  rec_directions : list string;
  rec_rating : option spec_float;
  rec_url : option string;
  cuisine_path : option string;
}.

Definition ANIMAL_PRODUCTS : list string :=
  [ "anchovy"; "bacon"; "beef"; "butter"; "chicken"; "egg"; "fish"; "gelatin";
    "honey"; "lamb"; "milk"; "pork"; "shrimp"; "turkey"; "yogurt"; "parmesan";
    "cream"; "cheese" ].

Definition GLUTEN_GRAINS : list string :=
  [ "wheat"; "barley"; "rye"; "spelt"; "farro"; "semolina"; "flour";
    "spaghetti"; "pasta"; "bread" ].

(** The tuple of meat tokens in [infer_diets]. *)
Definition MEATS : list string :=
  [ "chicken"; "beef"; "pork"; "lamb"; "fish"; "shrimp"; "turkey" ].

Definition HYPHEN : ascii := ascii_of_N 45.

(** The character class [a-z0-9] and its complement. *)
Definition is_slug_char (c : ascii) : bool := Py.is_lower c || Py.is_digit c.
Definition not_slug_char (c : ascii) : bool := negb (is_slug_char c).
Definition is_hyphen (c : ascii) : bool := bool_decide (c = HYPHEN).

(** [re.sub(cls+, repl, s)] for a character class [cls]: every maximal run
    of characters of the class is replaced by [repl]; [in_run] tells that the
    previous character belonged to the run being replaced. *)
Fixpoint sub_runs (cls : ascii → bool) (repl : string) (in_run : bool)
    (s : string) : string :=
  match s with
  | EmptyString => EmptyString
  | String c s' =>
      if cls c
      then (if in_run then EmptyString else repl) +:+ sub_runs cls repl true s'
      else String c (sub_runs cls repl false s')
  end.

Definition re_sub (cls : ascii → bool) (repl : string) (s : string) : string :=
  sub_runs cls repl false s.

Definition normalise_text (value : string) : string :=
  let value := Py.lower (Py.strip value) in
  let value := re_sub not_slug_char "-" value in
  Py.strip_chars is_hyphen (re_sub is_hyphen "-" value).

(** [annotate_ingredient]: the graph after the call and the returned node. *)
Definition annotate_ingredient (g : graph) (ingredient_label : string)
  : graph * node :=
  let ingredient_id := normalise_text ingredient_label in
  let ingredient_uri := REC ("ingredient-" +:+ ingredient_id) in
  if has g (Link ingredient_uri RDF_type (REC "Ingredient"))
  then (g, ingredient_uri)
  else
    let g := add g (Link ingredient_uri RDF_type (REC "Ingredient")) in
    let g := add g (Text ingredient_uri RDFS_label ingredient_label) in
    let lowered := Py.lower ingredient_label in
    let g := if Py.any_in ANIMAL_PRODUCTS lowered
             then add g (Link ingredient_uri RDF_type (REC "AnimalProduct"))
             else g in
    let g := if Py.any_in GLUTEN_GRAINS lowered
             then add g (Link ingredient_uri RDF_type (REC "GlutenIngredient"))
             else g in
    (g, ingredient_uri).

(** The generator of [has_meat]: a node without a (truthy) label is skipped. *)
Definition has_meat (g : graph) (ingredient_uris : list node) : bool :=
  existsb (λ uri,
    existsb (λ token,
      match value g uri RDFS_label with
      | Some l => Py.nonempty l && Py.contains token (Py.lower l)
      | None => false
      end) MEATS) ingredient_uris.

(** [any((uri, RDF.type, REC[category]) in graph for uri in ingredient_uris)] *)
Definition any_marked (g : graph) (category : string)
    (ingredient_uris : list node) : bool :=
  existsb (λ uri, has g (Link uri RDF_type (REC category))) ingredient_uris.

Definition infer_diets (g : graph) (recipe_uri : node)
    (ingredient_uris : list node) : graph :=
  let has_animal := any_marked g "AnimalProduct" ingredient_uris in
  let has_gluten := any_marked g "GlutenIngredient" ingredient_uris in
  let g :=
    if negb has_animal
    then add (add g (Link recipe_uri REC_hasDiet (REC "Vegan")))
             (Link recipe_uri REC_hasDiet (REC "Vegetarian"))
    else if negb (has_meat g ingredient_uris)
         then add g (Link recipe_uri REC_hasDiet (REC "Vegetarian"))
         else g in
  let g := if negb has_gluten
           then add g (Link recipe_uri REC_hasDiet (REC "GlutenFree")) else g in
  let g := if has_animal
           then add g (Link recipe_uri REC_avoidsIngredientCategory
                            (REC "AnimalProduct")) else g in
  if has_gluten
  then add g (Link recipe_uri REC_avoidsIngredientCategory
                   (REC "GlutenIngredient"))
  else g.

(** [if x is not None: graph.add(...)] *)
Definition add_int (g : graph) (s : node) (p : int_prop) (v : option Z) : graph :=
  match v with Some z => add g (Int s p z) | None => g end.

(** The loop over [record.ingredients]. *)
Definition add_ingredients (g : graph) (recipe_uri : node)
    (labels : list string) : graph * list node :=
  foldl (λ '(g, ingredient_uris) ingredient,
           let '(g, ingredient_uri) := annotate_ingredient g ingredient in
           (add g (Link recipe_uri REC_hasIngredient ingredient_uri),
            ingredient_uris ++ [ingredient_uri]))
        (g, []) labels.

(** The builder's state: the graph, and how many blank nodes [BNode()] has
    handed out; the n-th one is named after n. *)
Definition fresh_bnode (n : nat) : node := BNode ("N" +:+ pretty n).

(** The loop over [enumerate(record.directions, start=1)]. *)
Definition add_directions (g : graph) (bnodes : nat) (recipe_uri : node)
    (texts : list string) : graph * nat :=
  (foldl (λ '(g, bnodes, idx) direction,
            let step_bnode := fresh_bnode bnodes in
            let g := add g (Link step_bnode RDF_type (SCHEMA "HowToStep")) in
            let g := add g (Text step_bnode RDFS_label direction) in
            let g := add g (Int step_bnode SCHEMA_position idx) in
            let g := add g (Link recipe_uri SCHEMA_step step_bnode) in
            (g, S bnodes, idx + 1))
         (g, bnodes, 1) texts).1.

(** [[segment.strip() for segment in path.split(">") if segment.strip()]] *)
Definition path_segments (path : string) : list string :=
  filter (λ segment, Py.nonempty segment = true)
         (Py.strip <$> Py.split (ascii_of_N 62) path).

Definition cuisine_node (cuisine : string) : node :=
  REC ("cuisine-" +:+ normalise_text cuisine).

(** The body of the loop over [cuisines]: the state is the graph and
    [parent_uri]. *)
Definition cuisine_step (st : graph * option node) (cuisine : string)
  : graph * option node :=
  let '(g, parent_uri) := st in
  let cuisine_uri := cuisine_node cuisine in
  let g :=
    if has g (Link cuisine_uri RDF_type (REC "Cuisine")) then g
    else add (add g (Link cuisine_uri RDF_type (REC "Cuisine")))
             (Text cuisine_uri RDFS_label cuisine) in
  let g := match parent_uri with
           | Some parent => add g (Link cuisine_uri RDFS_subClassOf parent)
           | None => g
           end in
  (g, Some cuisine_uri).

Definition add_cuisine_chain (g : graph) (cuisines : list string)
  : graph * option node :=
  foldl cuisine_step (g, None) cuisines.

Definition recipe_node (recipe_name : string) : node :=
  REC ("recipe-" +:+ normalise_text recipe_name).

(** The body of [for record in records] in [populate_graph]. *)
Definition populate_record (st : graph * nat) (record : RecipeRecord)
  : graph * nat :=
  if negb (Py.nonempty (name record)) then st
  else
    let '(g, bnodes) := st in
    let recipe_uri := recipe_node (name record) in
    let g := add g (Link recipe_uri RDF_type (REC "Recipe")) in
    let g := add g (Text recipe_uri RDFS_label (name record)) in
    let g := match text_or_none (rec_url record) with
             | Some u => add g (Text recipe_uri SCHEMA_url u)
             | None => g
             end in
    let g := match rec_rating record with
             | Some r => add g (Rating recipe_uri r)
             | None => g
             end in
    let g := add_int g recipe_uri REC_hasPrepTime (prep_time record) in
    let g := add_int g recipe_uri REC_hasCookTime (cook_time record) in
    let g := add_int g recipe_uri REC_hasTotalTime (rec_total_time record) in
    let g := add_int g recipe_uri REC_hasServings (servings record) in
    let '(g, ingredient_uris) :=
      add_ingredients g recipe_uri (rec_ingredients record) in
    let g := infer_diets g recipe_uri ingredient_uris in
    let '(g, bnodes) :=
      add_directions g bnodes recipe_uri (rec_directions record) in
    let g :=
      match text_or_none (cuisine_path record) with
      | Some path =>
          let '(g, parent_uri) := add_cuisine_chain g (path_segments path) in
          match parent_uri with
          | Some leaf => add g (Link recipe_uri REC_hasCuisine leaf)
          | None => g
          end
      | None => g
      end in
    (g, bnodes).

Definition populate_graph (st : graph * nat) (records : list RecipeRecord)
  : graph * nat :=
  foldl populate_record st records.

Definition add_ontology_schema (g : graph) : graph :=
  let classes :=
    [ "Recipe"; "Ingredient"; "Cuisine"; "DietType"; "AnimalProduct";
      "GlutenIngredient" ] in
  let object_properties :=
    [ "hasIngredient"; "hasCuisine"; "hasDiet"; "avoidsIngredientCategory" ] in
  let datatype_properties :=
    [ "hasPrepTime"; "hasCookTime"; "hasTotalTime"; "hasServings";
      "hasRating" ] in
  let g := foldl (λ g c, add g (Link (REC c) RDF_type (OWL "Class"))) g classes in
  let g := foldl (λ g p, add g (Link (REC p) RDF_type (OWL "ObjectProperty")))
                 g object_properties in
  let g := foldl (λ g p, add g (Link (REC p) RDF_type (OWL "DatatypeProperty")))
                 g datatype_properties in
  foldl (λ g diet_name,
           let diet_uri := REC diet_name in
           add (add g (Link diet_uri RDF_type (REC "DietType")))
               (Text diet_uri RDFS_label diet_name))
        g [ "Vegan"; "Vegetarian"; "GlutenFree" ].

Definition build_graph (records : list RecipeRecord) : graph :=
  (populate_graph (add_ontology_schema [], 0%nat) records).1.

Module Detail.

(** A solution of the group of [recipe_detail]. *)
Record row : Type := {
  v_label : string;
  v_url : option string;
  v_rating : option spec_float;
  v_totalTime : option Z;
  v_ingredientLabel : option string;
  v_direction : option string;
  v_dietLabel : option string;
  v_cuisineLabel : option string;
}.

(** The rows of [list(self.graph.query(query))], [?recipe] bound to
    [recipe]. *)
Definition query (g : graph) (recipe : node) : list row :=
  label ← texts g recipe RDFS_label;
  url ← optional (texts g recipe SCHEMA_url);
  rating ← optional (ratings g recipe);
  totalTime ← optional (ints g recipe REC_hasTotalTime);
  ingredientLabel ← optional (labelled g recipe REC_hasIngredient);
  direction ← optional (labelled g recipe SCHEMA_step);
  dietLabel ← optional (labelled g recipe REC_hasDiet);
  cuisineLabel ← optional (labelled g recipe REC_hasCuisine);
  [ {| v_label := label; v_url := url; v_rating := rating;
       v_totalTime := totalTime; v_ingredientLabel := ingredientLabel;
       v_direction := direction; v_dietLabel := dietLabel;
       v_cuisineLabel := cuisineLabel |} ].

(** [if v: x = str(v); if x not in l: l.append(x)] *)
Definition append_new (v : option string) (l : list string) : list string :=
  match text_or_none v with
  | Some x => if bool_decide (x ∈ l) then l else l ++ [x]
  | None => l
  end.

(** The body of [for row in rows]. *)
Definition collect (detail : RecipeDetail) (r : row) : RecipeDetail :=
  {| summary :=
       {| uri := uri detail; label := label detail; url := url detail;
          rating := rating detail; total_time := total_time detail;
          cuisines := append_new (v_cuisineLabel r) (cuisines detail);
          diets := append_new (v_dietLabel r) (diets detail) |};
     ingredients := append_new (v_ingredientLabel r) (ingredients detail);
     directions := append_new (v_direction r) (directions detail) |}.

Definition initial (recipe_uri : string) (first : row) : RecipeDetail :=
  {| summary :=
       {| uri := recipe_uri; label := v_label first;
          url := text_or_none (v_url first);
          rating := float_or_none (v_rating first);
          total_time := int_or_none (v_totalTime first);
          cuisines := []; diets := [] |};
     ingredients := [];
     directions := [] |}.

End Detail.

(** [RecipeGraph.recipe_detail]: [Returns None] is the not-found result. *)
Definition recipe_detail (g : graph) (recipe_uri : string)
  : outcome (option RecipeDetail) :=
  iri ← in_angle_brackets recipe_uri;
  match Detail.query g (URIRef iri) with
  | [] => Returns None
  | first :: rest =>
      let rows := first :: rest in
      Returns (Some (foldl Detail.collect (Detail.initial recipe_uri first) rows))
  end.

(** ** Raw rows and [load_records] *)

(** The values a row of the JSON or CSV dataset can hold. *)
#[local] Set Warnings "-register-all".
Inductive pyvalue : Type :=
| PyNone
| PyBool (b : bool)
| PyInt (z : Z)
| PyFloat (f : spec_float)
| PyStr (s : string)
| PyList (items : list pyvalue)
| PyDict (items : list (string * pyvalue)).

Inductive exception : Type := TypeError | ValueError | OverflowError.

(** [int(f)] for a float: towards zero. *)
Definition truncate (f : spec_float) : exception + Z :=
  match f with
  | S754_zero _ => inr 0
  | S754_infinity _ => inl OverflowError
  | S754_nan => inl ValueError
  | S754_finite s m e =>
      let magnitude := Z.shiftl (Z.pos m) e in
      inr (if s then - magnitude else magnitude)
  end.

Definition digit_value (c : ascii) : Z := Z.of_N (Py.code c) - 48.

(** The whitespace that [int] skips around a literal: TAB, LF, VT, FF, CR
    and space. *)
Definition is_int_space (c : ascii) : bool :=
  ((9 <=? Py.code c)%N && (Py.code c <=? 13)%N) || (Py.code c =? 32)%N.

(** [sys.get_int_max_str_digits()], as the interpreter sets it: a literal
    with more digits is refused. *)
Definition INT_MAX_STR_DIGITS : Z := 4300.

(** The digits of a decimal literal: single underscores are allowed between
    digits only; [digits] counts the digits read so far. *)
Fixpoint parse_digits (acc : Z) (digits : Z) (after_digit : bool) (s : string)
  : option Z :=
  match s with
  | EmptyString =>
      if after_digit && (digits <=? INT_MAX_STR_DIGITS) then Some acc else None
  | String c s' =>
      if Py.is_digit c
      then parse_digits (10 * acc + digit_value c) (digits + 1) true s'
      else if bool_decide (c = ascii_of_N 95) && after_digit
           then parse_digits acc digits false s'
           else None
  end.

(** [int(s)] for a string: surrounding whitespace, an optional sign, decimal
    digits. *)
Definition parse_int (s : string) : option Z :=
  match Py.strip_chars is_int_space s with
  | String c body =>
      if bool_decide (c = ascii_of_N 45)
      then Z.opp <$> parse_digits 0 0 false body
      else if bool_decide (c = ascii_of_N 43) then parse_digits 0 0 false body
      else parse_digits 0 0 false (String c body)
  | EmptyString => None
  end.

(** [int(value)] *)
Definition int_of (value : pyvalue) : exception + Z :=
  match value with
  | PyNone => inl TypeError
  | PyBool b => inr (if b then 1 else 0)
  | PyInt z => inr z
  | PyFloat f => truncate f
  | PyStr s => match parse_int s with Some z => inr z | None => inl ValueError end
  | PyList _ | PyDict _ => inl TypeError
  end.

(** [value is None or (isinstance(value, float) and math.isnan(value))] *)
Definition none_or_nan (value : pyvalue) : bool :=
  match value with
  | PyNone | PyFloat S754_nan => true
  | _ => false
  end.

(** [to_optional_int]: [inl e] is an exception the function does not catch. *)
Definition to_optional_int (value : pyvalue) : exception + option Z :=
  if none_or_nan value then inr None
  else match int_of value with
       | inr z => inr (Some z)
       | inl TypeError | inl ValueError => inr None
       | inl e => inl e
       end.

(** Truthiness of a value. *)
Definition truthy (value : pyvalue) : bool :=
  match value with
  | PyNone => false
  | PyBool b => b
  | PyInt z => negb (z =? 0)
  | PyFloat f => truthy_float (Some f)
  | PyStr s => Py.nonempty s
  | PyList items => match items with [] => false | _ => true end
  | PyDict items => match items with [] => false | _ => true end
  end.

(** [re.split(cls+, s)] for a character class. *)
Fixpoint split_runs (cls : ascii → bool) (in_run : bool) (s : string)
  : list string :=
  match s with
  | EmptyString => [EmptyString]
  | String c s' =>
      if cls c
      then (if in_run then split_runs cls true s'
            else EmptyString :: split_runs cls true s')
      else match split_runs cls false s' with
           | piece :: pieces => String c piece :: pieces
           | [] => [String c EmptyString]
           end
  end.

Definition re_split (cls : ascii → bool) (s : string) : list string :=
  split_runs cls false s.

(** What [load_records] takes from the Python runtime rather than from this
    repository. *)
Record runtime : Type := {
  (** [str(v)] for a float, a list or a dict *)
  repr : pyvalue → string;
  (** [json.loads(s)], [None] standing for [JSONDecodeError] *)
  json_loads : string → option pyvalue;
  (** [float(s)] for a string and [float(z)] for an integer *)
  float_of_str : string → exception + spec_float;
  float_of_int : Z → exception + spec_float;
}.

Section load.

Context (rt : runtime).

(** [str(value)] *)
Definition str (value : pyvalue) : string :=
  match value with
  | PyStr s => s
  | PyNone => "None"
  | PyBool b => if b then "True" else "False"
  | PyInt z => pretty z
  | _ => repr rt value
  end.

(** [[str(v).strip() for v in items if str(v).strip()]] *)
Definition stripped_items (items : list pyvalue) : list string :=
  filter (λ s, Py.nonempty s = true) ((λ v, Py.strip (str v)) <$> items).

Definition is_line_break_or_semicolon (c : ascii) : bool :=
  bool_decide (c = LF ∨ c = ascii_of_N 59).

Definition parse_sequence (value : pyvalue) : list string :=
  match value with
  | PyList items => stripped_items items
  | PyStr s =>
      let s := Py.strip s in
      if negb (Py.nonempty s) then []
      else match json_loads rt s with
           | Some (PyList items) => stripped_items items
           | _ => filter (λ part, Py.nonempty part = true)
                    (Py.strip <$> re_split is_line_break_or_semicolon s)
           end
  | _ => []
  end.

(** [float(value)] *)
Definition float_of (value : pyvalue) : exception + spec_float :=
  match value with
  | PyFloat f => inr f
  | PyInt z => float_of_int rt z
  | PyBool b => float_of_int rt (if b then 1 else 0)
  | PyStr s => float_of_str rt s
  | _ => inl TypeError
  end.

Definition to_optional_float (value : pyvalue) : exception + option spec_float :=
  if none_or_nan value then inr None
  else match float_of value with
       | inr f => inr (Some f)
       | inl TypeError | inl ValueError => inr None
       | inl e => inl e
       end.

(** [row.get(key)] and [row.get(key, default)] *)
Definition get (row : gmap string pyvalue) (key : string) : pyvalue :=
  default PyNone (row !! key).
Definition get_or (row : gmap string pyvalue) (key : string) (d : pyvalue)
  : pyvalue :=
  default d (row !! key).

(** [str(row.get(key)) if row.get(key) else None] *)
Definition str_if_truthy (row : gmap string pyvalue) (key : string)
  : option string :=
  if truthy (get row key) then Some (str (get row key)) else None.

(** The [RecipeRecord(...)] built for one row; the arguments are evaluated
    in order and the first exception propagates. *)
Definition load_record (row : gmap string pyvalue) : exception + RecipeRecord :=
  match to_optional_int (get row "prep_time") with inl e => inl e | inr prep =>
  match to_optional_int (get row "cook_time") with inl e => inl e | inr cook =>
  match to_optional_int (get row "total_time") with inl e => inl e | inr total =>
  match to_optional_int (get row "servings") with inl e => inl e | inr serv =>
  match to_optional_float (get row "rating") with inl e => inl e | inr rate =>
  inr {| name := Py.strip (str (get_or row "recipe_name" (PyStr "")));
         prep_time := prep;
         cook_time := cook;
         rec_total_time := total;
         servings := serv;
         rec_ingredients := parse_sequence (get row "ingredients");
         rec_directions := parse_sequence (get row "directions");
         rec_rating := rate;
         rec_url := str_if_truthy row "url";
         cuisine_path := str_if_truthy row "cuisine_path" |}
  end end end end end.


End load.

(** ** Vocabulary of the specification *)

(** A recipe of the store: a node of class [rec:Recipe] that carries a
    label. *)
Definition recipe_of (g : graph) (n : node) : Prop :=
  Link n RDF_type (REC "Recipe") ∈ g ∧ ∃ l, Text n RDFS_label l ∈ g.

(** [n] has an association by [p] to a node labelled [l]. *)
Definition associated (g : graph) (n : node) (p : link) (l : string) : Prop :=
  ∃ o, Link n p o ∈ g ∧ Text o RDFS_label l ∈ g.

(** [text] occurs in [l], letter case apart. *)
Definition contains_ci (text l : string) : Prop :=
  ∃ before after, Py.lower l = before +:+ Py.lower text +:+ after.

(** [a] and [b] are equal, letter case apart. *)
Definition equal_ci (a b : string) : Prop := Py.lower a = Py.lower b.

Definition has_ingredient_like (g : graph) (n : node) (text : string) : Prop :=
  ∃ l, associated g n REC_hasIngredient l ∧ contains_ci text l.

Definition has_cuisine (g : graph) (n : node) (c : string) : Prop :=
  ∃ l, associated g n REC_hasCuisine l ∧ equal_ci l c.

Definition has_diet (g : graph) (n : node) (d : string) : Prop :=
  ∃ l, associated g n REC_hasDiet l ∧ equal_ci l d.

Definition total_time_within (g : graph) (n : node) (bound : Z) : Prop :=
  ∃ t, Int n REC_hasTotalTime t ∈ g ∧ t ≤ bound.

(** The call returned a list that holds a summary of identifier [u]. *)
Definition returns_recipe (res : outcome (list RecipeSummary)) (u : string)
  : Prop :=
  ∃ l x, res = Returns l ∧ x ∈ l ∧ uri x = u.

(** The query of [search] has a solution that binds [?recipe] to [n]. *)
Definition selects (g : graph) (ingredient cuisine diet : option string)
    (max_total_time : option Z) (n : node) : Prop :=
  ∃ r, r ∈ Search.query g ingredient cuisine diet max_total_time
       ∧ Search.v_recipe r = n.

(** The order of the results: by label, letter case apart. *)
Definition label_le (a b : RecipeSummary) : Prop :=
  String.le (Py.lower (label a)) (Py.lower (label b)).

(** The distinct values of a sequence, each at its first position. *)
Fixpoint first_seen (l : list string) : list string :=
  match l with
  | [] => []
  | x :: l' => x :: filter (λ y, y ≠ x) (first_seen l')
  end.

(** A filter argument constrains the result when it is supplied and is not
    the empty string. *)
Definition when_supplied (arg : option string) (P : string → Prop) : Prop :=
  ∀ s, arg = Some s → s ≠ EmptyString → P s.


(** ** Auxiliary notions for the proofs *)

(** The key under which [search] groups a row. *)
Definition key (r : Search.row) : string := node_str (Search.v_recipe r).

(** What one row adds to the entry of its key. *)
Definition touch (r : Search.row) (d : Search.data) : Search.data :=
  let d := match text_or_none (Search.v_cuisineLabel r) with
           | Some l => Search.add_cuisine l d
           | None => d
           end in
  match text_or_none (Search.v_dietLabel r) with
  | Some l => Search.add_diet l d
  | None => d
  end.

(** ** The claims as the specification words them *)

(** The argument reaches the query as the literal it is. *)
Definition verbatim (s : string) : Prop := in_double_quotes s = Returns s.

Definition verbatim_arg (arg : option string) : Prop :=
  Search.quoted arg = Returns ().

(** [search(ingredient=text)] returns exactly the recipes that have an
    ingredient whose label contains [text]. *)
Definition ingredient_filter_exact (g : graph) (text : string) : Prop :=
  ∀ u, returns_recipe (search g (Some text) None None None) u ↔
       ∃ n, node_str n = u ∧ recipe_of g n ∧ has_ingredient_like g n text.

(** [search] with the one filter [arg] on the association [p] returns
    exactly the recipes having an association whose label equals the filter
    value. *)
Definition association_filter_exact (g : graph) (p : link)
    (res : outcome (list RecipeSummary)) (c : string) : Prop :=
  ∀ u, returns_recipe res u ↔
       ∃ n, node_str n = u ∧ recipe_of g n
            ∧ ∃ l, associated g n p l ∧ equal_ci l c.

(** Every label [l] with [P l] that a matching recipe has on the association
    [p] is in the list [field] of its summary. *)
Definition displays (g : graph) (p : link) (P : string → Prop)
    (field : RecipeSummary → list string)
    (res : outcome (list RecipeSummary)) (c : string) : Prop :=
  ∀ rs x n l,
    res = Returns rs → x ∈ rs → uri x = node_str n → recipe_of g n →
    (∃ l', associated g n p l' ∧ equal_ci l' c) →
    associated g n p l → P l → l ∈ field x.

Definition cuisine_filter_claim (P : string → Prop) (g : graph) (c : string)
  : Prop :=
  association_filter_exact g REC_hasCuisine
    (search g None (Some c) None None) c
  ∧ displays g REC_hasCuisine P cuisines (search g None (Some c) None None) c.

Definition diet_filter_claim (P : string → Prop) (g : graph) (d : string)
  : Prop :=
  association_filter_exact g REC_hasDiet
    (search g None None (Some d) None) d
  ∧ displays g REC_hasDiet P diets (search g None None (Some d) None) d.

(** The cuisine filter and the diet filter, each exact, each leaving the
    displayed list whole. *)
Definition association_filters_claim (P : string → Prop) (g : graph)
    (c : string) : Prop :=
  cuisine_filter_claim P g c ∧ diet_filter_claim P g c.

(** The recipes that [search] returns for its four arguments. *)
Definition search_result_is (g : graph) (ingredient cuisine diet : option string)
    (max_total_time : option Z) : Prop :=
  ∀ u, returns_recipe (search g ingredient cuisine diet max_total_time) u ↔
       ∃ n, node_str n = u ∧ recipe_of g n
            ∧ when_supplied ingredient (has_ingredient_like g n)
            ∧ when_supplied cuisine (has_cuisine g n)
            ∧ when_supplied diet (has_diet g n)
            ∧ (∀ bound, max_total_time = Some bound →
                 total_time_within g n bound).


(** Processing the record leaves the builder's state as it was. *)
Definition silently_dropped (record : RecipeRecord) : Prop :=
  ∀ st, populate_record st record = st.

(** A record whose name has no alphanumeric character, the empty name
    included, is dropped. *)
Definition unnamed_dropped_claim (record : RecipeRecord) : Prop :=
  normalise_text (name record) = EmptyString → silently_dropped record.

(** What processing a record with a cuisine path does to the store: [g] is
    the store before, [g'] the store after. *)
Definition cuisine_chain_claim (g g' : graph) (record : RecipeRecord)
    (segments : list string) : Prop :=
  (∀ c, c ∈ segments →
     Link (cuisine_node c) RDF_type (REC "Cuisine") ∈ g'
     ∧ (Link (cuisine_node c) RDF_type (REC "Cuisine") ∈ g
        ∨ ∃ l, Text (cuisine_node c) RDFS_label l ∈ g'
               ∧ normalise_text l = normalise_text c))
  ∧ (∀ before a b after,
       segments = before ++ a :: b :: after →
       Link (cuisine_node b) RDFS_subClassOf (cuisine_node a) ∈ g')
  ∧ (∀ o, Link (recipe_node (name record)) REC_hasCuisine o ∈ g' ↔
          Link (recipe_node (name record)) REC_hasCuisine o ∈ g
          ∨ Some o = cuisine_node <$> last segments).

(** The integer fields of a row, each with the attribute that holds it and
    the field of the record it is loaded into. *)
Definition INT_FIELDS : list (string * int_prop * (RecipeRecord → option Z)) :=
  [ ("prep_time", REC_hasPrepTime, prep_time);
    ("cook_time", REC_hasCookTime, cook_time);
    ("total_time", REC_hasTotalTime, rec_total_time);
    ("servings", REC_hasServings, servings) ].

(** The integer part of the number [m * 2 ^ e], negated when [s] is set,
    rounded toward zero. *)
Definition toward_zero (s : bool) (m : positive) (e : Z) : Z :=
  let n := if s then Z.neg m else Z.pos m in
  if 0 <=? e then n * 2 ^ e else Z.quot n (2 ^ (- e)).

(** What processing a record does to the diets of its recipe: [g] is the
    store before, [g'] the store after. *)
Definition chicken_stock_claim (g g' : graph) (record : RecipeRecord) : Prop :=
  let recipe_uri := recipe_node (name record) in
  (Link recipe_uri REC_hasDiet (REC "Vegan") ∈ g' →
   Link recipe_uri REC_hasDiet (REC "Vegan") ∈ g)
  ∧ (Link recipe_uri REC_hasDiet (REC "Vegetarian") ∈ g' →
     Link recipe_uri REC_hasDiet (REC "Vegetarian") ∈ g)
  ∧ ((∀ l, l ∈ rec_ingredients record →
           Py.any_in GLUTEN_GRAINS (Py.lower l) = false) →
     Link recipe_uri REC_hasDiet (REC "GlutenFree") ∈ g').

(** The diets of the recipe of [record] in the store built from
    [records]. *)
Definition diets_as_worded (records : list RecipeRecord)
    (record : RecipeRecord) : Prop :=
  let g := build_graph records in
  let recipe_uri := recipe_node (name record) in
  (Link recipe_uri REC_hasDiet (REC "Vegan") ∉ g)
  ∧ (Link recipe_uri REC_hasDiet (REC "Vegetarian") ∉ g)
  ∧ ((∀ l, l ∈ rec_ingredients record →
           Py.any_in GLUTEN_GRAINS (Py.lower l) = false) →
     Link recipe_uri REC_hasDiet (REC "GlutenFree") ∈ g).

(** ** Sample data *)

(** The record of the specification's scenario. *)
Definition lentil_soup : RecipeRecord :=
  {| name := "Lentil Soup"; prep_time := None; cook_time := None;
     rec_total_time := Some 45; servings := None;
     rec_ingredients := [ "Lentils"; "Vegetable Stock" ];
     rec_directions := [ "Simmer the lentils"; "Season and serve" ];
     rec_rating := None; rec_url := None;
     cuisine_path := Some "Asian>Indian" |}.

(** The record with a name and a cuisine path only. *)
Definition lentil_soup_with_path : RecipeRecord :=
  {| name := "Lentil Soup"; prep_time := None; cook_time := None;
     rec_total_time := None; servings := None;
     rec_ingredients := []; rec_directions := [];
     rec_rating := None; rec_url := None;
     cuisine_path := Some "Asian>Indian" |}.

(** A record without ingredients, cuisine or times. *)
Definition water : RecipeRecord :=
  {| name := "Water"; prep_time := None; cook_time := None;
     rec_total_time := None; servings := None;
     rec_ingredients := []; rec_directions := [];
     rec_rating := None; rec_url := None; cuisine_path := None |}.

(** The record with a cuisine path that holds spaces and empty segments. *)
Definition lentil_soup_spaced_path : RecipeRecord :=
  {| name := "Lentil Soup"; prep_time := None; cook_time := None;
     rec_total_time := None; servings := None;
     rec_ingredients := []; rec_directions := [];
     rec_rating := None; rec_url := None;
     cuisine_path := Some " Asian > > Indian >" |}.

(** A runtime for rows that hold no text to decode and no number to convert
    to a float: every such conversion fails. *)
Definition plain_runtime : runtime :=
  {| repr := λ _, EmptyString;
     json_loads := λ _, None;
     float_of_str := λ _, inl ValueError;
     float_of_int := λ _, inl OverflowError |}.

(** The float 90.5. *)
Definition ninety_and_a_half : spec_float :=
  S754_finite false 6368371348078592 (-46).

(** A row whose total time is the float 90.5, and one whose total time is
    the text 90.5. *)
Definition stew_row : gmap string pyvalue :=
  {[ "recipe_name" := PyStr "Stew"; "total_time" := PyFloat ninety_and_a_half ]}.

Definition stew_row_text : gmap string pyvalue :=
  {[ "recipe_name" := PyStr "Stew"; "total_time" := PyStr "90.5" ]}.

(** Two records whose names normalise to the same identifier. *)
Definition vegetable_broth : RecipeRecord :=
  {| name := "Broth"; prep_time := None; cook_time := None;
     rec_total_time := None; servings := None;
     rec_ingredients := [ "Lentils" ]; rec_directions := [];
     rec_rating := None; rec_url := None; cuisine_path := None |}.

Definition chicken_broth : RecipeRecord :=
  {| name := "broth"; prep_time := None; cook_time := None;
     rec_total_time := None; servings := None;
     rec_ingredients := [ "Chicken Stock" ]; rec_directions := [];
     rec_rating := None; rec_url := None; cuisine_path := None |}.

(** A record whose name is made of punctuation. *)
Definition punctuation : RecipeRecord :=
  {| name := "!!!"; prep_time := None; cook_time := None;
     rec_total_time := None; servings := None;
     rec_ingredients := []; rec_directions := [];
     rec_rating := None; rec_url := None; cuisine_path := None |}.

Definition sample_store : graph := build_graph [ lentil_soup; water ].

(** A store in which a recipe has two cuisines, one of them with an empty
    label, two diets, one of them with an empty label, and an ingredient
    whose label holds a line break. *)
Definition odd_labels_store : graph :=
  [ Link (REC "recipe-dal") RDF_type (REC "Recipe");
    Text (REC "recipe-dal") RDFS_label "Dal";
    Link (REC "recipe-dal") REC_hasCuisine (REC "cuisine-indian");
    Text (REC "cuisine-indian") RDFS_label "Indian";
    Link (REC "recipe-dal") REC_hasCuisine (REC "cuisine-");
    Text (REC "cuisine-") RDFS_label "";
    Link (REC "recipe-dal") REC_hasDiet (REC "Vegan");
    Text (REC "Vegan") RDFS_label "Vegan";
    Link (REC "recipe-dal") REC_hasDiet (REC "Unnamed");
    Text (REC "Unnamed") RDFS_label "";
    Link (REC "recipe-dal") REC_hasIngredient (REC "ingredient-red-lentils");
    Text (REC "ingredient-red-lentils") RDFS_label
      ("red" +:+ String LF "lentils") ].

(** The identifier reaches the query as the IRI it is. *)
Definition iri_verbatim (s : string) : Prop := in_angle_brackets s = Returns s.

(** The truthy values a variable takes over the rows of the join, in the
    order of the rows. *)
Definition encountered {R} (var : R → option string) (rows : list R)
  : list string :=
  omap (λ r, text_or_none (var r)) rows.

(** The maximal runs of characters of [a-z0-9] in a string, the empty runs
    between two adjacent separators included, and the non-empty ones. *)
Fixpoint runs (s : string) : list string :=
  match s with
  | EmptyString => [EmptyString]
  | String c s' =>
      if is_slug_char c
      then match runs s' with
           | r :: rs => String c r :: rs
           | [] => [String c EmptyString]
           end
      else EmptyString :: runs s'
  end.

Definition words_of (rs : list string) : list string :=
  filter (λ r, Py.nonempty r = true) rs.

Definition words (s : string) : list string := words_of (runs s).

(** A keyword made of characters of [a-z0-9] only. *)
Fixpoint all_slug (s : string) : bool :=
  match s with
  | EmptyString => true
  | String c s' => is_slug_char c && all_slug s'
  end.

Definition slug_token (tok : string) : bool := Py.nonempty tok && all_slug tok.

(** The node [annotate_ingredient] gives to a label. *)
Definition ingredient_node (ingredient_label : string) : node :=
  REC ("ingredient-" +:+ normalise_text ingredient_label).

(** [g'] is [g] followed by triples that all satisfy [P]. *)
Definition grows (P : triple → Prop) (g g' : graph) : Prop :=
  ∃ ext, g' = g ++ ext ∧ Forall P ext.

(** The blocks of the body of [populate_graph] and the triples each can add
    for a record named [nm]. *)
Inductive phase : Type :=
| Attributes | Ingredients | Diets | Directions | CuisineChain | CuisineLeaf.

Inductive fact (nm : string) : phase → triple → Prop :=
| F_recipe :
    fact nm Attributes (Link (recipe_node nm) RDF_type (REC "Recipe"))
| F_text p v : fact nm Attributes (Text (recipe_node nm) p v)
| F_rating r : fact nm Attributes (Rating (recipe_node nm) r)
| F_int p z : fact nm Attributes (Int (recipe_node nm) p z)
| F_ingredient l :
    fact nm Ingredients (Link (ingredient_node l) RDF_type (REC "Ingredient"))
| F_ingredient_label l :
    fact nm Ingredients (Text (ingredient_node l) RDFS_label l)
| F_animal l :
    Py.any_in ANIMAL_PRODUCTS (Py.lower l) = true →
    fact nm Ingredients
      (Link (ingredient_node l) RDF_type (REC "AnimalProduct"))
| F_gluten l :
    Py.any_in GLUTEN_GRAINS (Py.lower l) = true →
    fact nm Ingredients
      (Link (ingredient_node l) RDF_type (REC "GlutenIngredient"))
| F_hasIngredient l :
    fact nm Ingredients
      (Link (recipe_node nm) REC_hasIngredient (ingredient_node l))
| F_diet o : fact nm Diets (Link (recipe_node nm) REC_hasDiet o)
| F_avoids o :
    fact nm Diets (Link (recipe_node nm) REC_avoidsIngredientCategory o)
| F_step_type n :
    fact nm Directions (Link (fresh_bnode n) RDF_type (SCHEMA "HowToStep"))
| F_step_label n v : fact nm Directions (Text (fresh_bnode n) RDFS_label v)
| F_step_position n z :
    fact nm Directions (Int (fresh_bnode n) SCHEMA_position z)
| F_step n :
    fact nm Directions (Link (recipe_node nm) SCHEMA_step (fresh_bnode n))
| F_cuisine c :
    fact nm CuisineChain (Link (cuisine_node c) RDF_type (REC "Cuisine"))
| F_cuisine_label c :
    fact nm CuisineChain (Text (cuisine_node c) RDFS_label c)
| F_parent c c' :
    fact nm CuisineChain
      (Link (cuisine_node c) RDFS_subClassOf (cuisine_node c'))
| F_leaf c :
    fact nm CuisineLeaf (Link (recipe_node nm) REC_hasCuisine (cuisine_node c)).

(** The first block: the recipe node, its label and its scalar
    attributes. *)
Definition add_attributes (g : graph) (record : RecipeRecord) : graph :=
  let recipe_uri := recipe_node (name record) in
  let g := add g (Link recipe_uri RDF_type (REC "Recipe")) in
  let g := add g (Text recipe_uri RDFS_label (name record)) in
  let g := match text_or_none (rec_url record) with
           | Some u => add g (Text recipe_uri SCHEMA_url u)
           | None => g
           end in
  let g := match rec_rating record with
           | Some r => add g (Rating recipe_uri r)
           | None => g
           end in
  let g := add_int g recipe_uri REC_hasPrepTime (prep_time record) in
  let g := add_int g recipe_uri REC_hasCookTime (cook_time record) in
  let g := add_int g recipe_uri REC_hasTotalTime (rec_total_time record) in
  add_int g recipe_uri REC_hasServings (servings record).

(** The last block: the cuisine chain and the link to its leaf. *)
Definition add_cuisines (g : graph) (record : RecipeRecord) : graph :=
  match text_or_none (cuisine_path record) with
  | Some path =>
      let '(g, parent_uri) := add_cuisine_chain g (path_segments path) in
      match parent_uri with
      | Some leaf => add g (Link (recipe_node (name record)) REC_hasCuisine leaf)
      | None => g
      end
  | None => g
  end.

(** A triple that says nothing about an ingredient node. *)
Definition ingredient_free (t : triple) : Prop :=
  match t with
  | Link _ RDF_type o =>
      o ≠ REC "Ingredient" ∧ o ≠ REC "AnimalProduct"
      ∧ o ≠ REC "GlutenIngredient"
  | Text s RDFS_label _ => ∀ l, s ≠ ingredient_node l
  | _ => True
  end.

(** What the builder maintains about ingredient nodes: the category markers
    follow the keywords of the label, and the node carries first the label
    it was created with. *)
Record coherent (g : graph) : Prop := {
  animal_marked : ∀ l,
    Link (ingredient_node l) RDF_type (REC "Ingredient") ∈ g →
    Py.any_in ANIMAL_PRODUCTS (Py.lower l) = true →
    Link (ingredient_node l) RDF_type (REC "AnimalProduct") ∈ g;
  gluten_sound : ∀ u,
    Link u RDF_type (REC "GlutenIngredient") ∈ g →
    ∃ l, u = ingredient_node l
         ∧ Py.any_in GLUTEN_GRAINS (Py.lower l) = true;
  labelled_first : ∀ l,
    Link (ingredient_node l) RDF_type (REC "Ingredient") ∈ g →
    ∃ l', value g (ingredient_node l) RDFS_label = Some l'
          ∧ normalise_text l' = normalise_text l;
  label_typed : ∀ l l',
    Text (ingredient_node l) RDFS_label l' ∈ g →
    Link (ingredient_node l) RDF_type (REC "Ingredient") ∈ g;
}.

(** The graph when the body of [populate_graph] reaches the cuisine path. *)
Definition before_cuisines (g : graph) (bnodes : nat) (record : RecipeRecord)
  : graph :=
  let recipe_uri := recipe_node (name record) in
  let g1 := add_attributes g record in
  let g2 := (add_ingredients g1 recipe_uri (rec_ingredients record)).1 in
  let uris := (add_ingredients g1 recipe_uri (rec_ingredients record)).2 in
  let g3 := infer_diets g2 recipe_uri uris in
  (add_directions g3 bnodes recipe_uri (rec_directions record)).1.

Definition early (ph : phase) : Prop :=
  ph ≠ CuisineChain ∧ ph ≠ CuisineLeaf.

(** ** The shape of an identifier *)

(** Characters of [a-z0-9] and hyphens, no hyphen next to another;
    [after_hyphen] tells that the previous character was a hyphen, or that
    the string starts here. *)
Fixpoint slug_body (after_hyphen : bool) (s : string) : bool :=
  match s with
  | EmptyString => true
  | String c s' =>
      if is_hyphen c then negb after_hyphen && slug_body true s'
      else is_slug_char c && slug_body false s'
  end.

(** The same, and the string does not end with a hyphen. *)
Fixpoint slug_from (after_hyphen : bool) (s : string) : bool :=
  match s with
  | EmptyString => negb after_hyphen
  | String c s' =>
      if is_hyphen c then negb after_hyphen && slug_from true s'
      else is_slug_char c && slug_from false s'
  end.

(** Words of [a-z0-9] separated by single hyphens; the empty string. *)
Definition is_slug (s : string) : bool :=
  negb (Py.nonempty s) || slug_from true s.

(** [w1-w2-...-wn] *)
Fixpoint hyphenated (ws : list string) : string :=
  match ws with
  | [] => EmptyString
  | w :: ws' =>
      match ws' with
      | [] => w
      | _ => w +:+ "-" +:+ hyphenated ws'
      end
  end.

(** [-w1-w2-...-wn] *)
Definition hyphen_led (ws : list string) : string :=
  foldr (λ w acc, "-" +:+ w +:+ acc) EmptyString ws.

(** ** [list_cuisines] and [list_diets] *)

Module Listing.

(** The solutions of [?node a rec:<class> ; rdfs:label ?label], in the
    order of [ORDER BY LCASE(?label)]. *)
Definition by_lcase_label (a b : node * string) : bool :=
  String.leb (Py.lower a.2) (Py.lower b.2).

Definition rows (g : graph) (class : string) : list (node * string) :=
  stable_sort by_lcase_label
    (n ← subjects g RDF_type (REC class);
     label ← texts g n RDFS_label;
     [ (n, label) ]).

(** [SELECT DISTINCT]: a solution is kept where it first occurs. *)
Definition distinct (solutions : list string) : list string :=
  foldl (λ done x, if bool_decide (x ∈ done) then done else done ++ [x])
        [] solutions.

(** [[row["label"] for row in self._execute(query)]] *)
Definition labels (g : graph) (class : string) : list string :=
  distinct (snd <$> rows g class).

End Listing.

Definition list_cuisines (g : graph) : list string := Listing.labels g "Cuisine".
Definition list_diets (g : graph) : list string := Listing.labels g "DietType".

(** ** [app/main.py] *)

Module Api.

(** [sorted(labels)] on strings: by code point. *)
Definition sorted (labels : list string) : list string :=
  stable_sort String.leb labels.

(** The body and the status of the replies of [/api/cuisines] and
    [/api/diets]. *)
Definition cuisines (g : graph) : list string * Z :=
  (sorted (list_cuisines g), 200).
Definition diets (g : graph) : list string * Z :=
  (sorted (list_diets g), 200).

(** The JSON body of a reply of [/api/search] and [/api/recipes]. *)
Inductive body : Type :=
| Summaries_body (payload : list RecipeSummary)
| Detail_body (payload : RecipeDetail)
| Error_body (error : string).

(** [recipe_lookup]: [request.args] maps a parameter to its first value; an
    exception of the lookup is caught and answered with status 500. *)
Definition recipe_lookup (g : graph) (args : gmap string string)
  : outcome (body * Z) :=
  match text_or_none (args !! "uri") with
  | None => Returns (Error_body "Missing 'uri' query parameter", 400)
  | Some uri =>
      match recipe_detail g uri with
      | Returns None => Returns (Error_body "Recipe not found", 404)
      | Returns (Some detail) => Returns (Detail_body detail, 200)
      | Raises => Returns (Error_body "Recipe lookup failed", 500)
      | NotVerbatim => NotVerbatim
      end
  end.

Section search.

(** [str.isdigit] and [int] on a string, as the Python runtime has them. *)
Context (isdigit : string → bool) (int : string → exception + Z).

(** [int(max_time) if max_time and max_time.isdigit() else None] *)
Definition max_time_int (max_time : option string) : exception + option Z :=
  match max_time with
  | Some v =>
      if Py.nonempty v && isdigit v
      then match int v with inr z => inr (Some z) | inl e => inl e end
      else inr None
  | None => inr None
  end.

(** [search]: an exception of the conversion or of the query is caught and
    answered with status 500. *)
Definition search (g : graph) (args : gmap string string)
  : outcome (body * Z) :=
  let ingredient := text_or_none (args !! "ingredient") in
  let cuisine := text_or_none (args !! "cuisine") in
  let diet := text_or_none (args !! "diet") in
  let max_time :=
    match text_or_none (args !! "maxTime") with
    | Some v => Some v
    | None => args !! "max_time"
    end in
  match max_time_int max_time with
  | inl _ => Returns (Error_body "Search failed", 500)
  | inr bound =>
      match search g ingredient cuisine diet bound with
      | Returns results => Returns (Summaries_body results, 200)
      | Raises => Returns (Error_body "Search failed", 500)
      | NotVerbatim => NotVerbatim
      end
  end.

End search.

End Api.


(** ** Diets in terms of the ingredient labels *)

(** No label of [labels] contains a keyword of [tokens], letter case apart;
    some label does. *)
Definition no_keyword (tokens labels : list string) : Prop :=
  ∀ l, l ∈ labels → Py.any_in tokens (Py.lower l) = false.

Definition some_keyword (tokens labels : list string) : Prop :=
  ∃ l, l ∈ labels ∧ Py.any_in tokens (Py.lower l) = true.

(** The other half of what the builder maintains about the category
    markers: a gluten keyword in the label is marked, and an animal marker
    comes from a keyword. *)
Record exact_markers (g : graph) : Prop := {
  gluten_marked : ∀ l,
    Link (ingredient_node l) RDF_type (REC "Ingredient") ∈ g →
    Py.any_in GLUTEN_GRAINS (Py.lower l) = true →
    Link (ingredient_node l) RDF_type (REC "GlutenIngredient") ∈ g;
  animal_sound : ∀ u,
    Link u RDF_type (REC "AnimalProduct") ∈ g →
    ∃ l, u = ingredient_node l
         ∧ Py.any_in ANIMAL_PRODUCTS (Py.lower l) = true;
}.

(** The diets and avoided categories of the recipe of [record] in the
    store [g], read off the ingredient labels of the record. *)
Definition diets_follow_labels (g : graph) (record : RecipeRecord) : Prop :=
  let recipe_uri := recipe_node (name record) in
  let labels := rec_ingredients record in
  (Link recipe_uri REC_hasDiet (REC "Vegan") ∈ g ↔
     no_keyword ANIMAL_PRODUCTS labels)
  ∧ (Link recipe_uri REC_hasDiet (REC "Vegetarian") ∈ g ↔
       no_keyword MEATS labels)
  ∧ (Link recipe_uri REC_hasDiet (REC "GlutenFree") ∈ g ↔
       no_keyword GLUTEN_GRAINS labels)
  ∧ (Link recipe_uri REC_avoidsIngredientCategory (REC "AnimalProduct") ∈ g ↔
       some_keyword ANIMAL_PRODUCTS labels)
  ∧ (Link recipe_uri REC_avoidsIngredientCategory (REC "GlutenIngredient") ∈ g ↔
       some_keyword GLUTEN_GRAINS labels).

(** The predicates that only [infer_diets] writes. *)
Definition inferred (p : link) : Prop :=
  p = REC_hasDiet ∨ p = REC_avoidsIngredientCategory.

(** What [infer_diets] gives the recipe of a record whatever else the batch
    holds: the diets and avoided categories that the ingredient labels of
    the record call for. *)
Definition diets_granted (g : graph) (record : RecipeRecord) : Prop :=
  let recipe_uri := recipe_node (name record) in
  let labels := rec_ingredients record in
  (no_keyword ANIMAL_PRODUCTS labels →
   Link recipe_uri REC_hasDiet (REC "Vegan") ∈ g)
  ∧ (no_keyword MEATS labels →
     Link recipe_uri REC_hasDiet (REC "Vegetarian") ∈ g)
  ∧ (no_keyword GLUTEN_GRAINS labels →
     Link recipe_uri REC_hasDiet (REC "GlutenFree") ∈ g)
  ∧ (some_keyword ANIMAL_PRODUCTS labels →
     Link recipe_uri REC_avoidsIngredientCategory (REC "AnimalProduct") ∈ g)
  ∧ (some_keyword GLUTEN_GRAINS labels →
     Link recipe_uri REC_avoidsIngredientCategory (REC "GlutenIngredient") ∈ g).

(** The diets of a store are among the three of the schema, and a vegan
    recipe is vegetarian. *)
Definition diets_consistent (g : graph) : Prop :=
  (∀ s o, Link s REC_hasDiet o ∈ g →
          o = REC "Vegan" ∨ o = REC "Vegetarian" ∨ o = REC "GlutenFree")
  ∧ (∀ s, Link s REC_hasDiet (REC "Vegan") ∈ g →
          Link s REC_hasDiet (REC "Vegetarian") ∈ g).

(** ** The cuisine nodes of a store *)

(** A triple that neither types a node as a cuisine nor labels a cuisine
    node. *)
Definition cuisine_free (t : triple) : Prop :=
  match t with
  | Link _ RDF_type o => o ≠ REC "Cuisine"
  | Text n RDFS_label _ => ∀ c, n ≠ cuisine_node c
  | _ => True
  end.

(** Every cuisine node that is typed or labelled is typed and has one label,
    a text with the identifier of the node. *)
Definition cuisines_labelled (g : graph) : Prop :=
  ∀ c, (Link (cuisine_node c) RDF_type (REC "Cuisine") ∈ g
        ∨ ∃ l, Text (cuisine_node c) RDFS_label l ∈ g) →
       ∃ l, cuisine_node l = cuisine_node c
            ∧ Link (cuisine_node c) RDF_type (REC "Cuisine") ∈ g
            ∧ ∀ l', Text (cuisine_node c) RDFS_label l' ∈ g ↔ l' = l.

(** The names of the diets of [add_ontology_schema]. *)
Definition DIET_NAMES : list string := [ "Vegan"; "Vegetarian"; "GlutenFree" ].

(** ** The steps of a store *)

(** The triples that the body of the loop over the directions adds for the
    blank node numbered [k], position [idx] and text [direction]. *)
Definition step_triples (recipe_uri : node) (k : nat) (idx : Z)
    (direction : string) : list triple :=
  let step_bnode := fresh_bnode k in
  [ Link step_bnode RDF_type (SCHEMA "HowToStep");
    Text step_bnode RDFS_label direction;
    Int step_bnode SCHEMA_position idx;
    Link recipe_uri SCHEMA_step step_bnode ].

Definition is_bnode (n : node) : Prop :=
  match n with BNode _ => True | URIRef _ => False end.

(** A triple that is no part of a step: its subject is no blank node and its
    predicate is not [schema:step]. *)
Definition step_free (t : triple) : Prop :=
  match t with
  | Link s p _ => ¬ is_bnode s ∧ p ≠ SCHEMA_step
  | Text s _ _ | Int s _ _ | Rating s _ => ¬ is_bnode s
  end.

(** Every triple of a step in the store belongs to a blank node numbered
    below [b]. *)
Definition steps_below (g : graph) (b : nat) : Prop :=
  ∀ t, t ∈ g →
       step_free t
       ∨ ∃ s k idx x, (k < b)%nat ∧ t ∈ step_triples s k idx x.

(** What the store [g] holds for the directions of [record]: [steps] are
    the step nodes, in the order of the directions. *)
Definition steps_claim (g : graph) (record : RecipeRecord) (steps : list node)
  : Prop :=
  length steps = length (rec_directions record)
  ∧ NoDup steps
  ∧ ∀ i step, steps !! i = Some step →
      ∃ text, rec_directions record !! i = Some text
              ∧ Link (recipe_node (name record)) SCHEMA_step step ∈ g
              ∧ Link step RDF_type (SCHEMA "HowToStep") ∈ g
              ∧ (∀ x, Text step RDFS_label x ∈ g ↔ x = text)
              ∧ (∀ z, Int step SCHEMA_position z ∈ g ↔ z = Z.of_nat i + 1)
              ∧ (∀ s, Link s SCHEMA_step step ∈ g ↔
                      s = recipe_node (name record)).

(** * Properties *)

(** ** Lookups *)

Lemma elem_of_objects g s p o : o ∈ objects g s p ↔ Link s p o ∈ g.
Proof.
  unfold objects. rewrite list_elem_of_omap. split.
  - intros [[] [Hin Heq]]; try done.
    case_bool_decide as H; [|done]. destruct H as [-> ->]. by simplify_eq.
  - intros Hin. exists (Link s p o). split; [done|].
    by rewrite bool_decide_eq_true_2.
Qed.

Lemma elem_of_subjects g p o s : s ∈ subjects g p o ↔ Link s p o ∈ g.
Proof.
  unfold subjects. rewrite list_elem_of_omap. split.
  - intros [[] [Hin Heq]]; try done.
    case_bool_decide as H; [|done]. destruct H as [-> ->]. by simplify_eq.
  - intros Hin. exists (Link s p o). split; [done|].
    by rewrite bool_decide_eq_true_2.
Qed.

Lemma elem_of_texts g s p o : o ∈ texts g s p ↔ Text s p o ∈ g.
Proof.
  unfold texts. rewrite list_elem_of_omap. split.
  - intros [[] [Hin Heq]]; try done.
    case_bool_decide as H; [|done]. destruct H as [-> ->]. by simplify_eq.
  - intros Hin. exists (Text s p o). split; [done|].
    by rewrite bool_decide_eq_true_2.
Qed.

Lemma elem_of_ints g s p o : o ∈ ints g s p ↔ Int s p o ∈ g.
Proof.
  unfold ints. rewrite list_elem_of_omap. split.
  - intros [[] [Hin Heq]]; try done.
    case_bool_decide as H; [|done]. destruct H as [-> ->]. by simplify_eq.
  - intros Hin. exists (Int s p o). split; [done|].
    by rewrite bool_decide_eq_true_2.
Qed.

Lemma elem_of_ratings g s o : o ∈ ratings g s ↔ Rating s o ∈ g.
Proof.
  unfold ratings. rewrite list_elem_of_omap. split.
  - intros [[] [Hin Heq]]; try done.
    case_bool_decide as H; [|done]. subst. by simplify_eq.
  - intros Hin. exists (Rating s o). split; [done|].
    by rewrite bool_decide_eq_true_2.
Qed.

Lemma elem_of_labelled g s p l : l ∈ labelled g s p ↔ associated g s p l.
Proof.
  unfold labelled, associated. rewrite list_elem_of_bind.
  setoid_rewrite elem_of_objects. setoid_rewrite elem_of_texts.
  split; intros (o & H1 & H2); eauto.
Qed.

Lemma elem_of_optional {A} (l : list A) (v : option A) :
  v ∈ optional l ↔ (l = [] ∧ v = None) ∨ (∃ x, v = Some x ∧ x ∈ l).
Proof.
  destruct l as [|y l]; unfold optional.
  - rewrite list_elem_of_singleton. split; [by left|].
    intros [[_ ->]|(x & _ & Hx)]; [done|]. by apply elem_of_nil in Hx.
  - rewrite list_elem_of_fmap. split.
    + intros (x & -> & Hx). right. eauto.
    + intros [[? _]|(x & -> & Hx)]; [done|]. eauto.
Qed.

Lemma optional_inhabited {A} (l : list A) : ∃ v, v ∈ optional l.
Proof.
  destruct l as [|y l]; [exists None|exists (Some y)]; simpl;
    apply elem_of_cons; by left.
Qed.

Lemma optional_some {A} (l : list A) x : x ∈ l → Some x ∈ optional l.
Proof. intros. apply elem_of_optional. right. eauto. Qed.

(** ** Strings *)

Lemma append_nil_l a : EmptyString +:+ a = a.
Proof. reflexivity. Qed.

Lemma append_cons c a b : String c a +:+ b = String c (a +:+ b).
Proof. reflexivity. Qed.

Lemma prefix_spec a b : String.prefix a b = true ↔ ∃ rest, b = a +:+ rest.
Proof.
  revert b. induction a as [|c a IH]; intros b.
  - destruct b; simpl; (split; [intros _; by eexists|done]).
  - destruct b as [|c' b]; simpl.
    + split; [done|]. intros [rest H]. by rewrite append_cons in H.
    + setoid_rewrite append_cons.
      destruct (Ascii.ascii_dec c c') as [->|Hne].
      * rewrite IH. split; intros [rest H]; exists rest; by simplify_eq.
      * split; [done|]. intros [rest H]. by simplify_eq.
Qed.

Lemma contains_nil needle :
  Py.contains needle EmptyString = String.prefix needle EmptyString.
Proof. simpl. by rewrite orb_false_r. Qed.

Lemma contains_cons needle c hay :
  Py.contains needle (String c hay)
  = String.prefix needle (String c hay) || Py.contains needle hay.
Proof. reflexivity. Qed.

Lemma contains_spec needle hay :
  Py.contains needle hay = true ↔ ∃ before after, hay = before +:+ needle +:+ after.
Proof.
  induction hay as [|c hay IH].
  - rewrite contains_nil, prefix_spec. split.
    + intros [rest H]. by exists EmptyString, rest.
    + intros (before & after & H). destruct before; [by exists after|done].
  - rewrite contains_cons, orb_true_iff, prefix_spec, IH. split.
    + intros [[rest H]|(before & after & H)].
      * by exists EmptyString, rest.
      * exists (String c before), after. by rewrite append_cons, H.
    + intros (before & after & H). destruct before as [|c' before].
      * left. eauto.
      * right. exists before, after. rewrite append_cons in H. by simplify_eq.
Qed.

Lemma contains_lcase_spec v text :
  Search.contains_lcase v text = true ↔ ∃ l, v = Some l ∧ contains_ci text l.
Proof.
  destruct v as [l|]; simpl.
  - rewrite contains_spec. unfold contains_ci. naive_solver.
  - split; [done|]. by intros (? & ? & _).
Qed.

Lemma equals_lcase_spec v text :
  Search.equals_lcase v text = true ↔ ∃ l, v = Some l ∧ equal_ci l text.
Proof.
  destruct v as [l|]; simpl.
  - rewrite bool_decide_eq_true. unfold equal_ci. naive_solver.
  - split; [done|]. by intros (? & ? & _).
Qed.

Lemma at_most_spec v bound :
  Search.at_most v bound = true ↔ ∃ t, v = Some t ∧ t ≤ bound.
Proof.
  destruct v as [t|]; simpl.
  - rewrite Z.leb_le. naive_solver.
  - split; [done|]. by intros (? & ? & _).
Qed.

(** ** The solutions of [search] *)

Lemma elem_of_where_block g ingredient cuisine diet r :
  r ∈ Search.where_block g ingredient cuisine diet ↔
    Search.v_recipe r ∈ subjects g RDF_type (REC "Recipe")
    ∧ Search.v_label r ∈ texts g (Search.v_recipe r) RDFS_label
    ∧ Search.v_url r ∈ optional (texts g (Search.v_recipe r) SCHEMA_url)
    ∧ Search.v_rating r ∈ optional (ratings g (Search.v_recipe r))
    ∧ Search.v_totalTime r
        ∈ optional (ints g (Search.v_recipe r) REC_hasTotalTime)
    ∧ Search.v_cuisineLabel r
        ∈ optional (labelled g (Search.v_recipe r) REC_hasCuisine)
    ∧ Search.v_dietLabel r
        ∈ optional (labelled g (Search.v_recipe r) REC_hasDiet)
    ∧ Search.v_ingredientLabel r
        ∈ (if truthy_text ingredient
           then Some <$> labelled g (Search.v_recipe r) REC_hasIngredient
           else [None])
    ∧ Search.v_cuisineLabelFilter r
        ∈ (if truthy_text cuisine
           then Some <$> labelled g (Search.v_recipe r) REC_hasCuisine
           else [None])
    ∧ Search.v_dietLabelFilter r
        ∈ (if truthy_text diet
           then Some <$> labelled g (Search.v_recipe r) REC_hasDiet
           else [None]).
Proof.
  unfold Search.where_block.
  repeat setoid_rewrite list_elem_of_bind.
  setoid_rewrite list_elem_of_singleton.
  split.
  - intros (? & (? & (? & (? & (? & (? & (? & (? & (? & (? & -> & ?)
      & ?) & ?) & ?) & ?) & ?) & ?) & ?) & ?) & ?); simpl.
    repeat split; done.
  - destruct r; simpl. intros (?&?&?&?&?&?&?&?&?&?).
    repeat (eexists; split; [|eassumption]). done.
Qed.

(** ** Sorting *)

Lemma insert_sorted_perm {A} (le : A → A → bool) x l :
  insert_sorted le x l ≡ₚ x :: l.
Proof.
  induction l as [|y l IH]; simpl; [done|].
  destruct (le x y); [done|]. rewrite IH. apply Permutation_swap.
Qed.

Lemma stable_sort_perm {A} (le : A → A → bool) l : stable_sort le l ≡ₚ l.
Proof.
  induction l as [|x l IH]; simpl; [done|].
  rewrite insert_sorted_perm. by f_equiv.
Qed.

Lemma elem_of_stable_sort {A} (le : A → A → bool) l x :
  x ∈ stable_sort le l ↔ x ∈ l.
Proof. by rewrite stable_sort_perm. Qed.

Section sorted.
Context {A} (le : A → A → bool).
Hypothesis le_total : ∀ x y, le x y = true ∨ le y x = true.
Hypothesis le_trans : ∀ x y z, le x y = true → le y z = true → le x z = true.

Lemma insert_sorted_strongly x l :
  StronglySorted (λ a b, le a b = true) l →
  StronglySorted (λ a b, le a b = true) (insert_sorted le x l).
Proof.
  induction 1 as [|y l Hl IH Hy]; simpl.
  - repeat constructor.
  - destruct (le x y) eqn:Hxy.
    + constructor; [by constructor|].
      constructor; [done|]. eapply Forall_impl; [exact Hy|].
      intros z Hz. by eapply le_trans.
    + constructor; [done|].
      rewrite insert_sorted_perm. constructor; [|done].
      destruct (le_total x y); congruence.
Qed.

Lemma stable_sort_strongly l :
  StronglySorted (λ a b, le a b = true) (stable_sort le l).
Proof.
  induction l as [|x l IH]; simpl; [constructor|].
  by apply insert_sorted_strongly.
Qed.
End sorted.

Lemma StronglySorted_sublist {A} (R : relation A) l1 l2 :
  sublist l1 l2 → StronglySorted R l2 → StronglySorted R l1.
Proof.
  induction 1 as [|x l1 l2 Hsub IH|x l1 l2 Hsub IH]; intros Hs.
  - constructor.
  - apply StronglySorted_inv in Hs as [Hs Hx]. constructor; [by apply IH|].
    rewrite Forall_forall in Hx |- *. intros z Hz. apply Hx.
    by eapply elem_of_sublist.
  - apply StronglySorted_inv in Hs as [Hs _]. by apply IH.
Qed.

Lemma StronglySorted_fmap {A B} (f : A → B) (R : relation B) l :
  StronglySorted R (f <$> l) ↔ StronglySorted (λ a b, R (f a) (f b)) l.
Proof.
  induction l as [|x l IH]; [split; constructor|].
  rewrite fmap_cons.
  split; intros H; apply StronglySorted_inv in H as [Hs Hx]; constructor.
  - by apply IH.
  - rewrite Forall_forall in Hx. rewrite Forall_forall. intros z Hz.
    apply Hx. by apply list_elem_of_fmap_2.
  - by apply IH.
  - rewrite Forall_forall in Hx. rewrite Forall_forall.
    intros z (y & -> & Hy)%list_elem_of_fmap. by apply Hx.
Qed.

(** ** The rows of the query *)

Lemma filter_block_spec ingredient cuisine diet max_total_time r :
  Search.filter_block
    (Search.filter_parts ingredient cuisine diet max_total_time) r = true ↔
    (truthy_text ingredient = true →
       Search.contains_lcase (Search.v_ingredientLabel r)
         (default EmptyString ingredient) = true)
    ∧ (truthy_text cuisine = true →
       Search.equals_lcase (Search.v_cuisineLabelFilter r)
         (default EmptyString cuisine) = true)
    ∧ (truthy_text diet = true →
       Search.equals_lcase (Search.v_dietLabelFilter r)
         (default EmptyString diet) = true)
    ∧ (∀ bound, max_total_time = Some bound →
       Search.at_most (Search.v_totalTime r) bound = true).
Proof.
  unfold Search.filter_block, Search.filter_parts.
  rewrite !forallb_app.
  destruct (truthy_text ingredient), (truthy_text cuisine),
    (truthy_text diet), max_total_time as [bound|]; simpl;
    rewrite ?andb_true_r, ?andb_true_iff; naive_solver.
Qed.

Lemma elem_of_query g ingredient cuisine diet max_total_time r :
  r ∈ Search.query g ingredient cuisine diet max_total_time ↔
    r ∈ Search.where_block g ingredient cuisine diet
    ∧ Search.filter_block
        (Search.filter_parts ingredient cuisine diet max_total_time) r = true.
Proof.
  unfold Search.query.
  rewrite elem_of_stable_sort, list_elem_of_filter.
  rewrite Is_true_true. tauto.
Qed.

Lemma truthy_text_spec arg :
  truthy_text arg = true ↔ ∃ s, arg = Some s ∧ s ≠ EmptyString.
Proof.
  destruct arg as [[|c s]|]; simpl; split; try done; try naive_solver.
Qed.

Lemma elem_of_filter_var g n p arg v :
  v ∈ (if truthy_text arg then Some <$> labelled g n p else [None]) ↔
    if truthy_text arg then ∃ l, v = Some l ∧ associated g n p l
    else v = None.
Proof.
  destruct (truthy_text arg).
  - rewrite list_elem_of_fmap. by setoid_rewrite elem_of_labelled.
  - by rewrite list_elem_of_singleton.
Qed.

Lemma selects_spec g ingredient cuisine diet max_total_time n :
  selects g ingredient cuisine diet max_total_time n ↔
    recipe_of g n
    ∧ when_supplied ingredient (has_ingredient_like g n)
    ∧ when_supplied cuisine (has_cuisine g n)
    ∧ when_supplied diet (has_diet g n)
    ∧ (∀ bound, max_total_time = Some bound → total_time_within g n bound).
Proof.
  unfold selects. setoid_rewrite elem_of_query.
  setoid_rewrite elem_of_where_block. setoid_rewrite filter_block_spec.
  setoid_rewrite elem_of_filter_var.
  setoid_rewrite elem_of_subjects. setoid_rewrite elem_of_texts.
  unfold recipe_of, when_supplied, has_ingredient_like, has_cuisine, has_diet,
    total_time_within.
  split.
  - intros (r & ((Ht & Hl & _ & _ & Htt & _ & _ & Hi & Hc & Hd)
                 & Fi & Fc & Fd & Ft) & <-).
    split; [eauto|].
    split; [|split; [|split]].
    + intros s -> Hs.
      assert (truthy_text (Some s) = true) as E
        by (apply truthy_text_spec; eauto).
      rewrite E in Hi. destruct Hi as (l & Hv & Hl').
      apply Fi, contains_lcase_spec in E as (l' & Hv' & Hc'). simpl in Hc'.
      exists l. split; [done|]. congruence.
    + intros s -> Hs.
      assert (truthy_text (Some s) = true) as E
        by (apply truthy_text_spec; eauto).
      rewrite E in Hc. destruct Hc as (l & Hv & Hl').
      apply Fc, equals_lcase_spec in E as (l' & Hv' & Hc'). simpl in Hc'.
      exists l. split; [done|]. congruence.
    + intros s -> Hs.
      assert (truthy_text (Some s) = true) as E
        by (apply truthy_text_spec; eauto).
      rewrite E in Hd. destruct Hd as (l & Hv & Hl').
      apply Fd, equals_lcase_spec in E as (l' & Hv' & Hc'). simpl in Hc'.
      exists l. split; [done|]. congruence.
    + intros bound Hb. apply Ft, at_most_spec in Hb as (t & Hv & Hle).
      exists t. split; [|done]. rewrite Hv in Htt.
      apply elem_of_optional in Htt as [[_ ?]|(x & ? & Hx)]; [done|].
      simplify_eq. by apply elem_of_ints.
  - intros ((Ht & l0 & Hl0) & Hi & Hc & Hd & Hb).
    destruct (optional_inhabited (texts g n SCHEMA_url)) as [vurl Hurl].
    destruct (optional_inhabited (ratings g n)) as [vrat Hrat].
    destruct (optional_inhabited (labelled g n REC_hasCuisine)) as [vcl Hcl].
    destruct (optional_inhabited (labelled g n REC_hasDiet)) as [vdl Hdl].
    assert (∃ vt, vt ∈ optional (ints g n REC_hasTotalTime)
                  ∧ ∀ bound, max_total_time = Some bound →
                      Search.at_most vt bound = true) as (vt & Hvt & Fvt).
    { destruct max_total_time as [bound|].
      - destruct (Hb bound eq_refl) as (t & Hin & Hle).
        exists (Some t). split; [by apply optional_some, elem_of_ints|].
        intros ? [= <-]. apply at_most_spec. eauto.
      - destruct (optional_inhabited (ints g n REC_hasTotalTime)) as [vt ?].
        exists vt. split; [done|]. by intros. }
    assert (∃ vi, (if truthy_text ingredient
                   then ∃ l, vi = Some l ∧ associated g n REC_hasIngredient l
                   else vi = None)
                  ∧ (truthy_text ingredient = true →
                     Search.contains_lcase vi (default EmptyString ingredient)
                     = true)) as (vi & Hvi & Fvi).
    { destruct (truthy_text ingredient) eqn:E.
      - apply truthy_text_spec in E as (s & -> & Hs).
        destruct (Hi s eq_refl Hs) as (l & Hl & Hcl').
        exists (Some l). split; [eauto|]. intros _.
        apply contains_lcase_spec. eauto.
      - exists None. by split. }
    assert (∃ vc, (if truthy_text cuisine
                   then ∃ l, vc = Some l ∧ associated g n REC_hasCuisine l
                   else vc = None)
                  ∧ (truthy_text cuisine = true →
                     Search.equals_lcase vc (default EmptyString cuisine)
                     = true)) as (vc & Hvc & Fvc).
    { destruct (truthy_text cuisine) eqn:E.
      - apply truthy_text_spec in E as (s & -> & Hs).
        destruct (Hc s eq_refl Hs) as (l & Hl & Hcl').
        exists (Some l). split; [eauto|]. intros _.
        apply equals_lcase_spec. eauto.
      - exists None. by split. }
    assert (∃ vd, (if truthy_text diet
                   then ∃ l, vd = Some l ∧ associated g n REC_hasDiet l
                   else vd = None)
                  ∧ (truthy_text diet = true →
                     Search.equals_lcase vd (default EmptyString diet)
                     = true)) as (vd & Hvd & Fvd).
    { destruct (truthy_text diet) eqn:E.
      - apply truthy_text_spec in E as (s & -> & Hs).
        destruct (Hd s eq_refl Hs) as (l & Hl & Hcl').
        exists (Some l). split; [eauto|]. intros _.
        apply equals_lcase_spec. eauto.
      - exists None. by split. }
    exists {| Search.v_recipe := n; Search.v_label := l0; Search.v_url := vurl;
              Search.v_rating := vrat; Search.v_totalTime := vt;
              Search.v_cuisineLabel := vcl; Search.v_dietLabel := vdl;
              Search.v_ingredientLabel := vi;
              Search.v_cuisineLabelFilter := vc;
              Search.v_dietLabelFilter := vd |}.
    simpl. repeat split; done.
Qed.

(** ** Grouping the rows *)

Lemma update_keys k f acc : (Search.update k f acc).*1 = acc.*1.
Proof.
  unfold Search.update. rewrite <- list_fmap_compose.
  apply list_fmap_ext. intros i [k' d] _. simpl. by case_bool_decide.
Qed.

Lemma update_update k f f' acc :
  Search.update k f (Search.update k f' acc) = Search.update k (f ∘ f') acc.
Proof.
  unfold Search.update. rewrite <- list_fmap_compose.
  apply list_fmap_ext. intros i [k' d] _. simpl.
  destruct (decide (k' = k)) as [->|Hne].
  - by rewrite !(bool_decide_eq_true_2 (k = k)) by done.
  - by rewrite !(bool_decide_eq_false_2 (k' = k)) by done.
Qed.

Lemma update_id k acc : Search.update k id acc = acc.
Proof.
  unfold Search.update. rewrite <- (list_fmap_id acc) at 2.
  apply list_fmap_ext. intros i [k' d] _. simpl. by case_bool_decide.
Qed.

Lemma elem_of_update k f acc k' d' :
  (k', d') ∈ Search.update k f acc ↔
    ∃ d, (k', d) ∈ acc ∧ d' = if bool_decide (k' = k) then f d else d.
Proof.
  unfold Search.update. rewrite list_elem_of_fmap. split.
  - intros ([k0 d0] & Heq & Hin). simpl in Heq.
    case_bool_decide; simplify_eq; exists d0.
    + by rewrite bool_decide_eq_true_2.
    + by rewrite bool_decide_eq_false_2.
  - intros (d & Hin & ->). exists (k', d). split; [|done]. simpl.
    by case_bool_decide.
Qed.

Lemma group_row_alt acc r :
  Search.group_row acc r
  = Search.update (key r) (touch r)
      (if bool_decide (key r ∈ acc.*1) then acc
       else acc ++ [(key r, Search.new_data r)]).
Proof.
  unfold Search.group_row, touch. fold (key r).
  destruct (text_or_none (Search.v_cuisineLabel r)),
    (text_or_none (Search.v_dietLabel r));
    rewrite ?update_update; try done.
  by rewrite update_id.
Qed.

Lemma group_snoc rows r :
  Search.group (rows ++ [r]) = Search.group_row (Search.group rows) r.
Proof. unfold Search.group. by rewrite foldl_app. Qed.

Lemma touch_uri r d : Search.d_uri (touch r d) = Search.d_uri d.
Proof.
  unfold touch.
  by destruct (text_or_none (Search.v_cuisineLabel r)),
    (text_or_none (Search.v_dietLabel r)).
Qed.

Lemma touch_label r d : Search.d_label (touch r d) = Search.d_label d.
Proof.
  unfold touch.
  by destruct (text_or_none (Search.v_cuisineLabel r)),
    (text_or_none (Search.v_dietLabel r)).
Qed.

Lemma touch_cuisines r d l :
  l ∈ Search.d_cuisines (touch r d) ↔
    l ∈ Search.d_cuisines d ∨ text_or_none (Search.v_cuisineLabel r) = Some l.
Proof.
  unfold touch.
  destruct (text_or_none (Search.v_cuisineLabel r)),
    (text_or_none (Search.v_dietLabel r)); simpl; set_solver.
Qed.

Lemma touch_diets r d l :
  l ∈ Search.d_diets (touch r d) ↔
    l ∈ Search.d_diets d ∨ text_or_none (Search.v_dietLabel r) = Some l.
Proof.
  unfold touch.
  destruct (text_or_none (Search.v_cuisineLabel r)),
    (text_or_none (Search.v_dietLabel r)); simpl; set_solver.
Qed.

Lemma group_keys rows k :
  k ∈ (Search.group rows).*1 ↔ ∃ r, r ∈ rows ∧ key r = k.
Proof.
  induction rows as [|r rows IH] using rev_ind.
  - split; [by intros ?%elem_of_nil|]. by intros (? & ?%elem_of_nil & _).
  - rewrite group_snoc, group_row_alt, update_keys.
    setoid_rewrite elem_of_app. setoid_rewrite list_elem_of_singleton.
    case_bool_decide as Hk.
    + rewrite IH. split; [naive_solver|].
      intros (r' & [Hr'| ->] & Hkey); [eauto|].
      subst k. by apply IH.
    + rewrite fmap_app, elem_of_app, IH. simpl.
      rewrite list_elem_of_singleton. naive_solver.
Qed.

Lemma group_NoDup rows : NoDup (Search.group rows).*1.
Proof.
  induction rows as [|r rows IH] using rev_ind; [constructor|].
  rewrite group_snoc, group_row_alt, update_keys.
  case_bool_decide as Hk; [done|].
  rewrite fmap_app. apply NoDup_app. split; [done|]. split.
  - intros k Hin ->%list_elem_of_singleton. done.
  - apply NoDup_singleton.
Qed.

Lemma group_entries rows k d :
  (k, d) ∈ Search.group rows →
  Search.d_uri d = k
  ∧ (∀ l, l ∈ Search.d_cuisines d ↔
       ∃ r, r ∈ rows ∧ key r = k
            ∧ text_or_none (Search.v_cuisineLabel r) = Some l)
  ∧ (∀ l, l ∈ Search.d_diets d ↔
       ∃ r, r ∈ rows ∧ key r = k
            ∧ text_or_none (Search.v_dietLabel r) = Some l).
Proof.
  revert d. induction rows as [|r rows IH] using rev_ind; intros d.
  - by intros ?%elem_of_nil.
  - rewrite group_snoc, group_row_alt, elem_of_update.
    intros (d0 & Hin & ->).
    assert ((k, d0) ∈ Search.group rows
            ∨ ((key r ∉ (Search.group rows).*1) ∧ k = key r
               ∧ d0 = Search.new_data r)) as Hcase.
    { case_bool_decide; [by left|].
      apply elem_of_app in Hin as [?|Heq%list_elem_of_singleton]; [by left|].
      right. by simplify_eq. }
    setoid_rewrite elem_of_app. setoid_rewrite list_elem_of_singleton.
    destruct Hcase as [Hold|(Hnew & -> & ->)].
    + destruct (IH _ Hold) as (Huri & Hcu & Hdi).
      destruct (decide (k = key r)) as [Hk|Hk].
      * rewrite (bool_decide_eq_true_2 _ Hk), touch_uri. split; [done|].
        setoid_rewrite touch_cuisines. setoid_rewrite touch_diets.
        setoid_rewrite Hcu. setoid_rewrite Hdi. naive_solver.
      * rewrite (bool_decide_eq_false_2 _ Hk).
        split; [done|]. setoid_rewrite Hcu. setoid_rewrite Hdi.
        naive_solver.
    + rewrite (bool_decide_eq_true_2 (key r = key r)) by done.
      rewrite touch_uri.
      split; [done|].
      setoid_rewrite touch_cuisines. setoid_rewrite touch_diets. simpl.
      assert (∀ r', r' ∈ rows → key r' ≠ key r) as Hfresh.
      { intros r' Hr' Heq. apply Hnew, group_keys. eauto. }
      split; intros l; (split; [intros [?%not_elem_of_empty|?]; [done|eauto]|]).
      * intros (r' & [Hr'| ->] & Hk & Hl); [by apply Hfresh in Hr'|by right].
      * intros (r' & [Hr'| ->] & Hk & Hl); [by apply Hfresh in Hr'|by right].
Qed.

Lemma group_labels_sublist rows :
  ((λ kv, Search.d_label kv.2) <$> Search.group rows)
  `sublist_of` (Search.v_label <$> rows).
Proof.
  induction rows as [|r rows IH] using rev_ind; [constructor|].
  rewrite group_snoc, group_row_alt.
  assert (∀ acc, (λ kv, Search.d_label kv.2) <$> Search.update (key r) (touch r) acc
                 = (λ kv, Search.d_label kv.2) <$> acc) as ->.
  { intros acc. unfold Search.update. rewrite <- list_fmap_compose.
    apply list_fmap_ext. intros i [k' d] _. simpl.
    case_bool_decide; simpl; [apply touch_label|done]. }
  rewrite fmap_app. case_bool_decide.
  - by apply sublist_inserts_r.
  - rewrite fmap_app. by apply sublist_app.
Qed.

(** ** What [search] returns *)

Lemma in_double_quotes_returns s r : in_double_quotes s = Returns r → r = s.
Proof.
  revert r. induction s as [|c s IH]; intros r; simpl.
  - by intros [= <-].
  - repeat case_bool_decide; try done.
    destruct (in_double_quotes s) as [r'| |]; simpl; try done.
    intros [= <-]. by rewrite (IH r').
Qed.

Lemma quoted_spec arg :
  Search.quoted arg = Returns () ↔
    ∀ s, arg = Some s → s ≠ EmptyString → verbatim s.
Proof.
  unfold Search.quoted, verbatim. destruct (truthy_text arg) eqn:E.
  - apply truthy_text_spec in E as (s & -> & Hs). simpl.
    destruct (in_double_quotes s) as [r| |] eqn:Hq; simpl.
    + apply in_double_quotes_returns in Hq as Hr. subst r.
      split; [|done]. intros _ s0 Heq _. by simplify_eq.
    + split; [done|]. intros H. specialize (H s eq_refl Hs). congruence.
    + split; [done|]. intros H. specialize (H s eq_refl Hs). congruence.
  - split; [|done]. intros _ s -> Hs.
    assert (truthy_text (Some s) = true) by (apply truthy_text_spec; eauto).
    congruence.
Qed.

Lemma search_returns g ingredient cuisine diet max_total_time :
  verbatim_arg ingredient → verbatim_arg cuisine → verbatim_arg diet →
  search g ingredient cuisine diet max_total_time
  = Returns (Search.summaries
               (Search.query g ingredient cuisine diet max_total_time)).
Proof. unfold search, verbatim_arg. by intros -> -> ->. Qed.

Lemma search_returns_inv g ingredient cuisine diet max_total_time l :
  search g ingredient cuisine diet max_total_time = Returns l →
  verbatim_arg ingredient ∧ verbatim_arg cuisine ∧ verbatim_arg diet
  ∧ l = Search.summaries
          (Search.query g ingredient cuisine diet max_total_time).
Proof.
  unfold search, verbatim_arg.
  destruct (Search.quoted ingredient) as [[]| |]; simpl; try done.
  destruct (Search.quoted cuisine) as [[]| |]; simpl; try done.
  destruct (Search.quoted diet) as [[]| |]; simpl; try done.
  by intros [= <-].
Qed.

Lemma elem_of_summaries rows x :
  x ∈ Search.summaries rows ↔
    ∃ d, (uri x, d) ∈ Search.group rows ∧ x = Search.to_summary d.
Proof.
  unfold Search.summaries. rewrite list_elem_of_fmap. split.
  - intros ([k d] & -> & Hin). simpl.
    destruct (group_entries _ _ _ Hin) as (-> & _). eauto.
  - intros (d & Hin & ->). by exists (Search.d_uri d, d).
Qed.

Lemma summaries_uri rows u :
  (∃ x, x ∈ Search.summaries rows ∧ uri x = u) ↔ ∃ r, r ∈ rows ∧ key r = u.
Proof.
  rewrite <- group_keys, list_elem_of_fmap. split.
  - intros (x & (d & Hin & ->)%elem_of_summaries & <-).
    by exists (uri (Search.to_summary d), d).
  - intros ([k d] & -> & Hin). exists (Search.to_summary d).
    destruct (group_entries _ _ _ Hin) as (Hk & _). simpl in *.
    split; [|done]. apply elem_of_summaries. simpl. rewrite Hk. eauto.
Qed.

Lemma summary_cuisines rows x l :
  x ∈ Search.summaries rows →
  l ∈ cuisines x ↔
    ∃ r, r ∈ rows ∧ key r = uri x
         ∧ text_or_none (Search.v_cuisineLabel r) = Some l.
Proof.
  intros (d & Hin & ->)%elem_of_summaries. simpl in *.
  rewrite elem_of_elements.
  by destruct (group_entries _ _ _ Hin) as (_ & -> & _).
Qed.

Lemma summary_diets rows x l :
  x ∈ Search.summaries rows →
  l ∈ diets x ↔
    ∃ r, r ∈ rows ∧ key r = uri x
         ∧ text_or_none (Search.v_dietLabel r) = Some l.
Proof.
  intros (d & Hin & ->)%elem_of_summaries. simpl in *.
  rewrite elem_of_elements.
  by destruct (group_entries _ _ _ Hin) as (_ & _ & ->).
Qed.

Lemma returns_recipe_selects g ingredient cuisine diet max_total_time u :
  verbatim_arg ingredient → verbatim_arg cuisine → verbatim_arg diet →
  returns_recipe (search g ingredient cuisine diet max_total_time) u ↔
    ∃ n, node_str n = u ∧ selects g ingredient cuisine diet max_total_time n.
Proof.
  intros Hi Hc Hd. unfold returns_recipe, selects.
  rewrite search_returns by done. split.
  - intros (l & x & [= <-] & Hx & Hu).
    destruct (proj1 (summaries_uri
      (Search.query g ingredient cuisine diet max_total_time) u))
      as (r & Hr & Hk); [eauto|].
    exists (Search.v_recipe r). eauto.
  - intros (n & Hn & r & Hr & <-).
    destruct (proj2 (summaries_uri
      (Search.query g ingredient cuisine diet max_total_time) u))
      as (x & Hx & Hu); [by exists r|].
    eauto.
Qed.

Lemma StronglySorted_impl {A} (R R' : relation A) l :
  (∀ x y, R x y → R' x y) → StronglySorted R l → StronglySorted R' l.
Proof.
  intros HR. induction 1 as [|x l Hl IH Hx]; constructor; [done|].
  eapply Forall_impl; eauto.
Qed.

Lemma summaries_sorted rows :
  StronglySorted (λ a b, Search.by_lcase_label a b = true) rows →
  StronglySorted label_le (Search.summaries rows).
Proof.
  intros Hs. unfold Search.summaries.
  apply (StronglySorted_fmap _ label_le).
  apply (StronglySorted_fmap (λ kv, Search.d_label kv.2)
           (λ a b, String.le (Py.lower a) (Py.lower b))).
  eapply StronglySorted_sublist; [apply group_labels_sublist|].
  apply StronglySorted_fmap.
  eapply StronglySorted_impl; [|exact Hs].
  intros a b Hab. unfold Search.by_lcase_label in Hab. unfold String.le.
  by rewrite Hab.
Qed.

Lemma query_sorted g ingredient cuisine diet max_total_time :
  StronglySorted (λ a b, Search.by_lcase_label a b = true)
    (Search.query g ingredient cuisine diet max_total_time).
Proof.
  apply stable_sort_strongly.
  - intros a b. apply String.leb_total.
  - intros a b c Hab Hbc. unfold Search.by_lcase_label in *.
    apply Is_true_true. apply Is_true_true in Hab, Hbc.
    by etrans.
Qed.

Lemma query_set_cuisineLabel g ingredient cuisine diet max_total_time r l :
  r ∈ Search.query g ingredient cuisine diet max_total_time →
  associated g (Search.v_recipe r) REC_hasCuisine l →
  {| Search.v_recipe := Search.v_recipe r; Search.v_label := Search.v_label r;
     Search.v_url := Search.v_url r; Search.v_rating := Search.v_rating r;
     Search.v_totalTime := Search.v_totalTime r;
     Search.v_cuisineLabel := Some l;
     Search.v_dietLabel := Search.v_dietLabel r;
     Search.v_ingredientLabel := Search.v_ingredientLabel r;
     Search.v_cuisineLabelFilter := Search.v_cuisineLabelFilter r;
     Search.v_dietLabelFilter := Search.v_dietLabelFilter r |}
  ∈ Search.query g ingredient cuisine diet max_total_time.
Proof.
  rewrite !elem_of_query, !elem_of_where_block, !filter_block_spec. simpl.
  intros ((?&?&?&?&?&?&?&?&?&?) & ?) Hl. split; [|done].
  repeat split; try done. by apply optional_some, elem_of_labelled.
Qed.

Lemma query_set_dietLabel g ingredient cuisine diet max_total_time r l :
  r ∈ Search.query g ingredient cuisine diet max_total_time →
  associated g (Search.v_recipe r) REC_hasDiet l →
  {| Search.v_recipe := Search.v_recipe r; Search.v_label := Search.v_label r;
     Search.v_url := Search.v_url r; Search.v_rating := Search.v_rating r;
     Search.v_totalTime := Search.v_totalTime r;
     Search.v_cuisineLabel := Search.v_cuisineLabel r;
     Search.v_dietLabel := Some l;
     Search.v_ingredientLabel := Search.v_ingredientLabel r;
     Search.v_cuisineLabelFilter := Search.v_cuisineLabelFilter r;
     Search.v_dietLabelFilter := Search.v_dietLabelFilter r |}
  ∈ Search.query g ingredient cuisine diet max_total_time.
Proof.
  rewrite !elem_of_query, !elem_of_where_block, !filter_block_spec. simpl.
  intros ((?&?&?&?&?&?&?&?&?&?) & ?) Hl. split; [|done].
  repeat split; try done. by apply optional_some, elem_of_labelled.
Qed.

Lemma verbatim_arg_some s : s ≠ EmptyString → verbatim s → verbatim_arg (Some s).
Proof. intros Hs Hv. apply quoted_spec. by intros ? [= <-] _. Qed.

Lemma verbatim_arg_none : verbatim_arg None.
Proof. done. Qed.

Lemma when_supplied_none P : when_supplied None P ↔ True.
Proof. unfold when_supplied. naive_solver. Qed.

Lemma when_supplied_some s P :
  s ≠ EmptyString → when_supplied (Some s) P ↔ P s.
Proof. unfold when_supplied. naive_solver. Qed.

(** ** The ingredient filter *)

(** C1, as amended.  For every store and every ingredient filter text that
    is not empty and reaches the query verbatim, [search(ingredient=text)]
    returns exactly the recipes that have at least one ingredient whose
    label contains the text, letter case apart. *)
Theorem search_ingredient_filter g text :
  text ≠ EmptyString → verbatim text → ingredient_filter_exact g text.
Proof.
  intros Hne Hv u.
  rewrite returns_recipe_selects
    by auto using verbatim_arg_some, verbatim_arg_none.
  setoid_rewrite selects_spec.
  setoid_rewrite when_supplied_none.
  setoid_rewrite (when_supplied_some text _ Hne).
  naive_solver.
Qed.

Lemma search_ingredient_filter_witness :
  ingredient_filter_exact sample_store "lentil".
Proof. apply search_ingredient_filter; [done|reflexivity]. Defined.

(** C1 as it is worded fails.  An empty filter text is not a filter:
    [search(ingredient="")] returns the recipe Water, which has no
    ingredient.  A text with a line break never reaches the query: the call
    raises although a recipe has an ingredient whose label contains it. *)
Lemma search_ingredient_filter_not_exact :
  ¬ ingredient_filter_exact (build_graph [ water ]) ""
  ∧ ¬ ingredient_filter_exact odd_labels_store (String LF EmptyString).
Proof.
  split.
  - intros H.
    destruct (H "http://example.org/recipes#recipe-water") as [H1 _].
    destruct H1 as (n & Hn & _ & l & (o & Ho & _) & _).
    + eexists _, _. split; [vm_compute; reflexivity|].
      split; [apply elem_of_cons; by left|reflexivity].
    + apply elem_of_objects in Ho.
      destruct n as [iri|id]; simpl in Hn; subst;
        vm_compute in Ho; by apply elem_of_nil in Ho.
  - intros H.
    destruct (H "http://example.org/recipes#recipe-dal") as [_ H2].
    destruct H2 as (l & x & Hret & _); [|by vm_compute in Hret].
    exists (REC "recipe-dal"). split; [reflexivity|]. split.
    + split; [apply elem_of_cons; by left|].
      exists "Dal". apply elem_of_texts. vm_compute. apply elem_of_cons. by left.
    + exists ("red" +:+ String LF "lentils"). split.
      * exists (REC "ingredient-red-lentils").
        split; [apply elem_of_objects|apply elem_of_texts];
          vm_compute; apply elem_of_cons; by left.
      * by exists "red", "lentils".
Qed.

(** ** The cuisine and diet filters *)

Lemma association_filter_exact_cuisine g c :
  c ≠ EmptyString → verbatim c →
  association_filter_exact g REC_hasCuisine
    (search g None (Some c) None None) c.
Proof.
  intros Hne Hv u.
  rewrite returns_recipe_selects
    by auto using verbatim_arg_some, verbatim_arg_none.
  setoid_rewrite selects_spec.
  setoid_rewrite when_supplied_none.
  setoid_rewrite (when_supplied_some c _ Hne).
  unfold has_cuisine. naive_solver.
Qed.

Lemma association_filter_exact_diet g d :
  d ≠ EmptyString → verbatim d →
  association_filter_exact g REC_hasDiet
    (search g None None (Some d) None) d.
Proof.
  intros Hne Hv u.
  rewrite returns_recipe_selects
    by auto using verbatim_arg_some, verbatim_arg_none.
  setoid_rewrite selects_spec.
  setoid_rewrite when_supplied_none.
  setoid_rewrite (when_supplied_some d _ Hne).
  unfold has_diet. naive_solver.
Qed.

Lemma text_or_none_some l : l ≠ EmptyString → text_or_none (Some l) = Some l.
Proof. by destruct l. Qed.

Lemma displays_cuisines g c :
  c ≠ EmptyString →
  displays g REC_hasCuisine (λ l, l ≠ EmptyString) cuisines
    (search g None (Some c) None None) c.
Proof.
  intros Hne rs x n l Hret Hx Hu Hrec Hmatch Hl Hl'.
  apply search_returns_inv in Hret as (_ & _ & _ & ->).
  apply (proj2 (summary_cuisines _ _ l Hx)).
  assert (selects g None (Some c) None None n) as (r & Hr & <-).
  { apply selects_spec. rewrite !when_supplied_none.
    rewrite (when_supplied_some c _ Hne).
    split; [done|]. split; [done|]. split; [exact Hmatch|].
    split; [done|]. by intros. }
  eexists. split; [by apply query_set_cuisineLabel|].
  split; [done|]. by apply text_or_none_some.
Qed.

Lemma displays_diets g d :
  d ≠ EmptyString →
  displays g REC_hasDiet (λ l, l ≠ EmptyString) diets
    (search g None None (Some d) None) d.
Proof.
  intros Hne rs x n l Hret Hx Hu Hrec Hmatch Hl Hl'.
  apply search_returns_inv in Hret as (_ & _ & _ & ->).
  apply (proj2 (summary_diets _ _ l Hx)).
  assert (selects g None None (Some d) None n) as (r & Hr & <-).
  { apply selects_spec. rewrite !when_supplied_none.
    rewrite (when_supplied_some d _ Hne).
    split; [done|]. split; [done|]. split; [done|].
    split; [exact Hmatch|]. by intros. }
  eexists. split; [by apply query_set_dietLabel|].
  split; [done|]. by apply text_or_none_some.
Qed.

(** C2, as amended.  For every store and every filter value that is not
    empty and reaches the query verbatim, [search(cuisine=c)] returns exactly
    the recipes having a cuisine association whose label equals [c], letter
    case apart, and the [cuisines] list of each matching recipe holds every
    non-empty cuisine label associated with that recipe, not only the one
    that matched; the same holds for the diet filter and the [diets] list. *)
Theorem search_cuisine_diet_filters g c :
  c ≠ EmptyString → verbatim c →
  association_filters_claim (λ l, l ≠ EmptyString) g c.
Proof.
  intros Hne Hv. split; split;
    auto using association_filter_exact_cuisine, association_filter_exact_diet,
      displays_cuisines, displays_diets.
Qed.

Lemma search_cuisine_diet_filters_witness :
  association_filters_claim (λ l, l ≠ EmptyString) sample_store "indian".
Proof. apply search_cuisine_diet_filters; [done|reflexivity]. Defined.

(** C2 as it is worded fails.  An empty filter value is not a filter:
    [search(cuisine="")] returns the recipe Water, which has no cuisine.  A
    cuisine whose label is empty is associated with the recipe Dal and is
    missing from the [cuisines] list that [search(cuisine="Indian")]
    returns. *)
Lemma search_cuisine_diet_filters_not_as_worded :
  ¬ association_filters_claim (λ _, True) (build_graph [ water ]) ""
  ∧ ¬ association_filters_claim (λ _, True) odd_labels_store "Indian".
Proof.
  split.
  - intros [[H _] _].
    destruct (H "http://example.org/recipes#recipe-water") as [H1 _].
    destruct H1 as (n & Hn & _ & l & (o & Ho & _) & _).
    + eexists _, _. split; [vm_compute; reflexivity|].
      split; [apply elem_of_cons; by left|reflexivity].
    + apply elem_of_objects in Ho.
      destruct n as [iri|id]; simpl in Hn; subst;
        vm_compute in Ho; by apply elem_of_nil in Ho.
  - intros [[_ H] _].
    destruct (search odd_labels_store None (Some "Indian") None None)
      as [rs| |] eqn:Hs; vm_compute in Hs; [|done..].
    injection Hs as <-.
    pose proof (H _ _ (REC "recipe-dal") EmptyString eq_refl
                  (proj2 (elem_of_cons _ _ _) (or_introl eq_refl)) eq_refl)
      as Hin.
    simpl in Hin. apply list_elem_of_singleton in Hin; [done|..]; [| | |done].
    + split; [apply elem_of_cons; by left|].
      exists "Dal". apply elem_of_cons; right. apply elem_of_cons; by left.
    + exists "Indian". split; [|reflexivity].
      exists (REC "cuisine-indian").
      split; [apply elem_of_objects|apply elem_of_texts];
        vm_compute; apply elem_of_cons; by left.
    + exists (REC "cuisine-").
      split; [apply elem_of_objects|apply elem_of_texts]; vm_compute.
      * apply elem_of_cons; right. apply elem_of_cons; by left.
      * apply elem_of_cons; by left.
Qed.

(** ** Filters together *)

Lemma search_result_is_selects g ingredient cuisine diet max_total_time :
  verbatim_arg ingredient → verbatim_arg cuisine → verbatim_arg diet →
  search_result_is g ingredient cuisine diet max_total_time.
Proof.
  intros Hi Hc Hd u. rewrite returns_recipe_selects by done.
  by setoid_rewrite selects_spec.
Qed.




(** ** Order of the results *)

(** C8.  For every store and every combination of filters, the sequence
    that [search] returns is in ascending order of label, letter case apart;
    the call returns whenever its arguments reach the query verbatim, and
    what it returns is determined by the store and the arguments. *)
Theorem search_sorted_by_label g ingredient cuisine diet max_total_time :
  (verbatim_arg ingredient → verbatim_arg cuisine → verbatim_arg diet →
   ∃ l, search g ingredient cuisine diet max_total_time = Returns l)
  ∧ (∀ l, search g ingredient cuisine diet max_total_time = Returns l →
       StronglySorted label_le l
       ∧ ∀ l', search g ingredient cuisine diet max_total_time = Returns l' →
               l' = l).
Proof.
  split.
  - intros Hi Hc Hd. eexists. by apply search_returns.
  - intros l Hl. split; [|congruence].
    apply search_returns_inv in Hl as (_ & _ & _ & ->).
    apply summaries_sorted, query_sorted.
Qed.

Lemma search_sorted_by_label_witness :
  ∃ l, search sample_store None None None None = Returns l
       ∧ StronglySorted label_le l ∧ length l = 2%nat.
Proof.
  destruct (search_sorted_by_label sample_store None None None None)
    as [Hex Hsorted].
  destruct Hex as [l Hl]; [reflexivity..|].
  exists l. split; [done|]. split; [by apply Hsorted|].
  vm_compute in Hl. by simplify_eq.
Defined.

(** ** Detail lookup *)

Lemma in_angle_brackets_returns s r : in_angle_brackets s = Returns r → r = s.
Proof.
  revert r. induction s as [|c s IH]; intros r; simpl.
  - by intros [= <-].
  - destruct (iri_forbidden c); [done|]. case_bool_decide; [done|].
    destruct (in_angle_brackets s) as [r'| |]; simpl; try done.
    intros [= <-]. by rewrite (IH r').
Qed.

Lemma first_seen_elem_of l x : x ∈ first_seen l ↔ x ∈ l.
Proof.
  induction l as [|y l IH]; simpl; [done|].
  rewrite !elem_of_cons, list_elem_of_filter, IH.
  destruct (decide (x = y)); naive_solver.
Qed.

Lemma first_seen_NoDup l : NoDup (first_seen l).
Proof.
  induction l as [|y l IH]; simpl; constructor.
  - rewrite list_elem_of_filter. naive_solver.
  - by apply NoDup_filter.
Qed.

Lemma first_seen_sublist l : first_seen l `sublist_of` l.
Proof.
  induction l as [|y l IH]; simpl; [constructor|].
  constructor. etrans; [apply sublist_filter|done].
Qed.

(** The loop [if x not in l: l.append(x)] computes [first_seen]. *)
Lemma append_loop_first_seen (acc : list string) (xs : list string) :
  foldl (λ acc x, if bool_decide (x ∈ acc) then acc else acc ++ [x]) acc xs
  = acc ++ filter (λ y, y ∉ acc) (first_seen xs).
Proof.
  revert acc. induction xs as [|x xs IH]; intros acc; simpl.
  - by rewrite app_nil_r.
  - rewrite IH. case_bool_decide as Hx.
    + rewrite filter_cons_False by (intros ?; done).
      f_equal. rewrite list_filter_filter. apply list_filter_iff.
      intros y. split; [|tauto]. intros Hy. split; [done|]. congruence.
    + rewrite filter_cons_True by done.
      rewrite <- app_assoc. simpl. do 2 f_equal.
      rewrite list_filter_filter. apply list_filter_iff.
      intros y. rewrite elem_of_app, list_elem_of_singleton. tauto.
Qed.

Lemma append_new_loop {R} (var : R → option string) (rows : list R) acc :
  foldl (λ acc r, Detail.append_new (var r) acc) acc rows
  = foldl (λ acc x, if bool_decide (x ∈ acc) then acc else acc ++ [x])
      acc (encountered var rows).
Proof.
  revert acc. induction rows as [|r rows IH]; intros acc; simpl; [done|].
  rewrite IH. unfold encountered. simpl. unfold Detail.append_new.
  by destruct (text_or_none (var r)).
Qed.

Lemma filter_all {A} (P : A → Prop) `{!∀ x, Decision (P x)} (l : list A) :
  (∀ x, x ∈ l → P x) → filter P l = l.
Proof.
  induction l as [|x l IH]; intros Hall; [done|].
  rewrite filter_cons_True by (apply Hall, elem_of_cons; by left).
  f_equal. apply IH. intros y Hy. apply Hall, elem_of_cons. by right.
Qed.

Lemma append_new_first_seen {R} (var : R → option string) (rows : list R) :
  foldl (λ acc r, Detail.append_new (var r) acc) [] rows
  = first_seen (encountered var rows).
Proof.
  rewrite append_new_loop, append_loop_first_seen. simpl.
  apply filter_all. intros y _. apply not_elem_of_nil.
Qed.

Lemma collect_fields rows d :
  ingredients (foldl Detail.collect d rows)
  = foldl (λ acc r, Detail.append_new (Detail.v_ingredientLabel r) acc)
      (ingredients d) rows
  ∧ directions (foldl Detail.collect d rows)
    = foldl (λ acc r, Detail.append_new (Detail.v_direction r) acc)
        (directions d) rows
  ∧ diets (foldl Detail.collect d rows)
    = foldl (λ acc r, Detail.append_new (Detail.v_dietLabel r) acc)
        (diets d) rows
  ∧ cuisines (foldl Detail.collect d rows)
    = foldl (λ acc r, Detail.append_new (Detail.v_cuisineLabel r) acc)
        (cuisines d) rows.
Proof.
  revert d. induction rows as [|r rows IH]; intros d; simpl; [done|].
  apply IH.
Qed.

Lemma recipe_detail_returns g recipe_uri d :
  recipe_detail g recipe_uri = Returns (Some d) →
  ∃ first rows,
    Detail.query g (URIRef recipe_uri) = first :: rows
    ∧ d = foldl Detail.collect (Detail.initial recipe_uri first) (first :: rows).
Proof.
  unfold recipe_detail.
  destruct (in_angle_brackets recipe_uri) as [iri| |] eqn:Hq; simpl; try done.
  apply in_angle_brackets_returns in Hq as ->.
  destruct (Detail.query g (URIRef recipe_uri)) as [|first rows]; [done|].
  intros [= <-]. by exists first, rows.
Qed.

Lemma detail_query_inhabited g n :
  (∃ l, Text n RDFS_label l ∈ g) → Detail.query g n ≠ [].
Proof.
  intros [l Hl] Hnil.
  destruct (optional_inhabited (texts g n SCHEMA_url)) as [v1 H1].
  destruct (optional_inhabited (ratings g n)) as [v2 H2].
  destruct (optional_inhabited (ints g n REC_hasTotalTime)) as [v3 H3].
  destruct (optional_inhabited (labelled g n REC_hasIngredient)) as [v4 H4].
  destruct (optional_inhabited (labelled g n SCHEMA_step)) as [v5 H5].
  destruct (optional_inhabited (labelled g n REC_hasDiet)) as [v6 H6].
  destruct (optional_inhabited (labelled g n REC_hasCuisine)) as [v7 H7].
  apply elem_of_texts in Hl.
  assert ({| Detail.v_label := l; Detail.v_url := v1; Detail.v_rating := v2;
             Detail.v_totalTime := v3; Detail.v_ingredientLabel := v4;
             Detail.v_direction := v5; Detail.v_dietLabel := v6;
             Detail.v_cuisineLabel := v7 |} ∈ Detail.query g n) as Hin.
  { unfold Detail.query. repeat setoid_rewrite list_elem_of_bind.
    setoid_rewrite list_elem_of_singleton.
    repeat (eexists; split; [|eassumption]). done. }
  rewrite Hnil in Hin. by apply elem_of_nil in Hin.
Qed.

(** C9.  For every store and every identifier of a recipe of the store,
    [detail] returns a record, and in every record that [detail] returns the
    ingredients, directions, diets and cuisines lists hold no value twice
    and list the values in the order in which the rows of the join first
    showed them. *)
Theorem recipe_detail_lists g recipe_uri :
  (iri_verbatim recipe_uri → recipe_of g (URIRef recipe_uri) →
   ∃ d, recipe_detail g recipe_uri = Returns (Some d))
  ∧ (∀ d, recipe_detail g recipe_uri = Returns (Some d) →
       let rows := Detail.query g (URIRef recipe_uri) in
       (NoDup (ingredients d) ∧ NoDup (directions d)
        ∧ NoDup (diets d) ∧ NoDup (cuisines d))
       ∧ ingredients d = first_seen (encountered Detail.v_ingredientLabel rows)
       ∧ directions d = first_seen (encountered Detail.v_direction rows)
       ∧ diets d = first_seen (encountered Detail.v_dietLabel rows)
       ∧ cuisines d = first_seen (encountered Detail.v_cuisineLabel rows)).
Proof.
  split.
  - intros Hv [_ Hl]. unfold recipe_detail, iri_verbatim in *. rewrite Hv.
    simpl. pose proof (detail_query_inhabited g _ Hl) as Hne.
    destruct (Detail.query g (URIRef recipe_uri)); [done|eauto].
  - intros d (first & rows & Hq & ->)%recipe_detail_returns. cbv zeta.
    rewrite Hq.
    destruct (collect_fields (first :: rows)
                (Detail.initial recipe_uri first)) as (-> & -> & -> & ->).
    simpl ingredients. simpl directions. simpl diets. simpl cuisines.
    rewrite !append_new_first_seen.
    repeat split; apply first_seen_NoDup.
Qed.

Lemma recipe_detail_lists_witness :
  ∃ d, recipe_detail sample_store
         "http://example.org/recipes#recipe-lentil-soup" = Returns (Some d)
       ∧ ingredients d = [ "Lentils"; "Vegetable Stock" ]
       ∧ NoDup (directions d).
Proof.
  destruct (recipe_detail_lists sample_store
              "http://example.org/recipes#recipe-lentil-soup") as [Hex Hall].
  destruct Hex as [d Hd].
  - reflexivity.
  - split; [apply elem_of_subjects|exists "Lentil Soup"; apply elem_of_texts];
      vm_compute; apply elem_of_cons; by left.
  - exists d. split; [done|].
    destruct (Hall d Hd) as ((_ & Hdir & _) & Hing & _).
    split; [|done]. rewrite Hing. by vm_compute.
Defined.

(** ** Unknown identifiers *)

Lemma recipe_detail_not_found g recipe_uri :
  iri_verbatim recipe_uri →
  (∀ l, Text (URIRef recipe_uri) RDFS_label l ∉ g) →
  recipe_detail g recipe_uri = Returns None.
Proof.
  intros Hv Hnone. unfold recipe_detail, iri_verbatim in *. rewrite Hv. simpl.
  destruct (Detail.query g (URIRef recipe_uri)) as [|r rows] eqn:Hq; [done|].
  assert (r ∈ Detail.query g (URIRef recipe_uri)) as Hin
    by (rewrite Hq; apply elem_of_cons; by left).
  unfold Detail.query in Hin. apply list_elem_of_bind in Hin as (l & _ & Hl).
  apply elem_of_texts in Hl. by apply Hnone in Hl.
Qed.

(** C4 at an identifier that is no IRI: the store holds no fact about it and
    the lookup raises instead of returning the not-found result. *)
Theorem recipe_detail_raises_on_space g :
  recipe_detail g "no such recipe" = Raises.
Proof. reflexivity. Qed.

(** ** Keywords survive normalisation

    A keyword of [a-z0-9] occurs in a lower-cased label exactly when it
    occurs in one of its runs of [a-z0-9], and [normalise_text] keeps these
    runs: two labels with the same identifier contain the same keywords. *)

Lemma runs_cons_slug c s :
  is_slug_char c = true →
  runs (String c s) = String c (hd EmptyString (runs s)) :: tl (runs s).
Proof. intros Hc. simpl. rewrite Hc. by destruct (runs s). Qed.

Lemma runs_cons_sep c s :
  is_slug_char c = false → runs (String c s) = EmptyString :: runs s.
Proof. intros Hc. simpl. by rewrite Hc. Qed.

Lemma runs_hd_tl s : runs s = hd EmptyString (runs s) :: tl (runs s).
Proof.
  destruct s as [|c s]; [done|]. simpl.
  destruct (is_slug_char c); [|done]. by destruct (runs s).
Qed.

Lemma words_of_cons r rs :
  words_of (r :: rs) = (if Py.nonempty r then [r] else []) ++ words_of rs.
Proof.
  unfold words_of. destruct (Py.nonempty r) eqn:E.
  - by rewrite filter_cons_True.
  - rewrite filter_cons_False; [done|]. by rewrite E.
Qed.

Lemma words_hd_tl s :
  words s = (if Py.nonempty (hd EmptyString (runs s))
             then [hd EmptyString (runs s)] else []) ++ words_of (tl (runs s)).
Proof. unfold words. by rewrite (runs_hd_tl s) at 1; rewrite words_of_cons. Qed.

Lemma words_cons_sep c s : is_slug_char c = false → words (String c s) = words s.
Proof. intros Hc. unfold words. by rewrite runs_cons_sep, words_of_cons. Qed.

Lemma prefix_nil_r tok : String.prefix tok EmptyString = negb (Py.nonempty tok).
Proof. by destruct tok. Qed.

Lemma prefix_nil_l s : String.prefix EmptyString s = true.
Proof. by destruct s. Qed.

Lemma prefix_cons t tok c s :
  String.prefix (String t tok) (String c s)
  = bool_decide (t = c) && String.prefix tok s.
Proof.
  simpl. destruct (Ascii.ascii_dec t c) as [->|Hne].
  - by rewrite bool_decide_eq_true_2.
  - by rewrite bool_decide_eq_false_2.
Qed.

Lemma prefix_head_run tok s :
  all_slug tok = true →
  String.prefix tok s = String.prefix tok (hd EmptyString (runs s)).
Proof.
  revert tok. induction s as [|c s IH]; intros tok Htok; [done|].
  destruct tok as [|t tok]; [by rewrite !prefix_nil_l|].
  simpl in Htok. apply andb_true_iff in Htok as [Ht Htok].
  destruct (is_slug_char c) eqn:Hc.
  - rewrite runs_cons_slug by done. simpl hd. rewrite !prefix_cons.
    by rewrite IH.
  - rewrite runs_cons_sep by done. simpl hd. rewrite prefix_cons.
    rewrite bool_decide_eq_false_2; [done|]. congruence.
Qed.

Lemma existsb_cons {A} (f : A → bool) x l :
  existsb f (x :: l) = f x || existsb f l.
Proof. reflexivity. Qed.

Lemma contains_runs tok s :
  slug_token tok = true →
  Py.contains tok s = existsb (Py.contains tok) (runs s).
Proof.
  intros [Hne Htok]%andb_true_iff.
  induction s as [|c s IH].
  - change (runs EmptyString) with [EmptyString].
    by rewrite existsb_cons, orb_false_r.
  - rewrite contains_cons, IH, (prefix_head_run tok (String c s) Htok).
    destruct (is_slug_char c) eqn:Hc.
    + rewrite (runs_cons_slug c s Hc). cbn [hd].
      pose proof (runs_hd_tl s) as E.
      set (h := hd EmptyString (runs s)) in *. set (t := tl (runs s)) in *.
      rewrite E, !existsb_cons, contains_cons. by rewrite orb_assoc.
    + rewrite (runs_cons_sep c s Hc). cbn [hd].
      by rewrite existsb_cons, contains_nil.
Qed.

Lemma contains_words tok s :
  slug_token tok = true →
  Py.contains tok s = existsb (Py.contains tok) (words s).
Proof.
  intros Htok. rewrite contains_runs by done. unfold words.
  apply andb_true_iff in Htok as [Hne _].
  induction (runs s) as [|r rs IH]; [done|].
  rewrite words_of_cons. simpl existsb. rewrite IH.
  destruct r as [|c r]; [|done].
  simpl Py.nonempty. cbv iota. simpl app.
  by rewrite contains_nil, prefix_nil_r, Hne.
Qed.

Lemma words_of_hd_tl s s' :
  hd EmptyString (runs s) = hd EmptyString (runs s') →
  words_of (tl (runs s)) = words_of (tl (runs s')) →
  words s = words s'.
Proof. intros Hh Ht. by rewrite !words_hd_tl, Hh, Ht. Qed.

Section separators.
Context (p : ascii → bool).
Hypothesis p_sep : ∀ c, p c = true → is_slug_char c = false.

Lemma words_lstrip s : words (Py.lstrip p s) = words s.
Proof.
  induction s as [|c s IH]; [done|]. simpl.
  destruct (p c) eqn:Hp; [|done].
  by rewrite IH, words_cons_sep by auto.
Qed.

Lemma runs_rstrip s :
  hd EmptyString (runs (Py.rstrip p s)) = hd EmptyString (runs s)
  ∧ words_of (tl (runs (Py.rstrip p s))) = words_of (tl (runs s)).
Proof.
  induction s as [|c s [IHh IHt]]; [done|].
  assert (words (Py.rstrip p s) = words s) as IHw by by apply words_of_hd_tl.
  destruct (is_slug_char c) eqn:Hc.
  - assert (Py.rstrip p (String c s) = String c (Py.rstrip p s)) as ->.
    { simpl. destruct (Py.rstrip p s); [|done].
      destruct (p c) eqn:Hp; [|done]. apply p_sep in Hp. congruence. }
    rewrite !runs_cons_slug by done. simpl. by rewrite IHh, IHt.
  - rewrite (runs_cons_sep c s Hc).
    simpl Py.rstrip. destruct (Py.rstrip p s) as [|c' r] eqn:Hr.
    + assert (words s = []) as Hw by by rewrite <- IHw.
      destruct (p c).
      * split; [done|]. change (words_of [] = words s). by rewrite Hw.
      * rewrite (runs_cons_sep c EmptyString Hc). split; [done|].
        change (words EmptyString = words s). by rewrite Hw.
    + rewrite (runs_cons_sep c _ Hc). split; [done|]. exact IHw.
Qed.

Lemma words_strip_chars s : words (Py.strip_chars p s) = words s.
Proof.
  unfold Py.strip_chars. rewrite <- (words_lstrip s).
  apply words_of_hd_tl; apply runs_rstrip.
Qed.

Lemma runs_sub_runs sep s :
  is_slug_char sep = false →
  (hd EmptyString (runs (sub_runs p (String sep EmptyString) false s))
   = hd EmptyString (runs s)
   ∧ words_of (tl (runs (sub_runs p (String sep EmptyString) false s)))
     = words_of (tl (runs s)))
  ∧ words (sub_runs p (String sep EmptyString) true s) = words s.
Proof.
  intros Hsep. induction s as [|c s [[IHh IHt] IHb]]; [done|].
  assert (words (sub_runs p (String sep EmptyString) false s) = words s)
    as IHw by by apply words_of_hd_tl.
  simpl sub_runs. destruct (p c) eqn:Hp.
  - rewrite append_cons, !append_nil_l.
    rewrite (runs_cons_sep sep _ Hsep), (runs_cons_sep c s (p_sep c Hp)).
    split; [split; [done|exact IHb]|].
    by rewrite IHb, words_cons_sep by auto.
  - assert (hd EmptyString
              (runs (String c (sub_runs p (String sep EmptyString) false s)))
            = hd EmptyString (runs (String c s))
            ∧ words_of
                (tl (runs (String c
                             (sub_runs p (String sep EmptyString) false s))))
              = words_of (tl (runs (String c s)))) as [Hh Ht].
    { destruct (is_slug_char c) eqn:Hc.
      - rewrite !runs_cons_slug by done. simpl. by rewrite IHh, IHt.
      - rewrite !runs_cons_sep by done. split; [done|exact IHw]. }
    split; [done|]. by apply words_of_hd_tl.
Qed.

Lemma words_re_sub sep s :
  is_slug_char sep = false → words (re_sub p (String sep EmptyString) s) = words s.
Proof.
  intros Hsep. unfold re_sub.
  apply words_of_hd_tl; by apply runs_sub_runs.
Qed.

End separators.

Lemma is_space_sep c : Py.is_space c = true → is_slug_char c = false.
Proof.
  destruct c as [[] [] [] [] [] [] [] []]; vm_compute; congruence.
Qed.

Lemma is_hyphen_sep c : is_hyphen c = true → is_slug_char c = false.
Proof. unfold is_hyphen. by intros ->%bool_decide_eq_true. Qed.

Lemma not_slug_char_sep c : not_slug_char c = true → is_slug_char c = false.
Proof. unfold not_slug_char. by intros ->%negb_true_iff. Qed.

Lemma is_space_lower_char c : Py.is_space (Py.lower_char c) = Py.is_space c.
Proof. by destruct c as [[] [] [] [] [] [] [] []]. Qed.

Lemma lower_lstrip s :
  Py.lower (Py.lstrip Py.is_space s) = Py.lstrip Py.is_space (Py.lower s).
Proof.
  induction s as [|c s IH]; [done|]. simpl.
  rewrite is_space_lower_char. by destruct (Py.is_space c).
Qed.

Lemma lower_rstrip s :
  Py.lower (Py.rstrip Py.is_space s) = Py.rstrip Py.is_space (Py.lower s).
Proof.
  induction s as [|c s IH]; [done|]. simpl.
  rewrite <- IH, is_space_lower_char.
  destruct (Py.rstrip Py.is_space s); [|done]. by destruct (Py.is_space c).
Qed.

Lemma lower_strip s : Py.lower (Py.strip s) = Py.strip (Py.lower s).
Proof. unfold Py.strip, Py.strip_chars. by rewrite lower_rstrip, lower_lstrip. Qed.

Lemma words_normalise_text s : words (normalise_text s) = words (Py.lower s).
Proof.
  unfold normalise_text.
  rewrite (words_strip_chars _ is_hyphen_sep).
  rewrite (words_re_sub _ is_hyphen_sep) by done.
  rewrite (words_re_sub _ not_slug_char_sep) by done.
  rewrite lower_strip. apply (words_strip_chars _ is_space_sep).
Qed.

(** Two labels with the same identifier contain the same keywords. *)
Lemma keyword_invariance tok l l' :
  slug_token tok = true →
  normalise_text l = normalise_text l' →
  Py.contains tok (Py.lower l) = Py.contains tok (Py.lower l').
Proof.
  intros Htok Heq. rewrite !contains_words by done.
  by rewrite <- !words_normalise_text, Heq.
Qed.

Lemma any_in_invariance toks l l' :
  forallb slug_token toks = true →
  normalise_text l = normalise_text l' →
  Py.any_in toks (Py.lower l) = Py.any_in toks (Py.lower l').
Proof.
  intros Htoks Heq. unfold Py.any_in.
  induction toks as [|tok toks IH]; [done|].
  simpl in Htoks. apply andb_true_iff in Htoks as [Htok Htoks].
  simpl. by rewrite IH, (keyword_invariance tok l l').
Qed.

(** ** How the builder grows the graph *)

Lemma elem_of_add g t t' : t' ∈ add g t ↔ t' ∈ g ∨ t' = t.
Proof.
  unfold add. case_bool_decide as Hin.
  - split; [by left|]. by intros [?| ->].
  - by rewrite elem_of_app, list_elem_of_singleton.
Qed.

Lemma grows_refl P g : grows P g g.
Proof. exists []. by rewrite app_nil_r. Qed.

Lemma grows_trans P g1 g2 g3 : grows P g1 g2 → grows P g2 g3 → grows P g1 g3.
Proof.
  intros (e1 & -> & H1) (e2 & -> & H2). exists (e1 ++ e2).
  split; [by rewrite app_assoc|]. by apply Forall_app.
Qed.

Lemma grows_add P g t : P t → grows P g (add g t).
Proof.
  intros Ht. unfold add. case_bool_decide; [apply grows_refl|].
  exists [t]. split; [done|]. by constructor.
Qed.

Lemma grows_impl (P Q : triple → Prop) g g' :
  (∀ t, P t → Q t) → grows P g g' → grows Q g g'.
Proof.
  intros HPQ (e & -> & He). exists e. split; [done|].
  eapply Forall_impl; eauto.
Qed.

Lemma grows_elem_of P g g' t : grows P g g' → t ∈ g' → t ∈ g ∨ P t.
Proof.
  intros (e & -> & He) [?|Hin]%elem_of_app; [by left|].
  right. rewrite Forall_forall in He. by apply He.
Qed.

Lemma grows_subseteq P g g' t : grows P g g' → t ∈ g → t ∈ g'.
Proof. intros (e & -> & _) Hin. apply elem_of_app. by left. Qed.

Lemma grows_value P g g' s p v :
  grows P g g' → value g s p = Some v → value g' s p = Some v.
Proof.
  intros (e & -> & _). unfold value, texts. rewrite omap_app.
  intros Hv. destruct (omap _ g); [done|done].
Qed.

Ltac grows_tac :=
  repeat first
    [ apply grows_refl
    | eapply grows_trans; [|apply grows_add; try by constructor]
    | match goal with
      | |- grows _ _ (match ?x with _ => _ end) => destruct x eqn:?
      | |- grows _ _ (if ?x then _ else _) => destruct x eqn:?
      end ].

Lemma annotate_ingredient_node g l :
  (annotate_ingredient g l).2 = ingredient_node l.
Proof. unfold annotate_ingredient. by destruct (has g _). Qed.

Lemma add_attributes_grows g record :
  grows (fact (name record) Attributes) g (add_attributes g record).
Proof.
  unfold add_attributes, add_int. cbv zeta. grows_tac.
Qed.

Lemma annotate_ingredient_grows nm g l :
  grows (fact nm Ingredients) g (annotate_ingredient g l).1.
Proof.
  unfold annotate_ingredient. fold (ingredient_node l).
  destruct (has g _); [apply grows_refl|]. cbn [fst]. cbv zeta. grows_tac.
Qed.

Lemma add_ingredients_from nm labels g0 uris0 :
  let res := foldl (λ '(g, ingredient_uris) ingredient,
                      let '(g, ingredient_uri) :=
                        annotate_ingredient g ingredient in
                      (add g (Link (recipe_node nm) REC_hasIngredient
                                   ingredient_uri),
                       ingredient_uris ++ [ingredient_uri]))
                   (g0, uris0) labels in
  grows (fact nm Ingredients) g0 res.1
  ∧ res.2 = uris0 ++ (ingredient_node <$> labels).
Proof.
  revert g0 uris0. induction labels as [|l labels IH]; intros g0 uris0.
  - simpl. split; [apply grows_refl|by rewrite app_nil_r].
  - cbn [foldl].
    pose proof (annotate_ingredient_grows nm g0 l) as Hg.
    pose proof (annotate_ingredient_node g0 l) as Hn.
    destruct (annotate_ingredient g0 l) as [g1 u]. simpl in Hg, Hn. subst u.
    destruct (IH (add g1 (Link (recipe_node nm) REC_hasIngredient
                               (ingredient_node l)))
                 (uris0 ++ [ingredient_node l])) as [IHg IHu].
    cbv zeta in *. split.
    + eapply grows_trans; [exact Hg|].
      eapply grows_trans; [|exact IHg]. apply grows_add. constructor.
    + rewrite IHu, <- app_assoc. done.
Qed.

Lemma add_ingredients_grows nm g labels :
  grows (fact nm Ingredients) g (add_ingredients g (recipe_node nm) labels).1.
Proof. apply (add_ingredients_from nm labels g []). Qed.

Lemma add_ingredients_uris nm g labels :
  (add_ingredients g (recipe_node nm) labels).2 = ingredient_node <$> labels.
Proof. apply (add_ingredients_from nm labels g []). Qed.

Lemma infer_diets_grows nm g uris :
  grows (fact nm Diets) g (infer_diets g (recipe_node nm) uris).
Proof. unfold infer_diets. cbv zeta. grows_tac. Qed.

Lemma add_directions_from nm dirs g bnodes idx :
  grows (fact nm Directions) g
    (foldl (λ '(g, bnodes, idx) direction,
              let step_bnode := fresh_bnode bnodes in
              let g := add g (Link step_bnode RDF_type (SCHEMA "HowToStep")) in
              let g := add g (Text step_bnode RDFS_label direction) in
              let g := add g (Int step_bnode SCHEMA_position idx) in
              let g := add g (Link (recipe_node nm) SCHEMA_step step_bnode) in
              (g, S bnodes, idx + 1))
           (g, bnodes, idx) dirs).1.1.
Proof.
  revert g bnodes idx.
  induction dirs as [|d dirs IH]; intros g bnodes idx; [apply grows_refl|].
  cbn [foldl]. eapply grows_trans; [|apply IH]. grows_tac.
Qed.

Lemma add_directions_grows nm g bnodes dirs :
  grows (fact nm Directions) g
    (add_directions g bnodes (recipe_node nm) dirs).1.
Proof. apply add_directions_from. Qed.

Lemma cuisine_step_grows nm g parent c :
  (parent = None ∨ ∃ c', parent = Some (cuisine_node c')) →
  grows (fact nm CuisineChain) g (cuisine_step (g, parent) c).1.
Proof.
  unfold cuisine_step. cbv zeta. cbn [fst].
  intros [->|[c' ->]]; grows_tac.
Qed.

Lemma cuisine_step_parent st c : (cuisine_step st c).2 = Some (cuisine_node c).
Proof. by destruct st. Qed.

Lemma add_cuisine_chain_from nm segs g0 parent0 :
  (parent0 = None ∨ ∃ c', parent0 = Some (cuisine_node c')) →
  grows (fact nm CuisineChain) g0 (foldl cuisine_step (g0, parent0) segs).1.
Proof.
  revert g0 parent0. induction segs as [|c segs IH]; intros g0 parent0 Hp.
  - apply grows_refl.
  - cbn [foldl]. pose proof (cuisine_step_grows nm g0 parent0 c Hp) as Hg.
    pose proof (cuisine_step_parent (g0, parent0) c) as Hs.
    destruct (cuisine_step (g0, parent0) c) as [g1 p1]. simpl in Hg, Hs.
    eapply grows_trans; [exact Hg|]. apply IH. right. eauto.
Qed.

Lemma add_cuisine_chain_last segs st :
  (foldl cuisine_step st segs).2
  = match last segs with
    | Some c => Some (cuisine_node c)
    | None => st.2
    end.
Proof.
  revert st. induction segs as [|c segs IH]; intros st; [done|].
  cbn [foldl]. rewrite IH, cuisine_step_parent, last_cons.
  by destruct (last segs).
Qed.

Lemma add_cuisine_chain_grows nm g segs :
  grows (fact nm CuisineChain) g (add_cuisine_chain g segs).1.
Proof. apply add_cuisine_chain_from. by left. Qed.

Lemma add_cuisine_chain_leaf g segs :
  (add_cuisine_chain g segs).2 = cuisine_node <$> last segs.
Proof.
  unfold add_cuisine_chain. rewrite add_cuisine_chain_last.
  by destruct (last segs).
Qed.

Lemma add_cuisines_grows g record :
  grows (λ t, fact (name record) CuisineChain t
              ∨ fact (name record) CuisineLeaf t)
    g (add_cuisines g record).
Proof.
  unfold add_cuisines.
  destruct (text_or_none (cuisine_path record)) as [path|];
    [|apply grows_refl].
  pose proof (add_cuisine_chain_grows (name record) g (path_segments path))
    as Hg.
  pose proof (add_cuisine_chain_leaf g (path_segments path)) as Hl.
  destruct (add_cuisine_chain g (path_segments path)) as [g1 leaf].
  simpl in Hg, Hl. subst leaf.
  destruct (last (path_segments path)) as [c|]; simpl.
  - eapply grows_trans; [eapply grows_impl; [|exact Hg]; by left|].
    apply grows_add. right. constructor.
  - eapply grows_impl; [|exact Hg]. by left.
Qed.

Lemma populate_record_unfold g bnodes record :
  name record ≠ EmptyString →
  populate_record (g, bnodes) record
  = let recipe_uri := recipe_node (name record) in
    let g1 := add_attributes g record in
    let g2 := (add_ingredients g1 recipe_uri (rec_ingredients record)).1 in
    let uris := (add_ingredients g1 recipe_uri (rec_ingredients record)).2 in
    let g3 := infer_diets g2 recipe_uri uris in
    let g4 := (add_directions g3 bnodes recipe_uri (rec_directions record)).1 in
    (add_cuisines g4 record,
     (add_directions g3 bnodes recipe_uri (rec_directions record)).2).
Proof.
  intros Hname. unfold populate_record.
  destruct (name record) as [|c nm] eqn:Hn; [done|]. cbn [Py.nonempty negb].
  cbv zeta. fold (add_attributes g record) in *.
  unfold add_attributes, add_cuisines. rewrite Hn. cbv zeta.
  destruct (add_ingredients _ _ _) as [g2 uris]. cbn [fst snd].
  destruct (add_directions _ _ _ _) as [g4 b']. cbn [fst snd].
  destruct (text_or_none (cuisine_path record)); [|done].
  by destruct (add_cuisine_chain _ _) as [g5 [leaf|]].
Qed.

Lemma populate_record_grows g bnodes record :
  name record ≠ EmptyString →
  grows (λ t, ∃ ph, fact (name record) ph t) g
    (populate_record (g, bnodes) record).1.
Proof.
  intros Hname. rewrite populate_record_unfold by done. cbv zeta. cbn [fst].
  eapply grows_trans; [eapply grows_impl; [|apply add_attributes_grows]|];
    [by eauto|].
  eapply grows_trans;
    [eapply grows_impl; [|apply (add_ingredients_grows (name record))]|];
    [by eauto|].
  rewrite add_ingredients_uris.
  eapply grows_trans;
    [eapply grows_impl; [|apply (infer_diets_grows (name record))]|];
    [by eauto|].
  eapply grows_trans;
    [eapply grows_impl; [|apply (add_directions_grows (name record))]|];
    [by eauto|].
  eapply grows_impl; [|apply add_cuisines_grows].
  intros t [?|?]; eauto.
Qed.

Lemma populate_record_empty_name st record :
  name record = EmptyString → populate_record st record = st.
Proof. intros Hname. unfold populate_record. by rewrite Hname. Qed.

Lemma populate_record_subseteq g bnodes record t :
  t ∈ g → t ∈ (populate_record (g, bnodes) record).1.
Proof.
  intros Hin. destruct (decide (name record = EmptyString)) as [Hn|Hn].
  - by rewrite populate_record_empty_name.
  - by eapply grows_subseteq; [apply populate_record_grows|].
Qed.

Lemma populate_graph_subseteq records g bnodes t :
  t ∈ g → t ∈ (populate_graph (g, bnodes) records).1.
Proof.
  revert g bnodes. unfold populate_graph.
  induction records as [|r records IH]; intros g bnodes Hin; [done|].
  cbn [foldl].
  destruct (populate_record (g, bnodes) r) as [g' b'] eqn:E.
  apply IH. change g' with (g', b').1. rewrite <- E.
  by apply populate_record_subseteq.
Qed.

Lemma populate_graph_elem_of records g bnodes t :
  t ∈ (populate_graph (g, bnodes) records).1 →
  t ∈ g ∨ ∃ record ph, record ∈ records ∧ name record ≠ EmptyString
                       ∧ fact (name record) ph t.
Proof.
  revert g bnodes. unfold populate_graph.
  induction records as [|r records IH]; intros g bnodes Hin; [by left|].
  cbn [foldl] in Hin.
  destruct (populate_record (g, bnodes) r) as [g' b'] eqn:E.
  apply IH in Hin as [Hin|(record & ph & Hr & Hn & Hf)].
  - destruct (decide (name r = EmptyString)) as [Hn|Hn].
    + rewrite populate_record_empty_name in E by done. simplify_eq. by left.
    + change g' with (g', b').1 in Hin. rewrite <- E in Hin.
      destruct (grows_elem_of _ _ _ t (populate_record_grows g bnodes r Hn)
                  Hin) as [?|[ph Hf]]; [by left|].
      right. exists r, ph. split; [apply elem_of_cons; by left|done].
  - right. exists record, ph. split; [apply elem_of_cons; by right|done].
Qed.

Lemma REC_inj a b : REC a = REC b → a = b.
Proof. unfold REC. intros [= H]. exact H. Qed.

Lemma fact_recipe_type nm ph n :
  fact nm ph (Link n RDF_type (REC "Recipe")) → n = recipe_node nm.
Proof. inversion 1; try done. Qed.

Lemma schema_no_recipe n :
  Link n RDF_type (REC "Recipe") ∉ add_ontology_schema [].
Proof.
  intros H. vm_compute in H.
  repeat (apply elem_of_cons in H as [H|H]; [discriminate H|]).
  by apply elem_of_nil in H.
Qed.

Lemma add_attributes_recipe g record :
  Link (recipe_node (name record)) RDF_type (REC "Recipe")
  ∈ add_attributes g record.
Proof.
  unfold add_attributes, add_int. cbv zeta.
  destruct (servings record), (rec_total_time record), (cook_time record),
    (prep_time record), (rec_rating record), (text_or_none (rec_url record));
    rewrite !elem_of_add; auto 10.
Qed.

Lemma build_graph_recipes records n :
  Link n RDF_type (REC "Recipe") ∈ build_graph records ↔
    ∃ record, record ∈ records ∧ name record ≠ EmptyString
              ∧ n = recipe_node (name record).
Proof.
  unfold build_graph. split.
  - intros [Hin|(record & ph & Hr & Hn & Hf)]%populate_graph_elem_of.
    + by apply schema_no_recipe in Hin.
    + exists record. split; [done|]. split; [done|].
      by eapply fact_recipe_type.
  - intros (record & Hr & Hn & ->).
    apply list_elem_of_split in Hr as (pre & post & ->).
    unfold populate_graph. rewrite foldl_app. cbn [foldl].
    destruct (foldl populate_record (add_ontology_schema [], 0%nat) pre)
      as [g b].
    destruct (populate_record (g, b) record) as [g' b'] eqn:E.
    apply (populate_graph_subseteq post g' b').
    change g' with (g', b').1. rewrite <- E.
    rewrite populate_record_unfold by done. cbv zeta. cbn [fst].
    eapply grows_subseteq; [apply add_cuisines_grows|].
    eapply grows_subseteq; [apply (add_directions_grows (name record))|].
    eapply grows_subseteq; [apply (infer_diets_grows (name record))|].
    eapply grows_subseteq; [apply (add_ingredients_grows (name record))|].
    apply add_attributes_recipe.
Qed.

(** ** Records without a name *)

(** C6, as amended.  A record whose name is empty, as it is when the row has
    no name or a blank one, is dropped without an error: processing it
    leaves the store as it was.  The Recipe entities of the built store are
    exactly those of the records whose name is not empty. *)
Theorem unnamed_records_dropped :
  (∀ record, name record = EmptyString → silently_dropped record)
  ∧ (∀ rt row record,
       load_record rt row = inr record →
       row !! "recipe_name" = None
       ∨ (∃ s, row !! "recipe_name" = Some (PyStr s)
               ∧ Py.strip s = EmptyString) →
       name record = EmptyString)
  ∧ (∀ records n,
       Link n RDF_type (REC "Recipe") ∈ build_graph records ↔
       ∃ record, record ∈ records ∧ name record ≠ EmptyString
                 ∧ n = recipe_node (name record)).
Proof.
  split; [|split].
  - intros record Hname st. by apply populate_record_empty_name.
  - intros rt row record Hload Hrow. unfold load_record in Hload.
    repeat match type of Hload with
           | match ?x with _ => _ end = _ => destruct x; [done|]
           end.
    injection Hload as <-. simpl. unfold get_or.
    destruct Hrow as [->|(s & -> & Hs)]; simpl; done.
  - apply build_graph_recipes.
Qed.

Lemma unnamed_records_dropped_witness :
  silently_dropped
    {| name := ""; prep_time := None; cook_time := None;
       rec_total_time := Some 10; servings := None;
       rec_ingredients := [ "Salt" ]; rec_directions := [];
       rec_rating := None; rec_url := None; cuisine_path := None |}.
Proof. by apply (proj1 unnamed_records_dropped). Defined.

(** C6 as it is worded fails: the name of punctuation normalises to the
    empty identifier, yet the record is not dropped; its Recipe entity is in
    the built store. *)
Lemma unnamed_dropped_claim_fails :
  ¬ unnamed_dropped_claim punctuation
  ∧ Link (REC "recipe-") RDF_type (REC "Recipe") ∈ build_graph [ punctuation ].
Proof.
  split.
  - intros H. specialize (H eq_refl ([], 0%nat)). by vm_compute in H.
  - apply build_graph_recipes. exists punctuation.
    split; [apply elem_of_cons; by left|]. by split.
Qed.

(** ** Cuisine chains *)

Lemma cuisine_step_typed g parent c :
  Link (cuisine_node c) RDF_type (REC "Cuisine")
  ∈ (cuisine_step (g, parent) c).1.
Proof.
  unfold cuisine_step. cbv zeta. cbn [fst]. unfold has.
  case_bool_decide; destruct parent; rewrite ?elem_of_add; auto 10.
Qed.

Lemma cuisine_step_label g parent c :
  Link (cuisine_node c) RDF_type (REC "Cuisine") ∈ g
  ∨ Text (cuisine_node c) RDFS_label c ∈ (cuisine_step (g, parent) c).1.
Proof.
  unfold cuisine_step. cbv zeta. cbn [fst]. unfold has.
  case_bool_decide; [by left|right].
  destruct parent; rewrite ?elem_of_add; auto 10.
Qed.

Lemma cuisine_step_link g a c :
  Link (cuisine_node c) RDFS_subClassOf a
  ∈ (cuisine_step (g, Some a) c).1.
Proof.
  unfold cuisine_step. cbv zeta. cbn [fst]. apply elem_of_add. by right.
Qed.

Lemma cuisine_fold_subseteq segs g parent t :
  (parent = None ∨ ∃ c', parent = Some (cuisine_node c')) →
  t ∈ g → t ∈ (foldl cuisine_step (g, parent) segs).1.
Proof.
  intros Hp. eapply grows_subseteq.
  by apply (add_cuisine_chain_from EmptyString).
Qed.

Lemma cuisine_fold_state segs g parent :
  (parent = None ∨ ∃ c', parent = Some (cuisine_node c')) →
  (foldl cuisine_step (g, parent) segs).2 = None
  ∨ ∃ c', (foldl cuisine_step (g, parent) segs).2 = Some (cuisine_node c').
Proof.
  intros Hp. rewrite add_cuisine_chain_last.
  destruct (last segs); [right; eauto|done].
Qed.

Lemma cuisine_node_inj a b :
  cuisine_node a = cuisine_node b → normalise_text a = normalise_text b.
Proof. unfold cuisine_node, REC. intros [= H]. exact H. Qed.

Lemma cuisine_step_elem_of g parent c t :
  t ∈ (cuisine_step (g, parent) c).1 →
  t ∈ g
  ∨ t = Link (cuisine_node c) RDF_type (REC "Cuisine")
  ∨ t = Text (cuisine_node c) RDFS_label c
  ∨ ∃ a, t = Link (cuisine_node c) RDFS_subClassOf a.
Proof.
  unfold cuisine_step. cbv zeta. cbn [fst].
  destruct (has g _), parent; rewrite ?elem_of_add; naive_solver.
Qed.

Lemma cuisine_step_labelled (g0 g : graph) parent c :
  (parent = None ∨ ∃ c', parent = Some (cuisine_node c')) →
  (∀ c0, Link (cuisine_node c0) RDF_type (REC "Cuisine") ∈ g →
     Link (cuisine_node c0) RDF_type (REC "Cuisine") ∈ g0
     ∨ ∃ l, Text (cuisine_node c0) RDFS_label l ∈ g
            ∧ normalise_text l = normalise_text c0) →
  ∀ c0, Link (cuisine_node c0) RDF_type (REC "Cuisine")
        ∈ (cuisine_step (g, parent) c).1 →
     Link (cuisine_node c0) RDF_type (REC "Cuisine") ∈ g0
     ∨ ∃ l, Text (cuisine_node c0) RDFS_label l
            ∈ (cuisine_step (g, parent) c).1
            ∧ normalise_text l = normalise_text c0.
Proof.
  intros Hp HQ c0 Hin.
  assert (∀ t, t ∈ g → t ∈ (cuisine_step (g, parent) c).1) as Hmono.
  { intros t. eapply grows_subseteq.
    by apply (cuisine_step_grows EmptyString). }
  assert (Link (cuisine_node c0) RDF_type (REC "Cuisine") ∈ g
          ∨ cuisine_node c0 = cuisine_node c) as [Hold|Heq].
  { apply cuisine_step_elem_of in Hin as [?|[Heq|[Heq|[a Heq]]]];
      [by left| |discriminate..]. right. congruence. }
  - destruct (HQ c0 Hold) as [?|(l & Hl & Hn)]; [by left|].
    right. exists l. split; [by apply Hmono|done].
  - destruct (cuisine_step_label g parent c) as [Hold|Hnew].
    + rewrite <- Heq in Hold.
      destruct (HQ c0 Hold) as [?|(l & Hl & Hn)]; [by left|].
      right. exists l. split; [by apply Hmono|done].
    + right. exists c. rewrite Heq. split; [done|].
      symmetry. by apply cuisine_node_inj.
Qed.

Lemma cuisine_fold_labelled (g0 : graph) segs (g : graph) parent :
  (parent = None ∨ ∃ c', parent = Some (cuisine_node c')) →
  (∀ c0, Link (cuisine_node c0) RDF_type (REC "Cuisine") ∈ g →
     Link (cuisine_node c0) RDF_type (REC "Cuisine") ∈ g0
     ∨ ∃ l, Text (cuisine_node c0) RDFS_label l ∈ g
            ∧ normalise_text l = normalise_text c0) →
  ∀ c0, Link (cuisine_node c0) RDF_type (REC "Cuisine")
        ∈ (foldl cuisine_step (g, parent) segs).1 →
     Link (cuisine_node c0) RDF_type (REC "Cuisine") ∈ g0
     ∨ ∃ l, Text (cuisine_node c0) RDFS_label l
            ∈ (foldl cuisine_step (g, parent) segs).1
            ∧ normalise_text l = normalise_text c0.
Proof.
  revert g parent. induction segs as [|c segs IH]; intros g parent Hp HQ;
    [done|].
  cbn [foldl].
  pose proof (cuisine_step_labelled g0 g parent c Hp HQ) as HQ'.
  pose proof (cuisine_step_parent (g, parent) c) as Hs.
  destruct (cuisine_step (g, parent) c) as [g1 p1]. simpl in HQ', Hs. subst p1.
  apply IH; [right; eauto|done].
Qed.

Lemma cuisine_chain_typed g segs c :
  c ∈ segs →
  Link (cuisine_node c) RDF_type (REC "Cuisine") ∈ (add_cuisine_chain g segs).1.
Proof.
  intros (pre & post & ->)%list_elem_of_split.
  unfold add_cuisine_chain. rewrite foldl_app. cbn [foldl].
  destruct (foldl cuisine_step (g, None) pre) as [g1 p1].
  pose proof (cuisine_step_typed g1 p1 c) as Ht.
  pose proof (cuisine_step_parent (g1, p1) c) as Hp.
  destruct (cuisine_step (g1, p1) c) as [g2 p2]. simpl in Ht, Hp. subst p2.
  apply cuisine_fold_subseteq; [right; eauto|done].
Qed.

Lemma cuisine_chain_links g before a b after :
  Link (cuisine_node b) RDFS_subClassOf (cuisine_node a)
  ∈ (add_cuisine_chain g (before ++ a :: b :: after)).1.
Proof.
  unfold add_cuisine_chain. rewrite foldl_app. cbn [foldl].
  destruct (foldl cuisine_step (g, None) before) as [g1 p1].
  pose proof (cuisine_step_parent (g1, p1) a) as Hp.
  destruct (cuisine_step (g1, p1) a) as [g2 p2]. simpl in Hp. subst p2.
  pose proof (cuisine_step_link g2 (cuisine_node a) b) as Hl.
  pose proof (cuisine_step_parent (g2, Some (cuisine_node a)) b) as Hp.
  destruct (cuisine_step (g2, Some (cuisine_node a)) b) as [g3 p3].
  simpl in Hl, Hp. subst p3.
  apply cuisine_fold_subseteq; [right; eauto|done].
Qed.

Lemma populate_record_cuisines g bnodes record :
  name record ≠ EmptyString →
  (populate_record (g, bnodes) record).1
  = add_cuisines (before_cuisines g bnodes record) record.
Proof. intros Hname. by rewrite populate_record_unfold. Qed.

Lemma before_cuisines_grows g bnodes record :
  grows (λ t, ∃ ph, early ph ∧ fact (name record) ph t) g
    (before_cuisines g bnodes record).
Proof.
  unfold before_cuisines. cbv zeta.
  eapply grows_trans; [eapply grows_impl; [|apply add_attributes_grows]|];
    [intros t Ht; by exists Attributes|].
  eapply grows_trans;
    [eapply grows_impl; [|apply (add_ingredients_grows (name record))]|];
    [intros t Ht; by exists Ingredients|].
  rewrite add_ingredients_uris.
  eapply grows_trans;
    [eapply grows_impl; [|apply (infer_diets_grows (name record))]|];
    [intros t Ht; by exists Diets|].
  eapply grows_impl; [|apply (add_directions_grows (name record))].
  intros t Ht; by exists Directions.
Qed.

Lemma early_no_cuisine_link nm ph s o :
  early ph → ¬ fact nm ph (Link s REC_hasCuisine o).
Proof. intros [H1 H2] Hf. inversion Hf; by subst. Qed.

Lemma early_no_cuisine_type nm ph s :
  early ph → ¬ fact nm ph (Link s RDF_type (REC "Cuisine")).
Proof. intros [H1 H2] Hf. inversion Hf; by subst. Qed.

Lemma add_cuisines_elem_of g record path t :
  text_or_none (cuisine_path record) = Some path →
  t ∈ add_cuisines g record ↔
    t ∈ (add_cuisine_chain g (path_segments path)).1
    ∨ ∃ c, last (path_segments path) = Some c
           ∧ t = Link (recipe_node (name record)) REC_hasCuisine
                   (cuisine_node c).
Proof.
  intros Hpath. unfold add_cuisines. rewrite Hpath.
  pose proof (add_cuisine_chain_leaf g (path_segments path)) as Hl.
  destruct (add_cuisine_chain g (path_segments path)) as [g1 leaf].
  simpl in *. subst leaf.
  destruct (last (path_segments path)) as [c|]; simpl.
  - rewrite elem_of_add. naive_solver.
  - naive_solver.
Qed.

(** ** The cuisine path of a record *)

Lemma lstrip_head p s c rest : Py.lstrip p s = String c rest → p c = false.
Proof.
  induction s as [|c0 s IH]; [done|]. cbn [Py.lstrip].
  destruct (p c0) eqn:Hp; [done|]. by intros [= <- _].
Qed.

Lemma rstrip_head p c s c' rest :
  Py.rstrip p (String c s) = String c' rest → c' = c.
Proof.
  cbn [Py.rstrip]. destruct (Py.rstrip p s); [|by intros [= <- _]].
  destruct (p c); [done|]. by intros [= <- _].
Qed.

Lemma append_singleton_inv front ch c s :
  front +:+ String ch EmptyString = String c s →
  (front = EmptyString ∧ ch = c ∧ s = EmptyString)
  ∨ ∃ front', front = String c front' ∧ s = front' +:+ String ch EmptyString.
Proof.
  destruct front as [|c1 front].
  - rewrite append_nil_l. intros [= -> <-]. by left.
  - rewrite append_cons. intros [= -> <-]. right. by eexists.
Qed.

Lemma rstrip_last p s front ch :
  Py.rstrip p s = front +:+ String ch EmptyString → p ch = false.
Proof.
  revert front. induction s as [|c s IH]; intros front.
  { cbn. by destruct front. }
  cbn [Py.rstrip]. destruct (Py.rstrip p s) as [|c1 r] eqn:Hr.
  - destruct (p c) eqn:Hp; [by destruct front|].
    intros Heq. symmetry in Heq.
    apply append_singleton_inv in Heq as [(_ & -> & _)|(f & _ & Hf)]; [done|].
    by destruct f.
  - intros Heq. symmetry in Heq.
    apply append_singleton_inv in Heq as [(_ & _ & [=])|(f & _ & Hf)].
    by apply (IH f).
Qed.

Lemma lstrip_chars p s c :
  c ∈ list_ascii_of_string (Py.lstrip p s) → c ∈ list_ascii_of_string s.
Proof.
  induction s as [|c0 s IH]; [done|]. cbn [Py.lstrip list_ascii_of_string].
  destruct (p c0); [|done]. intros Hin. apply elem_of_cons. right. by apply IH.
Qed.

Lemma rstrip_chars p s c :
  c ∈ list_ascii_of_string (Py.rstrip p s) → c ∈ list_ascii_of_string s.
Proof.
  induction s as [|c0 s IH]; [done|]. cbn [Py.rstrip list_ascii_of_string].
  destruct (Py.rstrip p s) as [|c1 r].
  - destruct (p c0); [by intros ?%elem_of_nil|].
    cbn [list_ascii_of_string]. intros [->|?%elem_of_nil]%elem_of_cons; [|done].
    apply elem_of_cons. by left.
  - change (list_ascii_of_string (String c0 (String c1 r)))
      with (c0 :: list_ascii_of_string (String c1 r)).
    intros [->|Hin]%elem_of_cons; apply elem_of_cons; [by left|].
    right. by apply IH.
Qed.

Lemma split_chars sep s piece :
  piece ∈ Py.split sep s → sep ∉ list_ascii_of_string piece.
Proof.
  revert piece. induction s as [|c s IH]; intros piece.
  { cbn. intros ->%list_elem_of_singleton. apply not_elem_of_nil. }
  cbn [Py.split]. case_bool_decide as Hc.
  - intros [->|Hin]%elem_of_cons; [apply not_elem_of_nil|by apply IH].
  - destruct (Py.split sep s) as [|first pieces] eqn:Hs.
    + intros ->%list_elem_of_singleton. cbn.
      intros [->|?%elem_of_nil]%elem_of_cons; done.
    + intros [->|Hin]%elem_of_cons.
      * cbn [list_ascii_of_string]. intros [->|Hin]%elem_of_cons; [done|].
        eapply IH; [|exact Hin]. apply elem_of_cons. by left.
      * apply IH. apply elem_of_cons. by right.
Qed.

Lemma elem_of_path_segments path c :
  c ∈ path_segments path ↔
    c ≠ EmptyString
    ∧ ∃ piece, piece ∈ Py.split (ascii_of_N 62) path ∧ c = Py.strip piece.
Proof.
  unfold path_segments. rewrite list_elem_of_filter, list_elem_of_fmap.
  split.
  - intros [Hne (piece & -> & Hin)]. split; [|by eauto].
    intros Heq. by rewrite Heq in Hne.
  - intros [Hne (piece & Hin & ->)]. split; [|by eauto].
    by destruct (Py.strip piece).
Qed.

(** The segments of a path are trimmed, are not empty and hold no
    delimiter. *)
Lemma path_segments_trimmed path c :
  c ∈ path_segments path →
  c ≠ EmptyString
  ∧ (∀ ch rest, c = String ch rest → Py.is_space ch = false)
  ∧ (∀ front ch, c = front +:+ String ch EmptyString → Py.is_space ch = false)
  ∧ ascii_of_N 62 ∉ list_ascii_of_string c.
Proof.
  intros (Hne & piece & Hpiece & ->)%elem_of_path_segments.
  split; [done|]. unfold Py.strip, Py.strip_chars in *. split; [|split].
  - intros ch rest Heq.
    destruct (Py.lstrip Py.is_space piece) as [|c0 t] eqn:Hl; [done|].
    apply rstrip_head in Heq as ->. by eapply lstrip_head.
  - intros front ch Heq. by eapply rstrip_last.
  - intros Hin%rstrip_chars%lstrip_chars. by eapply split_chars.
Qed.

(** C7.  The segments of a cuisine path are the pieces between its
    delimiters, trimmed, the empty ones left out.  For every record with a
    name and a cuisine path, processing the record leaves one Cuisine node
    per segment, found by its normalised label and either already in the
    store or created with a label, links each node to the node of the
    segment before it, and adds one [hasCuisine] fact for the recipe, to the
    node of the last segment; for the record named Lentil Soup with the
    path Asian>Indian, and with the same path written with spaces and empty
    segments, the only [hasCuisine] object of the recipe is the node of
    Indian. *)
Theorem cuisine_chain_attached :
  (∀ path c,
     c ∈ path_segments path ↔
       c ≠ EmptyString
       ∧ ∃ piece, piece ∈ Py.split (ascii_of_N 62) path ∧ c = Py.strip piece)
  ∧ (∀ path c,
       c ∈ path_segments path →
       c ≠ EmptyString
       ∧ (∀ ch rest, c = String ch rest → Py.is_space ch = false)
       ∧ (∀ front ch,
            c = front +:+ String ch EmptyString → Py.is_space ch = false)
       ∧ ascii_of_N 62 ∉ list_ascii_of_string c)
  ∧ path_segments " Asian > > Indian >" = [ "Asian"; "Indian" ]
  ∧ (∀ g bnodes record path,
       name record ≠ EmptyString →
       cuisine_path record = Some path → path ≠ EmptyString →
       cuisine_chain_claim g (populate_record (g, bnodes) record).1 record
         (path_segments path))
  ∧ objects (build_graph [ lentil_soup_with_path ])
      (recipe_node "Lentil Soup") REC_hasCuisine
    = [ cuisine_node "Indian" ]
  ∧ objects (build_graph [ lentil_soup_spaced_path ])
      (recipe_node "Lentil Soup") REC_hasCuisine
    = [ cuisine_node "Indian" ]
  ∧ subjects (build_graph [ lentil_soup_spaced_path ]) RDF_type (REC "Cuisine")
    = [ cuisine_node "Asian"; cuisine_node "Indian" ].
Proof.
  split; [apply elem_of_path_segments|].
  split; [apply path_segments_trimmed|].
  split; [by vm_compute|].
  split; [|split; [by vm_compute|split; by vm_compute]].
  intros g bnodes record path Hname Hcp Hne.
  assert (text_or_none (cuisine_path record) = Some path) as Hpath
    by (rewrite Hcp; by apply text_or_none_some).
  rewrite populate_record_cuisines by done.
  pose proof (before_cuisines_grows g bnodes record) as Hbefore.
  set (g4 := before_cuisines g bnodes record) in *.
  pose proof (add_cuisine_chain_grows (name record) g4 (path_segments path))
    as Hchain.
  split; [|split].
  - intros c Hc. split.
    + apply (add_cuisines_elem_of _ _ _ _ Hpath). left.
      by apply cuisine_chain_typed.
    + destruct (cuisine_fold_labelled g4 (path_segments path) g4 None
                  (or_introl eq_refl) (λ c0 H, or_introl H) c
                  (cuisine_chain_typed g4 _ c Hc)) as [Hold|(l & Hl & Hn)].
      * destruct (grows_elem_of _ _ _ _ Hbefore Hold)
          as [?|(ph & Hph & Hf)]; [by left|].
        by apply early_no_cuisine_type in Hf.
      * right. exists l. split; [|done].
        apply (add_cuisines_elem_of _ _ _ _ Hpath). by left.
  - intros before a b after Hsegs.
    apply (add_cuisines_elem_of _ _ _ _ Hpath). left. rewrite Hsegs.
    apply cuisine_chain_links.
  - intros o. rewrite (add_cuisines_elem_of _ _ _ _ Hpath). split.
    + intros [Hin|(c & Hlast & Heq)].
      * destruct (grows_elem_of _ _ _ _ Hchain Hin) as [Hin4|Hf];
          [|by inversion Hf].
        destruct (grows_elem_of _ _ _ _ Hbefore Hin4)
          as [?|(ph & Hph & Hf)]; [by left|].
        by apply early_no_cuisine_link in Hf.
      * right. rewrite Hlast. simpl. congruence.
    + intros [Hin|Hlast].
      * left. eapply grows_subseteq; [exact Hchain|].
        by eapply grows_subseteq.
      * right. destruct (last (path_segments path)) as [c|]; [|done].
        exists c. split; [done|]. simpl in Hlast. congruence.
Qed.

Lemma cuisine_chain_attached_witness :
  cuisine_chain_claim (add_ontology_schema [])
    (populate_record (add_ontology_schema [], 0%nat) lentil_soup_spaced_path).1
    lentil_soup_spaced_path [ "Asian"; "Indian" ].
Proof.
  by apply (proj1 (proj2 (proj2 (proj2 cuisine_chain_attached))) _ _
              lentil_soup_spaced_path " Asian > > Indian >").
Defined.

(** ** Integer fields *)

Lemma truncate_toward_zero s m e :
  truncate (S754_finite s m e) = inr (toward_zero s m e).
Proof.
  unfold truncate, toward_zero. f_equal.
  destruct (Z.leb_spec 0 e) as [He|He].
  - rewrite Z.shiftl_mul_pow2 by done. destruct s; [|done].
    by rewrite <- Z.mul_opp_l.
  - rewrite Z.shiftl_div_pow2 by lia.
    assert (0 < 2 ^ (- e)) as Hpow by (apply Z.pow_pos_nonneg; lia).
    destruct s.
    + change (Z.neg m) with (- Z.pos m).
      rewrite Z.quot_opp_l by lia. f_equal.
      symmetry. apply Z.quot_div_nonneg; lia.
    + symmetry. apply Z.quot_div_nonneg; lia.
Qed.

Lemma to_optional_int_absent value :
  to_optional_int value = inr None ↔
    none_or_nan value = true
    ∨ int_of value = inl TypeError ∨ int_of value = inl ValueError.
Proof.
  unfold to_optional_int. destruct (none_or_nan value) eqn:E.
  - split; auto.
  - destruct (int_of value) as [[]|z]; split; try done; try auto;
      intros [?|[?|?]]; done.
Qed.

Lemma add_int_elem_of g s p v t :
  t ∈ add_int g s p v ↔ t ∈ g ∨ ∃ z, v = Some z ∧ t = Int s p z.
Proof.
  unfold add_int. destruct v as [z|].
  - rewrite elem_of_add. naive_solver.
  - naive_solver.
Qed.


Lemma populate_record_attributes g bnodes record t :
  name record ≠ EmptyString →
  t ∈ add_attributes g record → t ∈ (populate_record (g, bnodes) record).1.
Proof.
  intros Hname Hin. rewrite populate_record_unfold by done. cbv zeta. cbn [fst].
  eapply grows_subseteq; [apply add_cuisines_grows|].
  eapply grows_subseteq; [apply (add_directions_grows (name record))|].
  eapply grows_subseteq; [apply (infer_diets_grows (name record))|].
  by eapply grows_subseteq; [apply (add_ingredients_grows (name record))|].
Qed.

Lemma load_record_ints rt row record :
  load_record rt row = inr record →
  to_optional_int (get row "prep_time") = inr (prep_time record)
  ∧ to_optional_int (get row "cook_time") = inr (cook_time record)
  ∧ to_optional_int (get row "total_time") = inr (rec_total_time record)
  ∧ to_optional_int (get row "servings") = inr (servings record).
Proof.
  unfold load_record. intros Hload.
  repeat match type of Hload with
         | match ?x with _ => _ end = _ => destruct x; [done|]
         end.
  by injection Hload as <-.
Qed.

Lemma load_record_field rt row record key p field :
  (key, p, field) ∈ INT_FIELDS →
  load_record rt row = inr record →
  to_optional_int (default PyNone (row !! key)) = inr (field record).
Proof.
  intros Hkey Hload.
  destruct (load_record_ints rt row record Hload) as (H1 & H2 & H3 & H4).
  unfold INT_FIELDS in Hkey. unfold get in *.
  repeat (apply elem_of_cons in Hkey as [[= -> -> ->]|Hkey]; [done|]).
  by apply elem_of_nil in Hkey.
Qed.

Lemma add_int_elem_of_int g s p v s' p' z :
  Int s' p' z ∈ add_int g s p v ↔
    Int s' p' z ∈ g ∨ (s' = s ∧ p' = p ∧ v = Some z).
Proof.
  rewrite add_int_elem_of. split.
  - intros [?|(z0 & -> & [= -> -> ->])]; auto.
  - intros [?|(-> & -> & ->)]; eauto.
Qed.

Lemma add_attributes_int g record s p z :
  Int s p z ∈ add_attributes g record ↔
    Int s p z ∈ g
    ∨ (s = recipe_node (name record)
       ∧ ((p = REC_hasPrepTime ∧ prep_time record = Some z)
          ∨ (p = REC_hasCookTime ∧ cook_time record = Some z)
          ∨ (p = REC_hasTotalTime ∧ rec_total_time record = Some z)
          ∨ (p = REC_hasServings ∧ servings record = Some z))).
Proof.
  unfold add_attributes. cbv zeta. rewrite !add_int_elem_of_int.
  assert (∀ g0 : graph,
            Int s p z
            ∈ match rec_rating record with
              | Some r => add g0 (Rating (recipe_node (name record)) r)
              | None => g0
              end ↔ Int s p z ∈ g0) as Hrating.
  { intros g0. destruct (rec_rating record); [|done].
    rewrite elem_of_add. split; [by intros [?|?]|by left]. }
  assert (∀ g0 : graph,
            Int s p z
            ∈ match text_or_none (rec_url record) with
              | Some u => add g0 (Text (recipe_node (name record)) SCHEMA_url u)
              | None => g0
              end ↔ Int s p z ∈ g0) as Hurl.
  { intros g0. destruct (text_or_none (rec_url record)); [|done].
    rewrite elem_of_add. split; [by intros [?|?]|by left]. }
  rewrite Hrating, Hurl, !elem_of_add.
  split.
  - intros [[[[[[?|?]|?]|?]|?]|?]|?]; try done; try tauto.
  - intros [?|(-> & [?|[?|[?|?]]])]; tauto.
Qed.

Lemma populate_record_int g bnodes record s p z :
  name record ≠ EmptyString →
  p ≠ SCHEMA_position →
  Int s p z ∈ (populate_record (g, bnodes) record).1 ↔
    Int s p z ∈ add_attributes g record.
Proof.
  intros Hname Hp. split; [|by apply populate_record_attributes].
  rewrite populate_record_unfold by done. cbv zeta. cbn [fst].
  intros Hin.
  destruct (grows_elem_of _ _ _ _ (add_cuisines_grows _ record) Hin)
    as [Hin4|[Hf|Hf]]; [|by inversion Hf..].
  destruct (grows_elem_of _ _ _ _
              (add_directions_grows (name record) _ _ _) Hin4)
    as [Hin3|Hf]; [|inversion Hf; by subst].
  destruct (grows_elem_of _ _ _ _ (infer_diets_grows (name record) _ _) Hin3)
    as [Hin2|Hf]; [|by inversion Hf].
  destruct (grows_elem_of _ _ _ _
              (add_ingredients_grows (name record) _ _) Hin2)
    as [?|Hf]; [done|by inversion Hf].
Qed.

Lemma populate_record_field g bnodes record key p field z :
  (key, p, field) ∈ INT_FIELDS →
  name record ≠ EmptyString →
  Int (recipe_node (name record)) p z ∈ (populate_record (g, bnodes) record).1 ↔
    Int (recipe_node (name record)) p z ∈ g ∨ field record = Some z.
Proof.
  intros Hkey Hname. unfold INT_FIELDS in Hkey.
  repeat (apply elem_of_cons in Hkey as [[= -> -> ->]|Hkey];
          [rewrite populate_record_int, add_attributes_int by done;
           split; [intros [?|(_ & [[? ?]|[[? ?]|[[? ?]|[? ?]]]])]; by auto
                  |intros [?|?]; [by left|right; split; [done|tauto]]]|]).
  by apply elem_of_nil in Hkey.
Qed.

Lemma to_optional_int_finite s m e :
  to_optional_int (PyFloat (S754_finite s m e))
  = inr (Some (toward_zero s m e)).
Proof.
  unfold to_optional_int. cbn [none_or_nan int_of].
  by rewrite truncate_toward_zero.
Qed.

(** C10.  A time or servings field of a raw row that holds a finite float
    is ingested as the integer obtained by rounding toward zero, 90.5 as
    90, and is attached to the recipe of the record; the field of the
    record is what [to_optional_int] makes of the value under the key, None
    when the key is missing, and is absent exactly when the value is None or
    NaN or when its conversion to an integer raises a type or value error,
    as the text 90.5 does; the recipe gets the attribute exactly when the
    field is present. *)
Theorem fractional_fields_truncated :
  (∀ s m e,
     to_optional_int (PyFloat (S754_finite s m e))
     = inr (Some (toward_zero s m e)))
  ∧ to_optional_int (PyFloat ninety_and_a_half) = inr (Some 90)
  ∧ (∀ value,
       to_optional_int value = inr None ↔
       none_or_nan value = true
       ∨ int_of value = inl TypeError ∨ int_of value = inl ValueError)
  ∧ to_optional_int (PyStr "90.5") = inr None
  ∧ (∀ rt row record key p field,
       (key, p, field) ∈ INT_FIELDS →
       load_record rt row = inr record →
       to_optional_int (default PyNone (row !! key)) = inr (field record))
  ∧ (∀ g bnodes record key p field z,
       (key, p, field) ∈ INT_FIELDS →
       name record ≠ EmptyString →
       Int (recipe_node (name record)) p z
       ∈ (populate_record (g, bnodes) record).1 ↔
         Int (recipe_node (name record)) p z ∈ g ∨ field record = Some z)
  ∧ (∀ rt row record key p field s m e g bnodes,
       (key, p, field) ∈ INT_FIELDS →
       row !! key = Some (PyFloat (S754_finite s m e)) →
       load_record rt row = inr record →
       name record ≠ EmptyString →
       Int (recipe_node (name record)) p (toward_zero s m e)
       ∈ (populate_record (g, bnodes) record).1)
  ∧ (∃ record,
       load_record plain_runtime stew_row = inr record
       ∧ ints (populate_record ([], 0%nat) record).1 (recipe_node "Stew")
           REC_hasTotalTime = [ 90 ])
  ∧ (∃ record,
       load_record plain_runtime stew_row_text = inr record
       ∧ ints (populate_record ([], 0%nat) record).1 (recipe_node "Stew")
           REC_hasTotalTime = []).
Proof.
  split; [apply to_optional_int_finite|].
  split; [reflexivity|].
  split; [apply to_optional_int_absent|].
  split; [reflexivity|].
  split; [apply load_record_field|].
  split; [apply populate_record_field|].
  split; [|split; (eexists; split; [vm_compute; reflexivity|by vm_compute])].
  intros rt row record key p field s m e g bnodes Hkey Hrow Hload Hname.
  apply (populate_record_field g bnodes record key p field _ Hkey Hname).
  right. pose proof (load_record_field rt row record key p field Hkey Hload)
    as Hfield.
  rewrite Hrow in Hfield. cbn [from_option id] in Hfield.
  rewrite to_optional_int_finite in Hfield. congruence.
Qed.

Lemma fractional_fields_truncated_witness :
  ∃ record,
    load_record plain_runtime stew_row = inr record
    ∧ Int (recipe_node (name record)) REC_hasTotalTime
        (toward_zero false 6368371348078592 (-46))
      ∈ (populate_record ([], 0%nat) record).1.
Proof.
  eexists. split; [vm_compute; reflexivity|].
  apply (proj1 (proj2 (proj2 (proj2 (proj2 (proj2 (proj2
           fractional_fields_truncated))))))
           plain_runtime stew_row _ "total_time" REC_hasTotalTime
           rec_total_time false 6368371348078592%positive (-46) [] 0%nat).
  - apply elem_of_cons; right. apply elem_of_cons; right.
    apply elem_of_cons; by left.
  - by vm_compute.
  - vm_compute. reflexivity.
  - by vm_compute.
Defined.


(** ** Ingredient markers *)

Lemma ingredient_node_inj a b :
  ingredient_node a = ingredient_node b → normalise_text a = normalise_text b.
Proof. unfold ingredient_node, REC. intros [= H]. exact H. Qed.

Lemma keywords_are_slugs :
  forallb slug_token ANIMAL_PRODUCTS = true
  ∧ forallb slug_token GLUTEN_GRAINS = true
  ∧ forallb slug_token MEATS = true.
Proof. by vm_compute. Qed.

Lemma animal_invariance a b :
  ingredient_node a = ingredient_node b →
  Py.any_in ANIMAL_PRODUCTS (Py.lower a) = Py.any_in ANIMAL_PRODUCTS (Py.lower b).
Proof.
  intros H%ingredient_node_inj.
  by apply any_in_invariance; [apply keywords_are_slugs|].
Qed.

Lemma gluten_invariance a b :
  ingredient_node a = ingredient_node b →
  Py.any_in GLUTEN_GRAINS (Py.lower a) = Py.any_in GLUTEN_GRAINS (Py.lower b).
Proof.
  intros H%ingredient_node_inj.
  by apply any_in_invariance; [apply keywords_are_slugs|].
Qed.

Lemma fact_ingredient_free nm ph t :
  fact nm ph t →
  ph ≠ Ingredients ∨ (∃ l, t = Link (recipe_node nm) REC_hasIngredient
                                 (ingredient_node l)) →
  ingredient_free t.
Proof.
  intros Hf Hph.
  destruct Hf; simpl;
    try (destruct Hph as [?|[? ?]]; done);
    try done;
    try (repeat split; intros H%REC_inj; discriminate H);
    try (repeat split; intros H; discriminate H).
  destruct p; [|done]. intros l H%REC_inj. discriminate H.
Qed.

Lemma coherent_grows_free g g' :
  coherent g → grows ingredient_free g g' → coherent g'.
Proof.
  intros [Ha Hg Hl Ht] Hgrows.
  assert (∀ t, t ∈ g' → ¬ ingredient_free t → t ∈ g) as Hold.
  { intros t Hin Hnf.
    by destruct (grows_elem_of _ _ _ _ Hgrows Hin). }
  assert (∀ t, t ∈ g → t ∈ g') as Hmono
    by (intros t; by eapply grows_subseteq).
  split.
  - intros l Hin Hk. apply Hmono, Ha; [|done].
    apply Hold; [done|]. simpl. by intros (? & _).
  - intros u Hin. apply Hg, Hold; [done|]. simpl. by intros (_ & _ & ?).
  - intros l Hin. destruct (Hl l) as (l' & Hv & Hn).
    + apply Hold; [done|]. simpl. by intros (? & _).
    + exists l'. split; [|done]. by eapply grows_value.
  - intros l l' Hin. apply Hmono, (Ht l l'), Hold; [done|].
    simpl. intros H. by apply (H l).
Qed.

Lemma annotate_ingredient_elem_of g l t :
  t ∈ (annotate_ingredient g l).1 ↔
    t ∈ g
    ∨ ((Link (ingredient_node l) RDF_type (REC "Ingredient") ∉ g)
       ∧ (t = Link (ingredient_node l) RDF_type (REC "Ingredient")
          ∨ t = Text (ingredient_node l) RDFS_label l
          ∨ (Py.any_in ANIMAL_PRODUCTS (Py.lower l) = true
             ∧ t = Link (ingredient_node l) RDF_type (REC "AnimalProduct"))
          ∨ (Py.any_in GLUTEN_GRAINS (Py.lower l) = true
             ∧ t = Link (ingredient_node l) RDF_type
                     (REC "GlutenIngredient")))).
Proof.
  unfold annotate_ingredient, has. fold (ingredient_node l).
  case_bool_decide as Hin; cbn [fst].
  - naive_solver.
  - destruct (Py.any_in ANIMAL_PRODUCTS _), (Py.any_in GLUTEN_GRAINS _);
      rewrite ?elem_of_add; naive_solver.
Qed.

Lemma texts_nil g s p : (∀ v, Text s p v ∉ g) → texts g s p = [].
Proof.
  intros Hnone. apply elem_of_nil_inv. intros v Hv.
  apply elem_of_texts in Hv. by apply Hnone in Hv.
Qed.

Lemma value_add_new g s p v :
  (∀ v', Text s p v' ∉ g) → value (add g (Text s p v)) s p = Some v.
Proof.
  intros Hnone. unfold add. rewrite bool_decide_eq_false_2 by apply Hnone.
  unfold value, texts. rewrite omap_app. fold (texts g s p).
  rewrite (texts_nil g s p Hnone). simpl.
  by rewrite bool_decide_eq_true_2.
Qed.

Lemma annotate_ingredient_value g l :
  (∀ v, Text (ingredient_node l) RDFS_label v ∉ g) →
  Link (ingredient_node l) RDF_type (REC "Ingredient") ∉ g →
  value (annotate_ingredient g l).1 (ingredient_node l) RDFS_label = Some l.
Proof.
  intros Hnone Hnew. unfold annotate_ingredient, has.
  fold (ingredient_node l).
  rewrite bool_decide_eq_false_2 by done. cbn [fst]. cbv zeta.
  eapply (grows_value (λ _, True)).
  - eapply grows_trans.
    + instantiate (1 := add (add g (Link (ingredient_node l) RDF_type
                                       (REC "Ingredient")))
                            (Text (ingredient_node l) RDFS_label l)).
      apply grows_refl.
    + destruct (Py.any_in ANIMAL_PRODUCTS _), (Py.any_in GLUTEN_GRAINS _);
        repeat first [ apply grows_refl
                     | eapply grows_trans; [|by apply grows_add] ].
  - apply value_add_new. intros v' [Hin|Heq]%elem_of_add; [|done].
    by apply Hnone in Hin.
Qed.

Lemma coherent_annotate g l :
  coherent g → coherent (annotate_ingredient g l).1.
Proof.
  intros [Ha Hg Hl Ht].
  pose proof (annotate_ingredient_grows EmptyString g l) as Hgrows.
  assert (∀ t, t ∈ g → t ∈ (annotate_ingredient g l).1) as Hmono
    by (intros t; by eapply grows_subseteq).
  destruct (decide (Link (ingredient_node l) RDF_type (REC "Ingredient") ∈ g))
    as [Hold|Hnew].
  { assert ((annotate_ingredient g l).1 = g) as ->; [|done].
    unfold annotate_ingredient, has. fold (ingredient_node l).
    by rewrite bool_decide_eq_true_2. }
  split.
  - intros l0 Hin Hk.
    apply annotate_ingredient_elem_of in Hin
      as [Hin|(_ & [Heq|[Heq|[[_ Heq]|[_ Heq]]]])]; try discriminate Heq.
    + by apply Hmono, Ha.
    + assert (ingredient_node l0 = ingredient_node l) as Hn by congruence.
      rewrite Hn. apply annotate_ingredient_elem_of. right. split; [done|].
      right. right. left. split; [|done]. by rewrite <- (animal_invariance _ _ Hn).
  - intros u Hin.
    apply annotate_ingredient_elem_of in Hin
      as [Hin|(_ & [Heq|[Heq|[[Hk Heq]|[Hk Heq]]]])]; try discriminate Heq.
    + by apply Hg.
    + exists l. split; [congruence|done].
  - intros l0 Hin.
    apply annotate_ingredient_elem_of in Hin
      as [Hin|(_ & [Heq|[Heq|[[_ Heq]|[_ Heq]]]])]; try discriminate Heq.
    + destruct (Hl l0 Hin) as (l' & Hv & Hn). exists l'.
      split; [by eapply grows_value|done].
    + assert (ingredient_node l0 = ingredient_node l) as Hn by congruence.
      exists l. rewrite Hn. split.
      * apply annotate_ingredient_value; [|done].
        intros v Hv. by apply Ht in Hv.
      * symmetry. by apply ingredient_node_inj.
  - intros l0 l' Hin.
    apply annotate_ingredient_elem_of in Hin
      as [Hin|(_ & [Heq|[Heq|[[_ Heq]|[_ Heq]]]])]; try discriminate Heq.
    + by apply Hmono, (Ht l0 l').
    + assert (ingredient_node l0 = ingredient_node l) as Hn by congruence.
      rewrite Hn. apply annotate_ingredient_elem_of. right. split; [done|].
      by left.
Qed.

Lemma coherent_nil : coherent [].
Proof.
  split.
  - by intros l ?%elem_of_nil.
  - by intros u ?%elem_of_nil.
  - by intros l ?%elem_of_nil.
  - by intros l l' ?%elem_of_nil.
Qed.

Lemma schema_ingredient_free :
  Forall ingredient_free (add_ontology_schema []).
Proof.
  set (s := add_ontology_schema []). vm_compute in s. subst s.
  apply Forall_forall. intros t Ht.
  repeat (apply elem_of_cons in Ht as [->|Ht];
          [simpl; first [ by repeat split
                        | by intros l [= H]
                        | done ]|]).
  by apply elem_of_nil in Ht.
Qed.

Lemma coherent_schema : coherent (add_ontology_schema []).
Proof.
  apply (coherent_grows_free []); [apply coherent_nil|].
  exists (add_ontology_schema []). split; [done|].
  apply schema_ingredient_free.
Qed.

Lemma annotate_ingredient_typed g l :
  Link (ingredient_node l) RDF_type (REC "Ingredient")
  ∈ (annotate_ingredient g l).1.
Proof.
  apply annotate_ingredient_elem_of.
  destruct (decide (Link (ingredient_node l) RDF_type (REC "Ingredient") ∈ g));
    [by left|right]. split; [done|by left].
Qed.

Lemma add_ingredients_coherent nm labels g0 uris0 :
  let res := foldl (λ '(g, ingredient_uris) ingredient,
                      let '(g, ingredient_uri) :=
                        annotate_ingredient g ingredient in
                      (add g (Link (recipe_node nm) REC_hasIngredient
                                   ingredient_uri),
                       ingredient_uris ++ [ingredient_uri]))
                   (g0, uris0) labels in
  (coherent g0 → coherent res.1)
  ∧ (∀ l, l ∈ labels →
          Link (ingredient_node l) RDF_type (REC "Ingredient") ∈ res.1).
Proof.
  revert g0 uris0. induction labels as [|l labels IH]; intros g0 uris0.
  - simpl. split; [done|]. by intros l ?%elem_of_nil.
  - cbn [foldl].
    pose proof (coherent_annotate g0 l) as Hc.
    pose proof (annotate_ingredient_typed g0 l) as Ht.
    pose proof (annotate_ingredient_node g0 l) as Hn.
    destruct (annotate_ingredient g0 l) as [g1 u]. simpl in Hc, Ht, Hn.
    subst u.
    destruct (IH (add g1 (Link (recipe_node nm) REC_hasIngredient
                               (ingredient_node l)))
                 (uris0 ++ [ingredient_node l])) as [IHc IHt].
    pose proof (add_ingredients_from nm labels
                  (add g1 (Link (recipe_node nm) REC_hasIngredient
                                (ingredient_node l)))
                  (uris0 ++ [ingredient_node l])) as [Hgrows _].
    cbv zeta in *. split.
    + intros Hg0. apply IHc.
      eapply coherent_grows_free; [by apply Hc|]. by apply grows_add.
    + intros l' [->|Hl']%elem_of_cons; [|by apply IHt].
      eapply grows_subseteq; [exact Hgrows|].
      apply elem_of_add. by left.
Qed.

Lemma coherent_free_phase nm ph g g' :
  ph ≠ Ingredients →
  coherent g → grows (fact nm ph) g g' → coherent g'.
Proof.
  intros Hph Hc Hg. eapply coherent_grows_free; [done|].
  eapply grows_impl; [|exact Hg].
  intros t Ht. eapply fact_ingredient_free; [done|by left].
Qed.

Lemma coherent_populate_record g bnodes record :
  coherent g → coherent (populate_record (g, bnodes) record).1.
Proof.
  intros Hc. destruct (decide (name record = EmptyString)) as [Hn|Hn].
  { by rewrite populate_record_empty_name. }
  rewrite populate_record_unfold by done. cbv zeta. cbn [fst].
  eapply coherent_grows_free; [|eapply grows_impl; [|apply add_cuisines_grows]].
  2:{ intros t [Ht|Ht]; (eapply fact_ingredient_free; [done|by left]). }
  eapply (coherent_free_phase (name record) Directions);
    [done| |apply add_directions_grows].
  eapply (coherent_free_phase (name record) Diets);
    [done| |apply infer_diets_grows].
  apply (add_ingredients_coherent (name record)).
  eapply (coherent_free_phase (name record) Attributes);
    [done|done|apply add_attributes_grows].
Qed.

Lemma coherent_populate_graph records g bnodes :
  coherent g → coherent (populate_graph (g, bnodes) records).1.
Proof.
  revert g bnodes. unfold populate_graph.
  induction records as [|r records IH]; intros g bnodes Hc; [done|].
  cbn [foldl]. pose proof (coherent_populate_record g bnodes r Hc) as Hc'.
  destruct (populate_record (g, bnodes) r) as [g' b']. by apply IH.
Qed.

(** ** Diet inference *)

Lemma infer_diets_elem_of g recipe_uri uris t :
  t ∈ infer_diets g recipe_uri uris ↔
    t ∈ g
    ∨ (any_marked g "AnimalProduct" uris = false
       ∧ (t = Link recipe_uri REC_hasDiet (REC "Vegan")
          ∨ t = Link recipe_uri REC_hasDiet (REC "Vegetarian")))
    ∨ (any_marked g "AnimalProduct" uris = true
       ∧ has_meat g uris = false
       ∧ t = Link recipe_uri REC_hasDiet (REC "Vegetarian"))
    ∨ (any_marked g "GlutenIngredient" uris = false
       ∧ t = Link recipe_uri REC_hasDiet (REC "GlutenFree"))
    ∨ (any_marked g "AnimalProduct" uris = true
       ∧ t = Link recipe_uri REC_avoidsIngredientCategory
               (REC "AnimalProduct"))
    ∨ (any_marked g "GlutenIngredient" uris = true
       ∧ t = Link recipe_uri REC_avoidsIngredientCategory
               (REC "GlutenIngredient")).
Proof.
  unfold infer_diets. cbv zeta.
  destruct (any_marked g "AnimalProduct" uris),
    (any_marked g "GlutenIngredient" uris), (has_meat g uris);
    cbn [negb]; rewrite ?elem_of_add; naive_solver.
Qed.

Lemma any_marked_true g category uris u :
  u ∈ uris → Link u RDF_type (REC category) ∈ g →
  any_marked g category uris = true.
Proof.
  intros Hu Hin. unfold any_marked. apply existsb_exists.
  exists u. split; [by apply list_elem_of_In|].
  unfold has. by apply bool_decide_eq_true_2.
Qed.

Lemma any_marked_false g category uris :
  (∀ u, u ∈ uris → Link u RDF_type (REC category) ∉ g) →
  any_marked g category uris = false.
Proof.
  intros Hnone. unfold any_marked.
  destruct (existsb _ uris) eqn:E; [|done].
  apply existsb_exists in E as (u & Hu%list_elem_of_In & Hhas).
  unfold has in Hhas. apply bool_decide_eq_true in Hhas.
  by apply Hnone in Hhas.
Qed.

Lemma has_meat_true g uris u l :
  u ∈ uris → value g u RDFS_label = Some l →
  Py.contains "chicken" (Py.lower l) = true →
  has_meat g uris = true.
Proof.
  intros Hu Hv Hc. unfold has_meat. apply existsb_exists.
  exists u. split; [by apply list_elem_of_In|].
  apply existsb_exists. exists "chicken". split; [by left|].
  rewrite Hv, Hc. by destruct l.
Qed.

Lemma no_diet_outside nm ph o :
  ph ≠ Diets → ¬ fact nm ph (Link (recipe_node nm) REC_hasDiet o).
Proof. intros Hph Hf. inversion Hf; by subst. Qed.

Lemma diet_subject nm ph s o :
  fact nm ph (Link s REC_hasDiet o) → s = recipe_node nm.
Proof. by inversion 1. Qed.

Lemma populate_record_diets g bnodes record o :
  name record ≠ EmptyString →
  let recipe_uri := recipe_node (name record) in
  let g1 := add_attributes g record in
  let g2 := (add_ingredients g1 recipe_uri (rec_ingredients record)).1 in
  let uris := ingredient_node <$> rec_ingredients record in
  Link recipe_uri REC_hasDiet o ∈ (populate_record (g, bnodes) record).1 ↔
    Link recipe_uri REC_hasDiet o ∈ g
    ∨ Link recipe_uri REC_hasDiet o ∈ infer_diets g2 recipe_uri uris.
Proof.
  intros Hname. cbv zeta.
  rewrite populate_record_unfold by done. cbv zeta. cbn [fst].
  rewrite add_ingredients_uris.
  set (g1 := add_attributes g record).
  set (g2 := (add_ingredients g1 _ _).1).
  set (g3 := infer_diets g2 _ _).
  set (g4 := (add_directions g3 _ _ _).1).
  pose proof (add_attributes_grows g record) as H1. fold g1 in H1.
  pose proof (add_ingredients_grows (name record) g1
                (rec_ingredients record)) as H2. fold g2 in H2.
  pose proof (infer_diets_grows (name record) g2
                (ingredient_node <$> rec_ingredients record)) as H3.
  fold g3 in H3.
  pose proof (add_directions_grows (name record) g3 bnodes
                (rec_directions record)) as H4. fold g4 in H4.
  pose proof (add_cuisines_grows g4 record) as H5.
  split.
  - intros Hin. right.
    destruct (grows_elem_of _ _ _ _ H5 Hin) as [Hin4|[Hf|Hf]];
      [|by apply no_diet_outside in Hf..].
    destruct (grows_elem_of _ _ _ _ H4 Hin4) as [Hin3|Hf];
      [done|by apply no_diet_outside in Hf].
  - intros [Hin|Hin].
    + eapply grows_subseteq; [exact H5|].
      eapply grows_subseteq; [exact H4|].
      eapply grows_subseteq; [exact H3|].
      eapply grows_subseteq; [exact H2|].
      by eapply grows_subseteq.
    + eapply grows_subseteq; [exact H5|].
      by eapply grows_subseteq.
Qed.

Lemma before_diets_no_diet g record o :
  let recipe_uri := recipe_node (name record) in
  let g1 := add_attributes g record in
  let g2 := (add_ingredients g1 recipe_uri (rec_ingredients record)).1 in
  Link recipe_uri REC_hasDiet o ∈ g2 → Link recipe_uri REC_hasDiet o ∈ g.
Proof.
  cbv zeta. intros Hin.
  destruct (grows_elem_of _ _ _ _
              (add_ingredients_grows (name record) _ _) Hin) as [Hin1|Hf];
    [|by apply no_diet_outside in Hf].
  destruct (grows_elem_of _ _ _ _ (add_attributes_grows g record) Hin1)
    as [?|Hf]; [done|by apply no_diet_outside in Hf].
Qed.

Lemma chicken_stock_step g bnodes record :
  coherent g →
  "Chicken Stock" ∈ rec_ingredients record →
  name record ≠ EmptyString →
  chicken_stock_claim g (populate_record (g, bnodes) record).1 record.
Proof.
  intros Hc Hcs Hname. unfold chicken_stock_claim. cbv zeta.
  rewrite !(populate_record_diets g bnodes record _ Hname).
  set (recipe_uri := recipe_node (name record)).
  set (g1 := add_attributes g record).
  pose proof (add_ingredients_coherent (name record) (rec_ingredients record)
                g1 []) as [Hc2 Htyped].
  cbv zeta in Hc2, Htyped.
  fold (add_ingredients g1 recipe_uri (rec_ingredients record)) in Hc2, Htyped.
  set (g2 := (add_ingredients g1 recipe_uri (rec_ingredients record)).1) in *.
  set (uris := ingredient_node <$> rec_ingredients record).
  assert (coherent g2) as [Ha Hg Hl Ht].
  { apply Hc2. eapply (coherent_free_phase (name record) Attributes);
      [done|done|apply add_attributes_grows]. }
  assert (ingredient_node "Chicken Stock" ∈ uris) as Hu
    by by apply list_elem_of_fmap_2.
  assert (any_marked g2 "AnimalProduct" uris = true) as Hanimal.
  { eapply any_marked_true; [exact Hu|].
    apply Ha; [by apply Htyped|by vm_compute]. }
  assert (has_meat g2 uris = true) as Hmeat.
  { destruct (Hl "Chicken Stock") as (l' & Hv & Hn); [by apply Htyped|].
    eapply has_meat_true; [exact Hu|exact Hv|].
    by rewrite (keyword_invariance "chicken" l' "Chicken Stock"). }
  assert (∀ o, Link recipe_uri REC_hasDiet o ∈ g2 →
               Link recipe_uri REC_hasDiet o ∈ g) as Hbefore
    by (intros o; apply before_diets_no_diet).
  split; [|split].
  - intros [?|Hin]; [done|].
    apply infer_diets_elem_of in Hin
      as [Hin|[[E _]|[(_ & _ & E)|[[_ E]|[[_ E]|[_ E]]]]]];
      [by apply Hbefore|congruence|discriminate E..].
  - intros [?|Hin]; [done|].
    apply infer_diets_elem_of in Hin
      as [Hin|[[E _]|[(_ & E & _)|[[_ E]|[[_ E]|[_ E]]]]]];
      [by apply Hbefore|congruence|congruence|discriminate E..].
  - intros Hfree. right. apply infer_diets_elem_of.
    right. right. right. left. split; [|done].
    apply any_marked_false. intros u (l & -> & Hl')%list_elem_of_fmap Hin.
    destruct (Hg _ Hin) as (l0 & Hn & Hk).
    rewrite <- (gluten_invariance _ _ Hn) in Hk.
    rewrite (Hfree l Hl') in Hk. discriminate Hk.
Qed.

Lemma schema_no_diet s o : Link s REC_hasDiet o ∉ add_ontology_schema [].
Proof.
  intros H. vm_compute in H.
  repeat (apply elem_of_cons in H as [H|H]; [discriminate H|]).
  by apply elem_of_nil in H.
Qed.

Lemma populate_graph_frame records g bnodes s o :
  (∀ r, r ∈ records → name r ≠ EmptyString → recipe_node (name r) ≠ s) →
  Link s REC_hasDiet o ∈ (populate_graph (g, bnodes) records).1 →
  Link s REC_hasDiet o ∈ g.
Proof.
  intros Hother [?|(r & ph & Hr & Hn & Hf)]%populate_graph_elem_of; [done|].
  apply diet_subject in Hf. by destruct (Hother r Hr Hn).
Qed.

Lemma populate_graph_app st before after :
  populate_graph st (before ++ after)
  = populate_graph (populate_graph st before) after.
Proof. unfold populate_graph. by rewrite foldl_app. Qed.

(** ** Chicken stock *)

(** C3, as amended.  In every batch, processing a record whose ingredients
    include the label Chicken Stock adds neither diet Vegan nor diet
    Vegetarian to its recipe, and leaves the recipe with diet GlutenFree
    provided no ingredient label of the record contains a gluten-bearing
    keyword; when no other record of the batch has a name with the same
    identifier, the recipe has neither Vegan nor Vegetarian in the built
    store. *)
Theorem chicken_stock_diets before record after :
  "Chicken Stock" ∈ rec_ingredients record →
  name record ≠ EmptyString →
  let st := populate_graph (add_ontology_schema [], 0%nat) before in
  chicken_stock_claim st.1 (populate_record st record).1 record
  ∧ ((∀ r, r ∈ before ++ after → name r ≠ EmptyString →
           recipe_node (name r) ≠ recipe_node (name record)) →
     diets_as_worded (before ++ record :: after) record).
Proof.
  intros Hcs Hname. cbv zeta.
  pose proof (coherent_populate_graph before (add_ontology_schema []) 0%nat
                coherent_schema) as Hc.
  destruct (populate_graph (add_ontology_schema [], 0%nat) before)
    as [g b] eqn:Hbefore.
  cbn [fst] in *.
  pose proof (chicken_stock_step g b record Hc Hcs Hname)
    as Hstep.
  split; [done|].
  intros Hother. destruct Hstep as (Hvegan & Hveg & Hfree).
  assert (∀ o, Link (recipe_node (name record)) REC_hasDiet o ∉ g) as Hnone.
  { intros o Hin.
    assert (g = (populate_graph (add_ontology_schema [], 0%nat) before).1)
      as Hg by by rewrite Hbefore.
    rewrite Hg in Hin. apply populate_graph_frame in Hin.
    - by apply schema_no_diet in Hin.
    - intros r Hr. apply Hother, elem_of_app. by left. }
  unfold diets_as_worded, build_graph. cbv zeta.
  change (before ++ record :: after) with (before ++ [record] ++ after).
  rewrite !populate_graph_app, Hbefore.
  change (populate_graph (g, b) [record]) with (populate_record (g, b) record).
  destruct (populate_record (g, b) record) as [g' b'] eqn:Hrec.
  cbn [fst] in *.
  assert (∀ o, Link (recipe_node (name record)) REC_hasDiet o
                 ∈ (populate_graph (g', b') after).1 →
               Link (recipe_node (name record)) REC_hasDiet o ∈ g') as Hafter.
  { intros o. apply populate_graph_frame.
    intros r Hr. apply Hother, elem_of_app. by right. }
  split; [|split].
  - intros Hin. by apply Hafter, Hvegan, Hnone in Hin.
  - intros Hin. by apply Hafter, Hveg, Hnone in Hin.
  - intros Hgf. by apply populate_graph_subseteq, Hfree.
Qed.

Lemma chicken_stock_diets_witness :
  diets_as_worded [ lentil_soup; chicken_broth; water ] chicken_broth.
Proof.
  apply (chicken_stock_diets [ lentil_soup ] chicken_broth [ water ]).
  - apply elem_of_cons. by left.
  - done.
  - intros r Hr _.
    apply elem_of_cons in Hr as [->|Hr];
      [|apply list_elem_of_singleton in Hr as ->]; by vm_compute.
Defined.

(** C3 as it is worded fails: two records whose names have the same
    identifier are one recipe, and the recipe that has the ingredient
    Chicken Stock from the second record keeps the diets Vegan and
    Vegetarian that the first record gave it. *)
Lemma chicken_stock_diets_not_as_worded :
  chicken_broth ∈ [ vegetable_broth; chicken_broth ]
  ∧ "Chicken Stock" ∈ rec_ingredients chicken_broth
  ∧ ¬ diets_as_worded [ vegetable_broth; chicken_broth ] chicken_broth.
Proof.
  split; [apply elem_of_cons; right; apply elem_of_cons; by left|].
  split; [apply elem_of_cons; by left|].
  intros [Hvegan _]. apply Hvegan. apply elem_of_objects.
  vm_compute. apply elem_of_cons. by left.
Qed.

(** ** Identifiers *)

Lemma is_hyphen_true c : is_hyphen c = true ↔ c = HYPHEN.
Proof. unfold is_hyphen. apply bool_decide_eq_true. Qed.

Lemma sub_runs_not_slug_body in_run s :
  slug_body in_run (sub_runs not_slug_char "-" in_run s) = true.
Proof.
  revert in_run. induction s as [|c s IH]; intros in_run; [done|].
  cbn [sub_runs]. destruct (not_slug_char c) eqn:Hc.
  - destruct in_run.
    + rewrite append_nil_l. apply IH.
    + change ("-" +:+ ?x) with (String HYPHEN x). cbn [slug_body].
      change (is_hyphen HYPHEN) with true. cbn. apply IH.
  - unfold not_slug_char in Hc. apply negb_false_iff in Hc.
    cbn [slug_body].
    destruct (is_hyphen c) eqn:Hh.
    { apply is_hyphen_sep in Hh. congruence. }
    rewrite Hc. cbn. apply IH.
Qed.

Lemma sub_runs_hyphen_id after_hyphen s :
  slug_body after_hyphen s = true →
  sub_runs is_hyphen "-" after_hyphen s = s.
Proof.
  revert after_hyphen. induction s as [|c s IH]; intros b; [done|].
  cbn [slug_body sub_runs]. destruct (is_hyphen c) eqn:Hh.
  - intros [Hb Hs]%andb_true_iff. apply negb_true_iff in Hb as ->.
    apply is_hyphen_true in Hh as ->.
    change ("-" +:+ ?x) with (String HYPHEN x). f_equal. by apply IH.
  - intros [_ Hs]%andb_true_iff. f_equal. by apply IH.
Qed.

Lemma lstrip_hyphen_body s :
  slug_body false s = true → slug_body true (Py.lstrip is_hyphen s) = true.
Proof.
  destruct s as [|c s]; [done|]. cbn [slug_body Py.lstrip].
  destruct (is_hyphen c) eqn:Hh.
  - cbn. intros Hs. destruct s as [|c' s]; [done|].
    cbn [slug_body Py.lstrip negb andb] in *.
    destruct (is_hyphen c') eqn:Hh'; [done|].
    cbn [slug_body]. by rewrite Hh'.
  - intros Hs. cbn [slug_body]. by rewrite Hh.
Qed.

Lemma rstrip_hyphen_slug after_hyphen s :
  slug_body after_hyphen s = true →
  Py.rstrip is_hyphen s = EmptyString
  ∨ slug_from after_hyphen (Py.rstrip is_hyphen s) = true.
Proof.
  revert after_hyphen. induction s as [|c s IH]; intros b; [by left|].
  cbn [slug_body Py.rstrip]. destruct (is_hyphen c) eqn:Hh.
  - intros [Hb Hs]%andb_true_iff. apply negb_true_iff in Hb as ->.
    destruct (IH _ Hs) as [->|Hr]; [by left|].
    destruct (Py.rstrip is_hyphen s) as [|c' r] eqn:Hr'; [done|].
    right. cbn [slug_from]. by rewrite Hh.
  - intros [Hc Hs]%andb_true_iff.
    destruct (IH _ Hs) as [->|Hr].
    { right. cbn [slug_from]. by rewrite Hh, Hc. }
    destruct (Py.rstrip is_hyphen s) as [|c' r] eqn:Hr'.
    { right. cbn [slug_from]. by rewrite Hh, Hc. }
    right. change (slug_from b (String c (String c' r)) = true).
    cbn [slug_from]. rewrite Hh, Hc. exact Hr.
Qed.

Lemma normalise_text_is_slug s : is_slug (normalise_text s) = true.
Proof.
  unfold normalise_text, re_sub. cbv zeta.
  set (v := Py.lower (Py.strip s)).
  pose proof (sub_runs_not_slug_body false v) as Ha.
  rewrite (sub_runs_hyphen_id _ _ Ha).
  apply lstrip_hyphen_body in Ha.
  unfold Py.strip_chars, is_slug.
  destruct (rstrip_hyphen_slug _ _ Ha) as [->|Hr]; [done|].
  rewrite Hr. apply orb_true_r.
Qed.

Lemma slug_from_body after_hyphen s :
  slug_from after_hyphen s = true → slug_body after_hyphen s = true.
Proof.
  revert after_hyphen. induction s as [|c s IH]; intros b; [done|].
  cbn [slug_from slug_body]. destruct (is_hyphen c).
  - intros [-> Hs]%andb_true_iff. by rewrite (IH _ Hs).
  - intros [-> Hs]%andb_true_iff. by rewrite (IH _ Hs).
Qed.

Lemma sub_runs_not_slug_id after_hyphen s :
  slug_body after_hyphen s = true →
  sub_runs not_slug_char "-" after_hyphen s = s.
Proof.
  revert after_hyphen. induction s as [|c s IH]; intros b; [done|].
  cbn [slug_body sub_runs]. destruct (is_hyphen c) eqn:Hh.
  - intros [Hb Hs]%andb_true_iff. apply negb_true_iff in Hb as ->.
    unfold not_slug_char. rewrite (is_hyphen_sep _ Hh). cbn [negb].
    apply is_hyphen_true in Hh as ->.
    change ("-" +:+ ?x) with (String HYPHEN x). f_equal. by apply IH.
  - intros [Hc Hs]%andb_true_iff. unfold not_slug_char. rewrite Hc.
    cbn [negb]. f_equal. by apply IH.
Qed.

Section slug_strip.
Context (p : ascii → bool).
Hypothesis p_sep : ∀ c, p c = true → is_slug_char c = false.

Lemma rstrip_slug after_hyphen s :
  slug_from after_hyphen s = true → Py.rstrip p s = s.
Proof.
  revert after_hyphen. induction s as [|c s IH]; intros b; [done|].
  cbn [slug_from Py.rstrip]. destruct (is_hyphen c) eqn:Hh.
  - intros [_ Hs]%andb_true_iff. rewrite (IH _ Hs).
    by destruct s.
  - intros [Hc Hs]%andb_true_iff. rewrite (IH _ Hs).
    destruct s; [|done].
    destruct (p c) eqn:Hp; [|done].
    apply p_sep in Hp. congruence.
Qed.

Lemma lstrip_slug s : slug_from true s = true → Py.lstrip p s = s.
Proof.
  destruct s as [|c s]; [done|]. cbn [slug_from Py.lstrip].
  destruct (is_hyphen c); [done|].
  intros [Hc _]%andb_true_iff.
  destruct (p c) eqn:Hp; [|done].
  apply p_sep in Hp. congruence.
Qed.

Lemma strip_chars_slug s : is_slug s = true → Py.strip_chars p s = s.
Proof.
  unfold is_slug, Py.strip_chars. destruct s as [|c s]; [done|].
  cbn [Py.nonempty negb orb]. intros Hs.
  rewrite (lstrip_slug _ Hs). by apply (rstrip_slug true).
Qed.

End slug_strip.

Lemma lower_char_slug c :
  is_slug_char c = true ∨ is_hyphen c = true → Py.lower_char c = c.
Proof.
  unfold Py.lower_char. destruct (Py.is_upper c) eqn:Hu; [|done].
  intros Hc. exfalso. revert Hu Hc.
  unfold is_slug_char, Py.is_upper, Py.is_lower, Py.is_digit.
  intros [?%N.leb_le ?%N.leb_le]%andb_true_iff [Hc|Hc%is_hyphen_true].
  - apply orb_true_iff in Hc
      as [[?%N.leb_le ?%N.leb_le]%andb_true_iff
         |[?%N.leb_le ?%N.leb_le]%andb_true_iff]; lia.
  - subst c. change (Py.code HYPHEN) with 45%N in *. lia.
Qed.

Lemma lower_slug after_hyphen s :
  slug_body after_hyphen s = true → Py.lower s = s.
Proof.
  revert after_hyphen. induction s as [|c s IH]; intros b; [done|].
  cbn [slug_body Py.lower]. destruct (is_hyphen c) eqn:Hh.
  - intros [_ Hs]%andb_true_iff.
    rewrite lower_char_slug by by right. f_equal. by eapply IH.
  - intros [Hc Hs]%andb_true_iff.
    rewrite lower_char_slug by by left. f_equal. by eapply IH.
Qed.

Lemma normalise_text_slug s : is_slug s = true → normalise_text s = s.
Proof.
  intros Hs. unfold normalise_text, re_sub, Py.strip. cbv zeta.
  rewrite (strip_chars_slug _ is_space_sep) by done.
  assert (slug_body false s = true) as Hb.
  { unfold is_slug in Hs. destruct s as [|c s]; [done|].
    cbn [Py.nonempty negb orb] in Hs.
    apply slug_from_body in Hs. cbn [slug_body] in *.
    destruct (is_hyphen c); [done|]. exact Hs. }
  rewrite (lower_slug _ _ Hb), (sub_runs_not_slug_id _ _ Hb),
    (sub_runs_hyphen_id _ _ Hb).
  by apply (strip_chars_slug _ is_hyphen_sep).
Qed.

Lemma append_nil_r a : a +:+ EmptyString = a.
Proof. induction a as [|c a IH]; [done|]. by rewrite append_cons, IH. Qed.

Lemma hyphenated_cons w ws : hyphenated (w :: ws) = w +:+ hyphen_led ws.
Proof.
  revert w. induction ws as [|w' ws IH]; intros w.
  - cbn. by rewrite append_nil_r.
  - change (hyphenated (w :: w' :: ws))
      with (w +:+ "-" +:+ hyphenated (w' :: ws)).
    by rewrite IH.
Qed.

Lemma slug_runs after_hyphen s :
  slug_from after_hyphen s = true →
  s = hd EmptyString (runs s) +:+ hyphen_led (tl (runs s))
  ∧ Forall (λ r, Py.nonempty r = true) (tl (runs s))
  ∧ (after_hyphen = true → Py.nonempty (hd EmptyString (runs s)) = true).
Proof.
  revert after_hyphen. induction s as [|c s IH]; intros b.
  { cbn. intros ->%negb_true_iff. by rewrite append_nil_l. }
  cbn [slug_from]. destruct (is_hyphen c) eqn:Hh.
  - intros [->%negb_true_iff Hs]%andb_true_iff.
    destruct (IH _ Hs) as (Heq & Hall & Hhd).
    rewrite (runs_cons_sep _ _ (is_hyphen_sep _ Hh)). cbn [hd tl].
    rewrite (runs_hd_tl s). apply is_hyphen_true in Hh as ->.
    split; [|split; [|done]].
    + rewrite append_nil_l. cbn [hyphen_led foldr].
      change ("-" +:+ ?x) with (String HYPHEN x). f_equal. exact Heq.
    + constructor; [by apply Hhd|done].
  - intros [Hc Hs]%andb_true_iff.
    destruct (IH _ Hs) as (Heq & Hall & _).
    rewrite (runs_cons_slug _ _ Hc). cbn [hd tl].
    split; [|done]. rewrite append_cons. f_equal. exact Heq.
Qed.

Lemma slug_hyphenated s : is_slug s = true → hyphenated (words s) = s.
Proof.
  unfold is_slug. destruct s as [|c s]; [done|].
  cbn [Py.nonempty negb orb]. intros Hs.
  destruct (slug_runs _ _ Hs) as (Heq & Hall & Hhd).
  rewrite words_hd_tl, (Hhd eq_refl). cbn [app].
  unfold words_of. rewrite filter_all by by apply Forall_forall.
  by rewrite hyphenated_cons.
Qed.

Lemma normalise_text_words s :
  normalise_text s = hyphenated (words (Py.lower s)).
Proof.
  rewrite <- words_normalise_text.
  symmetry. apply slug_hyphenated, normalise_text_is_slug.
Qed.

Lemma slug_body_chars after_hyphen s c :
  slug_body after_hyphen s = true →
  c ∈ list_ascii_of_string s → is_slug_char c = true ∨ c = HYPHEN.
Proof.
  revert after_hyphen. induction s as [|c' s IH]; intros b.
  { intros _ Hin. by apply elem_of_nil in Hin. }
  cbn [slug_body list_ascii_of_string]. intros Hs Hin.
  apply elem_of_cons in Hin as [->|Hin].
  - destruct (is_hyphen c') eqn:Hh.
    + right. by apply is_hyphen_true.
    + left. by apply andb_true_iff in Hs as [? _].
  - destruct (is_hyphen c'); apply andb_true_iff in Hs as [_ Hs]; eauto.
Qed.

Lemma slug_from_no_trailing after_hyphen s :
  slug_from after_hyphen (s +:+ "-") = false.
Proof.
  revert after_hyphen. induction s as [|c s IH]; intros b.
  - rewrite append_nil_l. cbn. apply andb_false_r.
  - rewrite append_cons. cbn [slug_from]. rewrite !IH.
    destruct (is_hyphen c); apply andb_false_r.
Qed.

Lemma slug_body_no_double after_hyphen a b :
  slug_body after_hyphen (a +:+ "--" +:+ b) = false.
Proof.
  revert after_hyphen. induction a as [|c a IH]; intros h.
  - rewrite append_nil_l. cbn. apply andb_false_r.
  - rewrite append_cons. cbn [slug_body]. rewrite !IH.
    destruct (is_hyphen c); apply andb_false_r.
Qed.

Lemma is_slug_shape s :
  is_slug s = true →
  (∀ c, c ∈ list_ascii_of_string s → is_slug_char c = true ∨ c = HYPHEN)
  ∧ (∀ t, s ≠ "-" +:+ t)
  ∧ (∀ t, s ≠ t +:+ "-")
  ∧ (∀ a b, s ≠ a +:+ "--" +:+ b).
Proof.
  unfold is_slug. destruct s as [|c s].
  { intros _. split; [|split; [|split]].
    - intros c Hin. by apply elem_of_nil in Hin.
    - done.
    - intros [|??]; done.
    - intros [|??] ?; done. }
  cbn [Py.nonempty negb orb]. intros Hs.
  split; [|split; [|split]].
  - intros c'. eapply slug_body_chars. by apply slug_from_body.
  - intros t Heq. rewrite Heq in Hs. done.
  - intros t Heq. rewrite Heq, slug_from_no_trailing in Hs. done.
  - intros a b Heq. apply slug_from_body in Hs.
    rewrite Heq, slug_body_no_double in Hs. done.
Qed.

(** The identifier that [normalise_text] returns holds only characters of
    [a-z0-9] and hyphens, neither starts nor ends with a hyphen and has no
    two hyphens in a row. *)
Theorem normalise_text_shape value :
  let id := normalise_text value in
  (∀ c, c ∈ list_ascii_of_string id → is_slug_char c = true ∨ c = HYPHEN)
  ∧ (∀ t, id ≠ "-" +:+ t)
  ∧ (∀ t, id ≠ t +:+ "-")
  ∧ (∀ a b, id ≠ a +:+ "--" +:+ b).
Proof. apply is_slug_shape, normalise_text_is_slug. Qed.

(** [normalise_text] is idempotent, and the strings it leaves unchanged are
    exactly the identifiers: words of [a-z0-9] separated by single hyphens,
    and the empty string. *)
Theorem normalise_text_idempotent :
  (∀ value, normalise_text (normalise_text value) = normalise_text value)
  ∧ (∀ value, normalise_text value = value ↔ is_slug value = true).
Proof.
  split.
  - intros value. apply normalise_text_slug, normalise_text_is_slug.
  - intros value. split.
    + intros <-. apply normalise_text_is_slug.
    + apply normalise_text_slug.
Qed.

(** [normalise_text] returns the maximal runs of letters and digits of the
    lower-cased text, joined by hyphens; two texts get the same identifier
    exactly when they have the same runs, letter case apart. *)
Theorem normalise_text_same_words :
  (∀ value, normalise_text value = hyphenated (words (Py.lower value)))
  ∧ (∀ a b, normalise_text a = normalise_text b ↔
            words (Py.lower a) = words (Py.lower b)).
Proof.
  split; [apply normalise_text_words|].
  intros a b. split.
  - intros Heq. by rewrite <- !words_normalise_text, Heq.
  - intros Heq. by rewrite !normalise_text_words, Heq.
Qed.

(** ** What [recipe_detail] reads from the store *)

Lemma elem_of_detail_query g n r :
  r ∈ Detail.query g n ↔
    Detail.v_label r ∈ texts g n RDFS_label
    ∧ Detail.v_url r ∈ optional (texts g n SCHEMA_url)
    ∧ Detail.v_rating r ∈ optional (ratings g n)
    ∧ Detail.v_totalTime r ∈ optional (ints g n REC_hasTotalTime)
    ∧ Detail.v_ingredientLabel r ∈ optional (labelled g n REC_hasIngredient)
    ∧ Detail.v_direction r ∈ optional (labelled g n SCHEMA_step)
    ∧ Detail.v_dietLabel r ∈ optional (labelled g n REC_hasDiet)
    ∧ Detail.v_cuisineLabel r ∈ optional (labelled g n REC_hasCuisine).
Proof.
  unfold Detail.query.
  repeat setoid_rewrite list_elem_of_bind.
  setoid_rewrite list_elem_of_singleton.
  split.
  - intros (? & (? & (? & (? & (? & (? & (? & (? & -> & ?)
      & ?) & ?) & ?) & ?) & ?) & ?) & ?); simpl.
    repeat split; done.
  - destruct r; simpl. intros (?&?&?&?&?&?&?&?).
    repeat (eexists; split; [|eassumption]). done.
Qed.

Lemma optional_head {A} (l : list A) : ∃ rest, optional l = head l :: rest.
Proof. destruct l as [|x l]; simpl; eauto. Qed.

(** The first row of the join takes the first match of every pattern. *)
Lemma detail_query_first g n first rest :
  Detail.query g n = first :: rest →
  Some (Detail.v_label first) = head (texts g n RDFS_label)
  ∧ Detail.v_url first = head (texts g n SCHEMA_url)
  ∧ Detail.v_rating first = head (ratings g n)
  ∧ Detail.v_totalTime first = head (ints g n REC_hasTotalTime).
Proof.
  unfold Detail.query.
  destruct (texts g n RDFS_label) as [|l0 ls]; [done|].
  destruct (optional_head (texts g n SCHEMA_url)) as [r1 ->].
  destruct (optional_head (ratings g n)) as [r2 ->].
  destruct (optional_head (ints g n REC_hasTotalTime)) as [r3 ->].
  destruct (optional_head (labelled g n REC_hasIngredient)) as [r4 ->].
  destruct (optional_head (labelled g n SCHEMA_step)) as [r5 ->].
  destruct (optional_head (labelled g n REC_hasDiet)) as [r6 ->].
  destruct (optional_head (labelled g n REC_hasCuisine)) as [r7 ->].
  cbn. intros [= <- _]. done.
Qed.

Lemma elem_of_encountered {R} (var : R → option string) (rows : list R) l :
  l ∈ encountered var rows ↔
    l ≠ EmptyString ∧ ∃ r, r ∈ rows ∧ var r = Some l.
Proof.
  unfold encountered. rewrite list_elem_of_omap. split.
  - intros (r & Hr & Hl). unfold text_or_none in Hl.
    destruct (truthy_text (var r)) eqn:Ht; [|done].
    apply truthy_text_spec in Ht as (s & Hs & Hne).
    rewrite Hs in Hl. injection Hl as <-. eauto.
  - intros (Hne & r & Hr & Hl). exists r. split; [done|].
    rewrite Hl. by apply text_or_none_some.
Qed.

Section detail_rows.
Context (g : graph) (n : node).
Hypothesis labelled_recipe : ∃ l0, Text n RDFS_label l0 ∈ g.

Lemma detail_row_exists v4 v5 v6 v7 :
  v4 ∈ optional (labelled g n REC_hasIngredient) →
  v5 ∈ optional (labelled g n SCHEMA_step) →
  v6 ∈ optional (labelled g n REC_hasDiet) →
  v7 ∈ optional (labelled g n REC_hasCuisine) →
  ∃ r, r ∈ Detail.query g n
       ∧ Detail.v_ingredientLabel r = v4 ∧ Detail.v_direction r = v5
       ∧ Detail.v_dietLabel r = v6 ∧ Detail.v_cuisineLabel r = v7.
Proof.
  intros H4 H5 H6 H7. destruct labelled_recipe as [l0 Hl0].
  destruct (optional_inhabited (texts g n SCHEMA_url)) as [v1 H1].
  destruct (optional_inhabited (ratings g n)) as [v2 H2].
  destruct (optional_inhabited (ints g n REC_hasTotalTime)) as [v3 H3].
  exists {| Detail.v_label := l0; Detail.v_url := v1; Detail.v_rating := v2;
            Detail.v_totalTime := v3; Detail.v_ingredientLabel := v4;
            Detail.v_direction := v5; Detail.v_dietLabel := v6;
            Detail.v_cuisineLabel := v7 |}.
  split; [|done]. apply elem_of_detail_query. cbn.
  split; [by apply elem_of_texts|done].
Qed.

Lemma detail_rows_ingredient l :
  (∃ r, r ∈ Detail.query g n ∧ Detail.v_ingredientLabel r = Some l) ↔
    associated g n REC_hasIngredient l.
Proof.
  split.
  - intros (r & (_&_&_&_&Hv&_)%elem_of_detail_query & Hl). rewrite Hl in Hv.
    apply elem_of_optional in Hv as [[_ ?]|(x & [= <-] & Hx)]; [done|].
    by apply elem_of_labelled.
  - intros Hl%elem_of_labelled%optional_some.
    destruct (optional_inhabited (labelled g n SCHEMA_step)) as [v5 H5].
    destruct (optional_inhabited (labelled g n REC_hasDiet)) as [v6 H6].
    destruct (optional_inhabited (labelled g n REC_hasCuisine)) as [v7 H7].
    destruct (detail_row_exists _ _ _ _ Hl H5 H6 H7) as (r & ? & ? & _).
    eauto.
Qed.

Lemma detail_rows_direction l :
  (∃ r, r ∈ Detail.query g n ∧ Detail.v_direction r = Some l) ↔
    associated g n SCHEMA_step l.
Proof.
  split.
  - intros (r & (_&_&_&_&_&Hv&_)%elem_of_detail_query & Hl). rewrite Hl in Hv.
    apply elem_of_optional in Hv as [[_ ?]|(x & [= <-] & Hx)]; [done|].
    by apply elem_of_labelled.
  - intros Hl%elem_of_labelled%optional_some.
    destruct (optional_inhabited (labelled g n REC_hasIngredient)) as [v4 H4].
    destruct (optional_inhabited (labelled g n REC_hasDiet)) as [v6 H6].
    destruct (optional_inhabited (labelled g n REC_hasCuisine)) as [v7 H7].
    destruct (detail_row_exists _ _ _ _ H4 Hl H6 H7) as (r & ? & _ & ? & _).
    eauto.
Qed.

Lemma detail_rows_diet l :
  (∃ r, r ∈ Detail.query g n ∧ Detail.v_dietLabel r = Some l) ↔
    associated g n REC_hasDiet l.
Proof.
  split.
  - intros (r & (_&_&_&_&_&_&Hv&_)%elem_of_detail_query & Hl).
    rewrite Hl in Hv.
    apply elem_of_optional in Hv as [[_ ?]|(x & [= <-] & Hx)]; [done|].
    by apply elem_of_labelled.
  - intros Hl%elem_of_labelled%optional_some.
    destruct (optional_inhabited (labelled g n REC_hasIngredient)) as [v4 H4].
    destruct (optional_inhabited (labelled g n SCHEMA_step)) as [v5 H5].
    destruct (optional_inhabited (labelled g n REC_hasCuisine)) as [v7 H7].
    destruct (detail_row_exists _ _ _ _ H4 H5 Hl H7) as (r & ? & _ & _ & ? & _).
    eauto.
Qed.

Lemma detail_rows_cuisine l :
  (∃ r, r ∈ Detail.query g n ∧ Detail.v_cuisineLabel r = Some l) ↔
    associated g n REC_hasCuisine l.
Proof.
  split.
  - intros (r & (_&_&_&_&_&_&_&Hv)%elem_of_detail_query & Hl).
    rewrite Hl in Hv.
    apply elem_of_optional in Hv as [[_ ?]|(x & [= <-] & Hx)]; [done|].
    by apply elem_of_labelled.
  - intros Hl%elem_of_labelled%optional_some.
    destruct (optional_inhabited (labelled g n REC_hasIngredient)) as [v4 H4].
    destruct (optional_inhabited (labelled g n SCHEMA_step)) as [v5 H5].
    destruct (optional_inhabited (labelled g n REC_hasDiet)) as [v6 H6].
    destruct (detail_row_exists _ _ _ _ H4 H5 H6 Hl) as (r & ? & _ & _ & _ & ?).
    eauto.
Qed.

End detail_rows.

Lemma detail_query_labelled g n r rest :
  Detail.query g n = r :: rest → ∃ l0, Text n RDFS_label l0 ∈ g.
Proof.
  intros Hq. exists (Detail.v_label r). apply elem_of_texts.
  assert (r ∈ Detail.query g n) as Hin
    by (rewrite Hq; apply elem_of_cons; by left).
  by apply elem_of_detail_query in Hin as [? _].
Qed.

(** Whenever [recipe_detail] returns a record, each of its four lists holds
    exactly the non-empty labels of the nodes the recipe is linked to in the
    store by the corresponding property. *)
Theorem recipe_detail_list_members g recipe_uri d :
  recipe_detail g recipe_uri = Returns (Some d) →
  let recipe := URIRef recipe_uri in
  (∀ l, l ∈ ingredients d ↔
        l ≠ EmptyString ∧ associated g recipe REC_hasIngredient l)
  ∧ (∀ l, l ∈ directions d ↔
          l ≠ EmptyString ∧ associated g recipe SCHEMA_step l)
  ∧ (∀ l, l ∈ diets d ↔
          l ≠ EmptyString ∧ associated g recipe REC_hasDiet l)
  ∧ (∀ l, l ∈ cuisines d ↔
          l ≠ EmptyString ∧ associated g recipe REC_hasCuisine l).
Proof.
  intros (first & rows & Hq & ->)%recipe_detail_returns. cbv zeta.
  pose proof (detail_query_labelled _ _ _ _ Hq) as Hl.
  destruct (collect_fields (first :: rows)
              (Detail.initial recipe_uri first)) as (-> & -> & -> & ->).
  simpl ingredients. simpl directions. simpl diets. simpl cuisines.
  rewrite !append_new_first_seen, <- Hq.
  split; [|split; [|split]]; intros l;
    rewrite first_seen_elem_of, elem_of_encountered.
  - by rewrite detail_rows_ingredient.
  - by rewrite detail_rows_direction.
  - by rewrite detail_rows_diet.
  - by rewrite detail_rows_cuisine.
Qed.

Lemma recipe_detail_list_members_witness :
  ∃ d, recipe_detail sample_store
         "http://example.org/recipes#recipe-water" = Returns (Some d)
       ∧ ∀ l, l ∈ diets d ↔
              l ≠ EmptyString
              ∧ associated sample_store
                  (URIRef "http://example.org/recipes#recipe-water")
                  REC_hasDiet l.
Proof.
  eexists. split; [vm_compute; reflexivity|].
  apply (recipe_detail_list_members sample_store
           "http://example.org/recipes#recipe-water").
  vm_compute. reflexivity.
Defined.

(** Whenever [recipe_detail] returns a record, its identifier is the argument
    and its label, url, rating and total time are the first ones the store
    holds for the recipe, except that an empty url, a zero rating and a zero
    total time are reported as absent. *)
Theorem recipe_detail_scalars g recipe_uri d :
  recipe_detail g recipe_uri = Returns (Some d) →
  let recipe := URIRef recipe_uri in
  uri d = recipe_uri
  ∧ Some (label d) = head (texts g recipe RDFS_label)
  ∧ url d = text_or_none (head (texts g recipe SCHEMA_url))
  ∧ rating d = float_or_none (head (ratings g recipe))
  ∧ total_time d = int_or_none (head (ints g recipe REC_hasTotalTime))
  ∧ url d ≠ Some EmptyString
  ∧ total_time d ≠ Some 0
  ∧ (∀ s, rating d ≠ Some (S754_zero s)).
Proof.
  intros (first & rows & Hq & ->)%recipe_detail_returns. cbv zeta.
  destruct (detail_query_first _ _ _ _ Hq) as (Hl & Hu & Hr & Ht).
  assert (∀ d0 rs,
            uri (foldl Detail.collect d0 rs) = uri d0
            ∧ label (foldl Detail.collect d0 rs) = label d0
            ∧ url (foldl Detail.collect d0 rs) = url d0
            ∧ rating (foldl Detail.collect d0 rs) = rating d0
            ∧ total_time (foldl Detail.collect d0 rs) = total_time d0) as Hc.
  { intros d0 rs. revert d0. induction rs as [|r rs IH]; intros d0; [done|].
    cbn [foldl]. by destruct (IH (Detail.collect d0 r)) as (-> & -> & -> & -> & ->). }
  destruct (Hc (Detail.initial recipe_uri first) (first :: rows))
    as (-> & -> & -> & -> & ->).
  cbn [Detail.initial uri label url rating total_time summary].
  rewrite Hu, Hr, Ht.
  split; [done|]. split; [done|]. split; [done|]. split; [done|].
  split; [done|]. split; [|split].
  - unfold text_or_none.
    by destruct (head (texts g (URIRef recipe_uri) SCHEMA_url)) as [[|??]|].
  - unfold int_or_none.
    by destruct (head (ints g (URIRef recipe_uri) REC_hasTotalTime))
      as [[| |]|].
  - intros s. unfold float_or_none.
    by destruct (head (ratings g (URIRef recipe_uri))) as [[| | |]|].
Qed.

Lemma recipe_detail_scalars_witness :
  ∃ d, recipe_detail sample_store
         "http://example.org/recipes#recipe-lentil-soup" = Returns (Some d)
       ∧ total_time d
         = int_or_none
             (head (ints sample_store
                      (URIRef "http://example.org/recipes#recipe-lentil-soup")
                      REC_hasTotalTime)).
Proof.
  eexists. split; [vm_compute; reflexivity|].
  apply (recipe_detail_scalars sample_store
           "http://example.org/recipes#recipe-lentil-soup").
  vm_compute. reflexivity.
Defined.

(** ** The outcomes of [recipe_detail] *)

Lemma iri_verbatim_cons c s :
  iri_verbatim (String c s) ↔
    iri_forbidden c = false ∧ c ≠ ascii_of_N 62 ∧ iri_verbatim s.
Proof.
  unfold iri_verbatim. cbn [in_angle_brackets].
  destruct (iri_forbidden c); [naive_solver|].
  case_bool_decide; [naive_solver|].
  destruct (in_angle_brackets s) as [r| |] eqn:Hs; simpl; [|naive_solver..].
  apply in_angle_brackets_returns in Hs as ->. naive_solver.
Qed.

Lemma in_angle_brackets_raises s :
  in_angle_brackets s = Raises ↔
    ∃ a c b, s = a +:+ String c b ∧ iri_verbatim a ∧ iri_forbidden c = true.
Proof.
  induction s as [|c0 s IH].
  { split; [done|]. intros ([|??] & c & b & Hs & _); done. }
  cbn [in_angle_brackets]. destruct (iri_forbidden c0) eqn:Hc0.
  { split; [|done]. intros _. by exists EmptyString, c0, s. }
  split.
  - case_bool_decide as Hgt; [done|].
    destruct (in_angle_brackets s) as [r| |] eqn:Hs; simpl; [done| |done].
    intros _. destruct (proj1 IH eq_refl) as (a & c & b & -> & Ha & Hc).
    exists (String c0 a), c, b. split; [done|]. split; [|done].
    by apply iri_verbatim_cons.
  - intros ([|c1 a] & c & b & Heq & Ha & Hc).
    { rewrite append_nil_l in Heq. injection Heq as -> ->. congruence. }
    rewrite append_cons in Heq. injection Heq as <- ->.
    apply iri_verbatim_cons in Ha as (_ & Hgt & Ha).
    rewrite bool_decide_eq_false_2 by done.
    rewrite (proj2 IH) by (by exists a, c, b). done.
Qed.

Lemma recipe_detail_cases g recipe_uri :
  (recipe_detail g recipe_uri = Raises ↔
     ∃ a c b, recipe_uri = a +:+ String c b
              ∧ iri_verbatim a ∧ iri_forbidden c = true)
  ∧ (recipe_detail g recipe_uri = Returns None ↔
       iri_verbatim recipe_uri
       ∧ ∀ l, Text (URIRef recipe_uri) RDFS_label l ∉ g)
  ∧ ((∃ d, recipe_detail g recipe_uri = Returns (Some d)) ↔
       iri_verbatim recipe_uri
       ∧ ∃ l, Text (URIRef recipe_uri) RDFS_label l ∈ g).
Proof.
  rewrite <- in_angle_brackets_raises.
  unfold recipe_detail, iri_verbatim.
  destruct (in_angle_brackets recipe_uri) as [iri| |] eqn:Hq; simpl;
    [|naive_solver..].
  apply in_angle_brackets_returns in Hq as ->.
  destruct (Detail.query g (URIRef recipe_uri)) as [|first rows] eqn:Hrows;
    (split; [done|]).
  - assert (∀ l, Text (URIRef recipe_uri) RDFS_label l ∉ g) as Hnone.
    { intros l Hl. by eapply detail_query_inhabited; eauto. }
    split; [done|]. split; [by intros [? ?]|]. intros [_ [l Hl]].
    by apply Hnone in Hl.
  - destruct (detail_query_labelled _ _ _ _ Hrows) as [l Hl].
    split; [|split; by eauto].
    split; [done|]. intros [_ Hnone]. by apply Hnone in Hl.
Qed.


(** ** [/api/recipes] *)


(** ** Listings *)

Lemma distinct_first_seen l : Listing.distinct l = first_seen l.
Proof.
  unfold Listing.distinct. rewrite append_loop_first_seen. cbn [app].
  apply filter_all. intros y _. apply not_elem_of_nil.
Qed.

Lemma elem_of_listing_rows g class n l :
  (n, l) ∈ Listing.rows g class ↔
    Link n RDF_type (REC class) ∈ g ∧ Text n RDFS_label l ∈ g.
Proof.
  unfold Listing.rows. rewrite elem_of_stable_sort.
  repeat setoid_rewrite list_elem_of_bind.
  setoid_rewrite list_elem_of_singleton.
  setoid_rewrite elem_of_subjects. setoid_rewrite elem_of_texts.
  naive_solver.
Qed.

Lemma elem_of_listing_labels g class l :
  l ∈ Listing.labels g class ↔
    ∃ n, Link n RDF_type (REC class) ∈ g ∧ Text n RDFS_label l ∈ g.
Proof.
  unfold Listing.labels.
  rewrite distinct_first_seen, first_seen_elem_of, list_elem_of_fmap.
  split.
  - intros ([n l'] & -> & Hin). exists n. by apply elem_of_listing_rows.
  - intros (n & Hin). exists (n, l). split; [done|].
    by apply elem_of_listing_rows.
Qed.

Lemma listing_labels_NoDup g class : NoDup (Listing.labels g class).
Proof. unfold Listing.labels. rewrite distinct_first_seen. apply first_seen_NoDup. Qed.

Lemma listing_labels_sorted g class :
  StronglySorted (λ a b, String.le (Py.lower a) (Py.lower b))
    (Listing.labels g class).
Proof.
  unfold Listing.labels. rewrite distinct_first_seen.
  eapply StronglySorted_sublist; [apply first_seen_sublist|].
  apply StronglySorted_fmap.
  eapply StronglySorted_impl;
    [|apply (stable_sort_strongly Listing.by_lcase_label)].
  - intros a b Hab. unfold Listing.by_lcase_label in Hab. unfold String.le.
    by rewrite Hab.
  - intros a b. apply String.leb_total.
  - intros a b c Hab Hbc. unfold Listing.by_lcase_label in *.
    apply Is_true_true. apply Is_true_true in Hab, Hbc.
    by etrans.
Qed.

(** [list_cuisines] returns the labels of the nodes of class [rec:Cuisine],
    each label once, ordered by its lower-cased text; [list_diets] does the
    same for the class [rec:DietType]. *)
Theorem list_cuisines_and_diets g :
  ((∀ l, l ∈ list_cuisines g ↔
         ∃ n, Link n RDF_type (REC "Cuisine") ∈ g ∧ Text n RDFS_label l ∈ g)
   ∧ NoDup (list_cuisines g)
   ∧ StronglySorted (λ a b, String.le (Py.lower a) (Py.lower b))
       (list_cuisines g))
  ∧ ((∀ l, l ∈ list_diets g ↔
           ∃ n, Link n RDF_type (REC "DietType") ∈ g ∧ Text n RDFS_label l ∈ g)
     ∧ NoDup (list_diets g)
     ∧ StronglySorted (λ a b, String.le (Py.lower a) (Py.lower b))
         (list_diets g)).
Proof.
  unfold list_cuisines, list_diets.
  split; (split; [intros l; apply elem_of_listing_labels|]);
    (split; [apply listing_labels_NoDup|apply listing_labels_sorted]).
Qed.

Lemma api_sorted_strongly labels : StronglySorted String.le (Api.sorted labels).
Proof.
  unfold Api.sorted.
  eapply StronglySorted_impl;
    [|apply (stable_sort_strongly String.leb)].
  - intros a b Hab. unfold String.le. by rewrite Hab.
  - intros a b. apply String.leb_total.
  - intros a b c Hab Hbc.
    apply Is_true_true. apply Is_true_true in Hab, Hbc.
    by etrans.
Qed.

Lemma api_sorted_perm labels : Api.sorted labels ≡ₚ labels.
Proof. apply stable_sort_perm. Qed.

Lemma api_sorted_listing g g' class :
  (∀ t, t ∈ g ↔ t ∈ g') →
  Api.sorted (Listing.labels g class) = Api.sorted (Listing.labels g' class).
Proof.
  intros Hsame.
  apply (StronglySorted_unique String.le); [apply api_sorted_strongly..|].
  rewrite !api_sorted_perm.
  apply NoDup_Permutation; [apply listing_labels_NoDup..|].
  intros l. rewrite !elem_of_listing_labels.
  by setoid_rewrite Hsame.
Qed.

(** [/api/cuisines] and [/api/diets] answer 200 with the labels that
    [list_cuisines] and [list_diets] return, each once, in the order of
    their code points; the answer depends on the set of triples of the store
    only, not on the order in which the store holds them. *)
Theorem api_listings g :
  ((Api.cuisines g).2 = 200
   ∧ (Api.cuisines g).1 ≡ₚ list_cuisines g
   ∧ NoDup (Api.cuisines g).1
   ∧ StronglySorted String.le (Api.cuisines g).1)
  ∧ ((Api.diets g).2 = 200
     ∧ (Api.diets g).1 ≡ₚ list_diets g
     ∧ NoDup (Api.diets g).1
     ∧ StronglySorted String.le (Api.diets g).1)
  ∧ (∀ g', (∀ t, t ∈ g ↔ t ∈ g') →
           Api.cuisines g' = Api.cuisines g ∧ Api.diets g' = Api.diets g).
Proof.
  unfold Api.cuisines, Api.diets, list_cuisines, list_diets. cbn [fst snd].
  split_and!; try done; try apply api_sorted_perm;
    try apply api_sorted_strongly.
  - rewrite api_sorted_perm. apply listing_labels_NoDup.
  - rewrite api_sorted_perm. apply listing_labels_NoDup.
  - intros g' Hsame.
    by rewrite !(api_sorted_listing g g' _ Hsame).
Qed.

(** ** Diets in terms of the ingredient labels *)

Lemma exact_grows_free g g' :
  exact_markers g → grows ingredient_free g g' → exact_markers g'.
Proof.
  intros [Hm Hs] Hgrows.
  assert (∀ t, t ∈ g' → ¬ ingredient_free t → t ∈ g) as Hold.
  { intros t Hin Hnf.
    by destruct (grows_elem_of _ _ _ _ Hgrows Hin). }
  assert (∀ t, t ∈ g → t ∈ g') as Hmono
    by (intros t; by eapply grows_subseteq).
  split.
  - intros l Hin Hk. apply Hmono, Hm; [|done].
    apply Hold; [done|]. simpl. by intros (? & _).
  - intros u Hin. apply Hs, Hold; [done|]. simpl. by intros (_ & ? & _).
Qed.

Lemma exact_annotate g l :
  exact_markers g → exact_markers (annotate_ingredient g l).1.
Proof.
  intros [Hm Hs].
  pose proof (annotate_ingredient_grows EmptyString g l) as Hgrows.
  assert (∀ t, t ∈ g → t ∈ (annotate_ingredient g l).1) as Hmono
    by (intros t; by eapply grows_subseteq).
  split.
  - intros l0 Hin Hk.
    apply annotate_ingredient_elem_of in Hin
      as [Hin|(Hnew & [Heq|[Heq|[[_ Heq]|[_ Heq]]]])]; try discriminate Heq.
    + by apply Hmono, Hm.
    + assert (ingredient_node l0 = ingredient_node l) as Hn by congruence.
      rewrite Hn. apply annotate_ingredient_elem_of. right. split; [done|].
      right. right. right. split; [|done].
      by rewrite <- (gluten_invariance _ _ Hn).
  - intros u Hin.
    apply annotate_ingredient_elem_of in Hin
      as [Hin|(_ & [Heq|[Heq|[[Hk Heq]|[Hk Heq]]]])]; try discriminate Heq.
    + by apply Hs.
    + exists l. split; [congruence|done].
Qed.

(** A property of the graph that the ingredient block keeps and that no
    other triple disturbs holds throughout the build. *)
Section preserved.
Context (I : graph → Prop).
Hypothesis I_free : ∀ g g', I g → grows ingredient_free g g' → I g'.
Hypothesis I_annotate : ∀ g l, I g → I (annotate_ingredient g l).1.

Lemma preserved_add_ingredients nm labels g0 uris0 :
  I g0 →
  I (foldl (λ '(g, ingredient_uris) ingredient,
              let '(g, ingredient_uri) := annotate_ingredient g ingredient in
              (add g (Link (recipe_node nm) REC_hasIngredient ingredient_uri),
               ingredient_uris ++ [ingredient_uri]))
           (g0, uris0) labels).1.
Proof.
  revert g0 uris0. induction labels as [|l labels IH]; intros g0 uris0 Hg0;
    [done|].
  cbn [foldl].
  pose proof (I_annotate g0 l Hg0) as Hc.
  pose proof (annotate_ingredient_node g0 l) as Hn.
  destruct (annotate_ingredient g0 l) as [g1 u]. cbn [fst snd] in Hc, Hn.
  subst u. apply IH. eapply I_free; [exact Hc|].
  apply grows_add. eapply (fact_ingredient_free nm Ingredients).
  - apply F_hasIngredient.
  - right. by eexists.
Qed.

Lemma preserved_phase nm ph g g' :
  ph ≠ Ingredients → I g → grows (fact nm ph) g g' → I g'.
Proof.
  intros Hph Hc Hg. eapply I_free; [done|].
  eapply grows_impl; [|exact Hg].
  intros t Ht. eapply fact_ingredient_free; [done|by left].
Qed.

Lemma preserved_ingredients g record :
  I g →
  I (add_ingredients (add_attributes g record) (recipe_node (name record))
       (rec_ingredients record)).1.
Proof.
  intros Hg. apply (preserved_add_ingredients (name record)).
  eapply (preserved_phase (name record) Attributes);
    [done|done|apply add_attributes_grows].
Qed.

Lemma preserved_populate_record g bnodes record :
  I g → I (populate_record (g, bnodes) record).1.
Proof.
  intros Hc. destruct (decide (name record = EmptyString)) as [Hn|Hn].
  { by rewrite populate_record_empty_name. }
  rewrite populate_record_unfold by done. cbv zeta. cbn [fst].
  eapply I_free; [|eapply grows_impl; [|apply add_cuisines_grows]].
  2:{ intros t [Ht|Ht]; (eapply fact_ingredient_free; [done|by left]). }
  eapply (preserved_phase (name record) Directions);
    [done| |apply add_directions_grows].
  eapply (preserved_phase (name record) Diets);
    [done| |apply infer_diets_grows].
  by apply preserved_ingredients.
Qed.

Lemma preserved_populate_graph records g bnodes :
  I g → I (populate_graph (g, bnodes) records).1.
Proof.
  revert g bnodes. unfold populate_graph.
  induction records as [|r records IH]; intros g bnodes Hc; [done|].
  cbn [foldl]. pose proof (preserved_populate_record g bnodes r Hc) as Hc'.
  destruct (populate_record (g, bnodes) r) as [g' b']. by apply IH.
Qed.

End preserved.

Lemma exact_schema : exact_markers (add_ontology_schema []).
Proof.
  apply (exact_grows_free []).
  - split; [by intros l ?%elem_of_nil|by intros u ?%elem_of_nil].
  - exists (add_ontology_schema []). split; [done|].
    apply schema_ingredient_free.
Qed.

(** The markers of the ingredients of a record, once the ingredient block
    has run. *)
Section markers.
Context (g : graph) (record : RecipeRecord).
Hypothesis g_coherent : coherent g.
Hypothesis g_exact : exact_markers g.

Let recipe_uri := recipe_node (name record).
Let g2 := (add_ingredients (add_attributes g record) recipe_uri
             (rec_ingredients record)).1.
Let uris := ingredient_node <$> rec_ingredients record.

Lemma ingredients_typed l :
  l ∈ rec_ingredients record →
  Link (ingredient_node l) RDF_type (REC "Ingredient") ∈ g2.
Proof.
  pose proof (add_ingredients_coherent (name record) (rec_ingredients record)
                (add_attributes g record) []) as [_ Htyped].
  apply Htyped.
Qed.

Lemma ingredients_coherent : coherent g2.
Proof. by apply (preserved_ingredients coherent coherent_grows_free coherent_annotate). Qed.

Lemma ingredients_exact : exact_markers g2.
Proof. by apply (preserved_ingredients exact_markers exact_grows_free exact_annotate). Qed.

Lemma any_marked_spec category uris0 :
  any_marked g2 category uris0 = true ↔
    ∃ u, u ∈ uris0 ∧ Link u RDF_type (REC category) ∈ g2.
Proof.
  unfold any_marked. rewrite existsb_exists. unfold has.
  setoid_rewrite bool_decide_eq_true. by setoid_rewrite list_elem_of_In.
Qed.

Lemma has_animal_spec :
  any_marked g2 "AnimalProduct" uris = true ↔
    some_keyword ANIMAL_PRODUCTS (rec_ingredients record).
Proof.
  rewrite any_marked_spec. unfold uris, some_keyword.
  destruct ingredients_coherent as [Ha _ _ _].
  destruct ingredients_exact as [_ Hs].
  split.
  - intros (u & (l & -> & Hl)%list_elem_of_fmap & Hin).
    destruct (Hs _ Hin) as (l0 & Hn & Hk).
    exists l. split; [done|]. by rewrite (animal_invariance _ _ Hn).
  - intros (l & Hl & Hk). exists (ingredient_node l).
    split; [by apply list_elem_of_fmap_2|].
    apply Ha; [by apply ingredients_typed|done].
Qed.

Lemma has_gluten_spec :
  any_marked g2 "GlutenIngredient" uris = true ↔
    some_keyword GLUTEN_GRAINS (rec_ingredients record).
Proof.
  rewrite any_marked_spec. unfold uris, some_keyword.
  destruct ingredients_coherent as [_ Hs _ _].
  destruct ingredients_exact as [Hm _].
  split.
  - intros (u & (l & -> & Hl)%list_elem_of_fmap & Hin).
    destruct (Hs _ Hin) as (l0 & Hn & Hk).
    exists l. split; [done|]. by rewrite (gluten_invariance _ _ Hn).
  - intros (l & Hl & Hk). exists (ingredient_node l).
    split; [by apply list_elem_of_fmap_2|].
    apply Hm; [by apply ingredients_typed|done].
Qed.

Lemma has_meat_spec :
  has_meat g2 uris = true ↔ some_keyword MEATS (rec_ingredients record).
Proof.
  unfold has_meat, some_keyword, uris, Py.any_in.
  destruct ingredients_coherent as [_ _ Hfirst _].
  rewrite existsb_exists. setoid_rewrite existsb_exists.
  setoid_rewrite <- list_elem_of_In.
  assert (∀ tok, tok ∈ MEATS → slug_token tok = true) as Hslug.
  { intros tok Htok.
    destruct keywords_are_slugs as (_ & _ & Hm).
    rewrite forallb_forall in Hm. by apply Hm, list_elem_of_In. }
  split.
  - intros (u & (l & -> & Hl)%list_elem_of_fmap & tok & Htok & Hc).
    destruct (Hfirst l (ingredients_typed l Hl)) as (l' & Hv & Hn).
    rewrite Hv in Hc. apply andb_true_iff in Hc as [_ Hc].
    exists l. split; [done|]. exists tok. split; [done|].
    by rewrite <- (keyword_invariance tok l' l (Hslug tok Htok) Hn).
  - intros (l & Hl & tok & Htok & Hc).
    exists (ingredient_node l). split; [by apply list_elem_of_fmap_2|].
    exists tok. split; [done|].
    destruct (Hfirst l (ingredients_typed l Hl)) as (l' & Hv & Hn).
    rewrite Hv.
    rewrite <- (keyword_invariance tok l' l (Hslug tok Htok) Hn) in Hc.
    rewrite Hc, andb_true_r.
    destruct l' as [|c l']; [|done].
    cbn [Py.lower] in Hc. rewrite contains_nil, prefix_nil_r in Hc.
    pose proof (Hslug tok Htok) as Ht. unfold slug_token in Ht.
    apply andb_true_iff in Ht as [Ht _]. by rewrite Ht in Hc.
Qed.

End markers.

Lemma infer_diets_diet g recipe_uri uris o :
  Link recipe_uri REC_hasDiet o ∈ infer_diets g recipe_uri uris ↔
    Link recipe_uri REC_hasDiet o ∈ g
    ∨ (o = REC "Vegan" ∧ any_marked g "AnimalProduct" uris = false)
    ∨ (o = REC "Vegetarian"
       ∧ (any_marked g "AnimalProduct" uris = false
          ∨ has_meat g uris = false))
    ∨ (o = REC "GlutenFree" ∧ any_marked g "GlutenIngredient" uris = false).
Proof.
  assert (∀ o', Link recipe_uri REC_hasDiet o = Link recipe_uri REC_hasDiet o'
                ↔ o = o') as Heq by (intros o'; split; congruence).
  unfold infer_diets. cbv zeta.
  destruct (any_marked g "AnimalProduct" uris),
    (any_marked g "GlutenIngredient" uris), (has_meat g uris);
    cbn [negb]; rewrite ?elem_of_add, ?Heq;
    (split; [intros H|intros H]; intuition congruence).
Qed.

Lemma infer_diets_avoids g recipe_uri uris o :
  Link recipe_uri REC_avoidsIngredientCategory o
  ∈ infer_diets g recipe_uri uris ↔
    Link recipe_uri REC_avoidsIngredientCategory o ∈ g
    ∨ (o = REC "AnimalProduct" ∧ any_marked g "AnimalProduct" uris = true)
    ∨ (o = REC "GlutenIngredient"
       ∧ any_marked g "GlutenIngredient" uris = true).
Proof.
  assert (∀ o', Link recipe_uri REC_avoidsIngredientCategory o
                = Link recipe_uri REC_avoidsIngredientCategory o'
                ↔ o = o') as Heq by (intros o'; split; congruence).
  unfold infer_diets. cbv zeta.
  destruct (any_marked g "AnimalProduct" uris),
    (any_marked g "GlutenIngredient" uris), (has_meat g uris);
    cbn [negb]; rewrite ?elem_of_add, ?Heq;
    (split; [intros H|intros H]; intuition congruence).
Qed.

Lemma fact_inferred nm ph s p o :
  inferred p → fact nm ph (Link s p o) → ph = Diets ∧ s = recipe_node nm.
Proof. intros [-> | ->]; by inversion 1. Qed.

Lemma schema_no_inferred s p o :
  inferred p → Link s p o ∉ add_ontology_schema [].
Proof.
  intros [-> | ->] H; vm_compute in H;
    repeat (apply elem_of_cons in H as [H|H]; [discriminate H|]);
    by apply elem_of_nil in H.
Qed.

Lemma populate_graph_frame_inferred records g bnodes s p o :
  inferred p →
  (∀ r, r ∈ records → name r ≠ EmptyString → recipe_node (name r) ≠ s) →
  Link s p o ∈ (populate_graph (g, bnodes) records).1 →
  Link s p o ∈ g.
Proof.
  intros Hp Hother [?|(r & ph & Hr & Hn & Hf)]%populate_graph_elem_of; [done|].
  apply (fact_inferred _ _ _ _ _ Hp) in Hf as [_ ->].
  by destruct (Hother r Hr Hn).
Qed.

Lemma populate_record_inferred g bnodes record p o :
  inferred p →
  name record ≠ EmptyString →
  let recipe_uri := recipe_node (name record) in
  let g2 := (add_ingredients (add_attributes g record) recipe_uri
               (rec_ingredients record)).1 in
  let uris := ingredient_node <$> rec_ingredients record in
  Link recipe_uri p o ∈ (populate_record (g, bnodes) record).1 ↔
    Link recipe_uri p o ∈ infer_diets g2 recipe_uri uris.
Proof.
  intros Hp Hname. cbv zeta.
  rewrite populate_record_unfold by done. cbv zeta. cbn [fst].
  rewrite add_ingredients_uris.
  set (g1 := add_attributes g record).
  set (g2 := (add_ingredients g1 _ _).1).
  set (g3 := infer_diets g2 _ _).
  set (g4 := (add_directions g3 _ _ _).1).
  pose proof (add_directions_grows (name record) g3 bnodes
                (rec_directions record)) as H4. fold g4 in H4.
  pose proof (add_cuisines_grows g4 record) as H5.
  split.
  - intros Hin.
    destruct (grows_elem_of _ _ _ _ H5 Hin) as [Hin4|[Hf|Hf]];
      [|by apply (fact_inferred _ _ _ _ _ Hp) in Hf as [? _]..].
    destruct (grows_elem_of _ _ _ _ H4 Hin4) as [Hin3|Hf];
      [done|by apply (fact_inferred _ _ _ _ _ Hp) in Hf as [? _]].
  - intros Hin.
    eapply grows_subseteq; [exact H5|].
    by eapply grows_subseteq.
Qed.

Lemma before_inferred g record p o :
  inferred p →
  let recipe_uri := recipe_node (name record) in
  let g2 := (add_ingredients (add_attributes g record) recipe_uri
               (rec_ingredients record)).1 in
  Link recipe_uri p o ∈ g2 ↔ Link recipe_uri p o ∈ g.
Proof.
  intros Hp. cbv zeta.
  pose proof (add_ingredients_grows (name record) (add_attributes g record)
                (rec_ingredients record)) as H2.
  pose proof (add_attributes_grows g record) as H1.
  split.
  - intros Hin.
    destruct (grows_elem_of _ _ _ _ H2 Hin) as [Hin1|Hf];
      [|by apply (fact_inferred _ _ _ _ _ Hp) in Hf as [? _]].
    destruct (grows_elem_of _ _ _ _ H1 Hin1) as [?|Hf];
      [done|by apply (fact_inferred _ _ _ _ _ Hp) in Hf as [? _]].
  - intros Hin. eapply grows_subseteq; [exact H2|].
    by eapply grows_subseteq.
Qed.

Lemma not_some_keyword tokens labels :
  ¬ some_keyword tokens labels ↔ no_keyword tokens labels.
Proof.
  unfold some_keyword, no_keyword. split.
  - intros Hno l Hl. destruct (Py.any_in tokens (Py.lower l)) eqn:E; [|done].
    destruct Hno; eauto.
  - intros Hno (l & Hl & Hk). by rewrite (Hno l Hl) in Hk.
Qed.

Lemma marked_false_iff b tokens labels :
  (b = true ↔ some_keyword tokens labels) →
  b = false ↔ no_keyword tokens labels.
Proof.
  intros Hb. rewrite <- not_some_keyword, <- Hb. by destruct b.
Qed.

Lemma meats_are_animal labels :
  no_keyword ANIMAL_PRODUCTS labels → no_keyword MEATS labels.
Proof.
  intros Hno l Hl. specialize (Hno l Hl).
  unfold Py.any_in, ANIMAL_PRODUCTS, MEATS in *.
  cbn [existsb] in *.
  repeat (apply orb_false_iff in Hno as [? Hno]).
  repeat (apply orb_false_iff; split); done.
Qed.

(** What processing one record does to the diets of its recipe. *)
Lemma populate_record_diets_exact g bnodes record :
  coherent g → exact_markers g →
  name record ≠ EmptyString →
  let recipe_uri := recipe_node (name record) in
  let g' := (populate_record (g, bnodes) record).1 in
  let labels := rec_ingredients record in
  (∀ o, Link recipe_uri REC_hasDiet o ∈ g' ↔
        Link recipe_uri REC_hasDiet o ∈ g
        ∨ (o = REC "Vegan" ∧ no_keyword ANIMAL_PRODUCTS labels)
        ∨ (o = REC "Vegetarian" ∧ no_keyword MEATS labels)
        ∨ (o = REC "GlutenFree" ∧ no_keyword GLUTEN_GRAINS labels))
  ∧ (∀ o, Link recipe_uri REC_avoidsIngredientCategory o ∈ g' ↔
          Link recipe_uri REC_avoidsIngredientCategory o ∈ g
          ∨ (o = REC "AnimalProduct" ∧ some_keyword ANIMAL_PRODUCTS labels)
          ∨ (o = REC "GlutenIngredient"
             ∧ some_keyword GLUTEN_GRAINS labels)).
Proof.
  intros Hc He Hname. cbv zeta.
  pose proof (has_animal_spec g record Hc He) as Ha.
  pose proof (has_gluten_spec g record Hc He) as Hg.
  pose proof (has_meat_spec g record Hc) as Hm.
  pose proof (marked_false_iff _ _ _ Ha) as Ha'.
  pose proof (marked_false_iff _ _ _ Hg) as Hg'.
  pose proof (marked_false_iff _ _ _ Hm) as Hm'.
  split; intros o.
  - rewrite (populate_record_inferred g bnodes record REC_hasDiet o)
      by (by left || done).
    rewrite infer_diets_diet, (before_inferred g record) by by left.
    rewrite Ha', Hg', Hm'.
    pose proof (meats_are_animal (rec_ingredients record)). tauto.
  - rewrite (populate_record_inferred g bnodes record
               REC_avoidsIngredientCategory o) by (by right || done).
    rewrite infer_diets_avoids, (before_inferred g record) by by right.
    by rewrite Ha, Hg.
Qed.

Lemma diet_nodes_distinct :
  REC "Vegan" ≠ REC "Vegetarian" ∧ REC "Vegan" ≠ REC "GlutenFree"
  ∧ REC "Vegetarian" ≠ REC "GlutenFree"
  ∧ REC "AnimalProduct" ≠ REC "GlutenIngredient".
Proof. split_and!; intros H%REC_inj; discriminate H. Qed.

Lemma populate_record_diets_granted g bnodes record :
  coherent g → exact_markers g →
  name record ≠ EmptyString →
  diets_granted (populate_record (g, bnodes) record).1 record.
Proof.
  intros Hc He Hname.
  destruct (populate_record_diets_exact g bnodes record Hc He Hname)
    as [Hd Ha].
  unfold diets_granted. cbv zeta.
  split_and!; intros Hk; first [apply Hd|apply Ha]; tauto.
Qed.

Lemma populate_record_diets_consistent g bnodes record :
  coherent g → exact_markers g →
  diets_consistent g →
  diets_consistent (populate_record (g, bnodes) record).1.
Proof.
  intros Hc He [Hthree Hveg].
  destruct (decide (name record = EmptyString)) as [Hname|Hname].
  { by rewrite populate_record_empty_name. }
  destruct (populate_record_diets_exact g bnodes record Hc He Hname)
    as [Hd _].
  pose proof (populate_record_grows g bnodes record Hname) as Hgrows.
  assert (∀ s o, Link s REC_hasDiet o ∈ (populate_record (g, bnodes) record).1 →
                 Link s REC_hasDiet o ∈ g ∨ s = recipe_node (name record))
    as Hnew.
  { intros s o Hin.
    destruct (grows_elem_of _ _ _ _ Hgrows Hin) as [?|[ph Hf]]; [by left|].
    right. by apply diet_subject in Hf. }
  split.
  - intros s o Hin. destruct (Hnew s o Hin) as [Hold| ->]; [by eapply Hthree|].
    apply Hd in Hin as [Hold|[[-> _]|[[-> _]|[-> _]]]]; eauto.
  - intros s Hin. destruct (Hnew s _ Hin) as [Hold| ->].
    { eapply grows_subseteq; [exact Hgrows|]. by apply Hveg. }
    destruct diet_nodes_distinct as (H1 & H2 & H3 & _).
    apply Hd in Hin as [Hold|[[_ Hk]|[[? _]|[? _]]]]; [| |done..].
    + eapply grows_subseteq; [exact Hgrows|]. by apply Hveg.
    + apply Hd. right. right. left. split; [done|].
      by apply meats_are_animal.
Qed.

Lemma populate_graph_diets_consistent records g bnodes :
  coherent g → exact_markers g →
  diets_consistent g →
  diets_consistent (populate_graph (g, bnodes) records).1.
Proof.
  revert g bnodes. unfold populate_graph.
  induction records as [|r records IH]; intros g bnodes Hc He Hd; [done|].
  cbn [foldl].
  pose proof (coherent_populate_record g bnodes r Hc) as Hc'.
  pose proof (preserved_populate_record exact_markers exact_grows_free
                exact_annotate g bnodes r He) as He'.
  pose proof (populate_record_diets_consistent g bnodes r Hc He Hd) as Hd'.
  destruct (populate_record (g, bnodes) r) as [g' b']. by apply IH.
Qed.

Lemma build_graph_split before record after :
  ∃ g b g' b',
    populate_graph (add_ontology_schema [], 0%nat) before = (g, b)
    ∧ populate_record (g, b) record = (g', b')
    ∧ build_graph (before ++ record :: after) = (populate_graph (g', b') after).1
    ∧ coherent g ∧ exact_markers g.
Proof.
  pose proof (coherent_populate_graph before (add_ontology_schema []) 0%nat
                coherent_schema) as Hc.
  pose proof (preserved_populate_graph exact_markers exact_grows_free
                exact_annotate before (add_ontology_schema []) 0%nat
                exact_schema) as He.
  destruct (populate_graph (add_ontology_schema [], 0%nat) before)
    as [g b] eqn:Hbefore.
  destruct (populate_record (g, b) record) as [g' b'] eqn:Hrec.
  exists g, b, g', b'. split; [done|]. split; [done|]. split; [|done].
  unfold build_graph.
  change (before ++ record :: after) with (before ++ [record] ++ after).
  rewrite !populate_graph_app, Hbefore.
  change (populate_graph (g, b) [record]) with (populate_record (g, b) record).
  by rewrite Hrec.
Qed.

(** In the store built from any batch of records, every diet of a recipe is
    one of Vegan, Vegetarian and GlutenFree and belongs to the recipe of a
    named record, a Vegan recipe is Vegetarian as well, and the recipe of
    every named record has the diets and the avoided categories that the
    ingredient labels of the record call for: Vegan when no label contains
    an animal-product keyword, Vegetarian when none contains a meat token,
    GlutenFree when none contains a gluten keyword, so all three when the
    record has no ingredient. *)
Theorem build_graph_diets records :
  let g := build_graph records in
  diets_consistent g
  ∧ (∀ s o, Link s REC_hasDiet o ∈ g →
            ∃ record, record ∈ records ∧ name record ≠ EmptyString
                      ∧ s = recipe_node (name record))
  ∧ (∀ record, record ∈ records → name record ≠ EmptyString →
               diets_granted g record)
  ∧ (∀ record, record ∈ records → name record ≠ EmptyString →
               rec_ingredients record = [] →
               ∀ o, o ∈ [ REC "Vegan"; REC "Vegetarian"; REC "GlutenFree" ] →
                    Link (recipe_node (name record)) REC_hasDiet o ∈ g).
Proof.
  cbv zeta.
  assert (∀ record, record ∈ records → name record ≠ EmptyString →
                    diets_granted (build_graph records) record) as Hgranted.
  { intros record (before & after & ->)%list_elem_of_split Hname.
    destruct (build_graph_split before record after)
      as (g & b & g' & b' & _ & Hrec & -> & Hc & He).
    pose proof (populate_record_diets_granted g b record Hc He Hname) as Hg.
    rewrite Hrec in Hg. cbn [fst] in Hg.
    unfold diets_granted in *. cbv zeta in *.
    destruct Hg as (H1 & H2 & H3 & H4 & H5).
    split_and!; intros Hk; apply populate_graph_subseteq; auto. }
  split; [|split; [|split; [done|]]].
  - apply populate_graph_diets_consistent;
      [apply coherent_schema|apply exact_schema|].
    split; intros s; [intros o|]; intros Hin; by apply schema_no_diet in Hin.
  - intros s o [Hin|(r & ph & Hr & Hn & Hf)]%populate_graph_elem_of.
    + by apply schema_no_diet in Hin.
    + apply diet_subject in Hf. eauto.
  - intros record Hin Hname Hnil o Ho.
    destruct (Hgranted record Hin Hname) as (H1 & H2 & H3 & _).
    assert (∀ tokens, no_keyword tokens (rec_ingredients record)) as Hno.
    { intros tokens l Hl. rewrite Hnil in Hl. by apply elem_of_nil in Hl. }
    repeat (apply elem_of_cons in Ho as [->|Ho]; [by auto|]).
    by apply elem_of_nil in Ho.
Qed.

(** When no other record of the batch has a name with the same identifier,
    the recipe of a named record has in the built store exactly the diets
    and avoided categories that its ingredient labels call for: Vegan
    exactly when no label contains an animal-product keyword, Vegetarian
    exactly when none contains a meat token, GlutenFree exactly when none
    contains a gluten keyword, and it avoids a category exactly when some
    label contains a keyword of it. *)
Theorem diets_follow_ingredient_labels before record after :
  name record ≠ EmptyString →
  (∀ r, r ∈ before ++ after → name r ≠ EmptyString →
        recipe_node (name r) ≠ recipe_node (name record)) →
  diets_follow_labels (build_graph (before ++ record :: after)) record.
Proof.
  intros Hname Hother.
  destruct (build_graph_split before record after)
    as (g & b & g' & b' & Hbefore & Hrec & HG & Hc & He).
  assert (∀ p o, inferred p →
            Link (recipe_node (name record)) p o
            ∈ build_graph (before ++ record :: after) ↔
              Link (recipe_node (name record)) p o ∈ g') as Hframe.
  { intros p o Hp. rewrite HG. split.
    - apply (populate_graph_frame_inferred _ _ _ _ _ _ Hp).
      intros r Hr. apply Hother, elem_of_app. by right.
    - apply populate_graph_subseteq. }
  assert (∀ p o, inferred p → Link (recipe_node (name record)) p o ∉ g)
    as Hfresh.
  { intros p o Hp Hin.
    assert (g = (populate_graph (add_ontology_schema [], 0%nat) before).1)
      as Hg by by rewrite Hbefore.
    rewrite Hg in Hin.
    apply (populate_graph_frame_inferred _ _ _ _ _ _ Hp) in Hin.
    - by apply (schema_no_inferred _ _ _ Hp) in Hin.
    - intros r Hr. apply Hother, elem_of_app. by left. }
  destruct (populate_record_diets_exact g b record Hc He Hname) as [Hd Ha].
  rewrite Hrec in Hd, Ha. cbn [fst] in Hd, Ha.
  destruct diet_nodes_distinct as (H1 & H2 & H3 & H4).
  pose proof (Hfresh REC_hasDiet) as Hfd.
  pose proof (Hfresh REC_avoidsIngredientCategory) as Hfa.
  unfold diets_follow_labels. cbv zeta.
  rewrite !(Hframe REC_hasDiet) by by left.
  rewrite !(Hframe REC_avoidsIngredientCategory) by by right.
  rewrite !Hd, !Ha.
  split_and!; (split; [intros [Hin|Hin]|intros Hk]);
    try (by (apply Hfd in Hin; [done|by left]));
    try (by (apply Hfa in Hin; [done|by right]));
    try (intuition congruence); tauto.
Qed.

Lemma diets_follow_ingredient_labels_witness :
  diets_follow_labels (build_graph [ lentil_soup; chicken_broth; water ])
    chicken_broth.
Proof.
  apply (diets_follow_ingredient_labels [ lentil_soup ] chicken_broth [ water ]).
  - done.
  - intros r Hr _.
    apply elem_of_cons in Hr as [->|Hr];
      [|apply list_elem_of_singleton in Hr as ->]; by vm_compute.
Defined.

(** ** From the builder to the queries *)

Lemma record_in_build records record t :
  record ∈ records →
  (∀ g b, t ∈ (populate_record (g, b) record).1) →
  t ∈ build_graph records.
Proof.
  intros (before & after & ->)%list_elem_of_split Hin.
  destruct (build_graph_split before record after)
    as (g & b & g' & b' & _ & Hrec & -> & _).
  apply populate_graph_subseteq.
  specialize (Hin g b). by rewrite Hrec in Hin.
Qed.

Lemma add_attributes_label g record :
  Text (recipe_node (name record)) RDFS_label (name record)
  ∈ add_attributes g record.
Proof.
  unfold add_attributes. cbv zeta. rewrite !add_int_elem_of.
  do 4 left.
  assert (∀ g0 : graph, Text (recipe_node (name record)) RDFS_label
                          (name record) ∈ g0 →
            Text (recipe_node (name record)) RDFS_label (name record)
            ∈ match rec_rating record with
              | Some r => add g0 (Rating (recipe_node (name record)) r)
              | None => g0
              end) as Hrating.
  { intros g0 Hin. destruct (rec_rating record); [|done].
    apply elem_of_add. by left. }
  apply Hrating.
  destruct (text_or_none (rec_url record));
    rewrite ?elem_of_add; auto.
Qed.

Lemma build_graph_label records record :
  record ∈ records → name record ≠ EmptyString →
  Text (recipe_node (name record)) RDFS_label (name record)
  ∈ build_graph records.
Proof.
  intros Hin Hname. apply (record_in_build _ record); [done|].
  intros g b. apply populate_record_attributes; [done|].
  apply add_attributes_label.
Qed.

Lemma build_graph_recipe_of records n :
  recipe_of (build_graph records) n ↔
    ∃ record, record ∈ records ∧ name record ≠ EmptyString
              ∧ n = recipe_node (name record).
Proof.
  unfold recipe_of. rewrite build_graph_recipes. split; [tauto|].
  intros (record & Hin & Hname & ->). split; [by eauto|].
  exists (name record). by apply build_graph_label.
Qed.



Lemma slug_char_plain c :
  is_slug_char c = true ∨ c = HYPHEN →
  iri_forbidden c = false ∧ c ≠ ascii_of_N 62
  ∧ c ≠ LF ∧ c ≠ CR ∧ c ≠ DQUOTE ∧ c ≠ BACKSLASH.
Proof.
  destruct c as [[] [] [] [] [] [] [] []]; vm_compute;
    (intros [H|H]; [|try discriminate H]);
    try discriminate H; split_and!; done.
Qed.

Lemma slug_body_iri after_hyphen s :
  slug_body after_hyphen s = true → iri_verbatim s.
Proof.
  revert after_hyphen. induction s as [|c s IH]; intros b; [done|].
  cbn [slug_body]. intros Hs. apply iri_verbatim_cons.
  destruct (is_hyphen c) eqn:Hh.
  - apply andb_true_iff in Hs as [_ Hs].
    destruct (slug_char_plain c) as (? & ? & _);
      [right; by apply is_hyphen_true|]. eauto.
  - apply andb_true_iff in Hs as [Hc Hs].
    destruct (slug_char_plain c) as (? & ? & _); [by left|]. eauto.
Qed.

Lemma iri_verbatim_app a b :
  iri_verbatim a → iri_verbatim b → iri_verbatim (a +:+ b).
Proof.
  induction a as [|c a IH]; intros Ha Hb.
  - by rewrite append_nil_l.
  - rewrite append_cons. apply iri_verbatim_cons in Ha as (? & ? & Ha).
    apply iri_verbatim_cons. auto.
Qed.

Lemma recipe_node_iri nm :
  iri_verbatim (node_str (recipe_node nm))
  ∧ node_str (recipe_node nm) ≠ EmptyString
  ∧ recipe_node nm = URIRef (node_str (recipe_node nm)).
Proof.
  split; [|done].
  unfold recipe_node, REC, node_str.
  apply iri_verbatim_app; [reflexivity|].
  apply iri_verbatim_app; [reflexivity|].
  pose proof (normalise_text_is_slug nm) as Hs. unfold is_slug in Hs.
  destruct (normalise_text nm) as [|c s]; [done|].
  cbn [Py.nonempty negb orb] in Hs. by eapply slug_body_iri, slug_from_body.
Qed.



Lemma collect_uri rows d : uri (foldl Detail.collect d rows) = uri d.
Proof.
  revert d. induction rows as [|r rows IH]; intros d; [done|].
  cbn [foldl]. by rewrite IH.
Qed.

(** Every identifier that [search] returns on a store built from a batch of
    records is found by [recipe_detail], with that identifier in the record,
    and answered with status 200 by [/api/recipes]. *)
Theorem search_then_lookup records ingredient cuisine diet max_total_time u :
  returns_recipe
    (search (build_graph records) ingredient cuisine diet max_total_time) u →
  ∃ d, recipe_detail (build_graph records) u = Returns (Some d)
       ∧ uri d = u
       ∧ Api.recipe_lookup (build_graph records) {[ "uri" := u ]}
         = Returns (Api.Detail_body d, 200).
Proof.
  intros Hret.
  assert (∃ record, record ∈ records ∧ name record ≠ EmptyString
                    ∧ u = node_str (recipe_node (name record)))
    as (record & Hin & Hname & ->).
  { destruct Hret as (l & x & Hs & Hx & Hu).
    apply search_returns_inv in Hs as (Hi & Hc & Hd & ->).
    assert (returns_recipe
              (search (build_graph records) ingredient cuisine diet
                 max_total_time) u) as Hret'.
    { exists (Search.summaries
                (Search.query (build_graph records) ingredient cuisine diet
                   max_total_time)), x.
      split; [by apply search_returns|done]. }
    apply (search_result_is_selects _ _ _ _ _ Hi Hc Hd) in Hret'
      as (n & <- & Hrec & _).
    apply build_graph_recipe_of in Hrec as (record & ? & ? & ->). eauto. }
  destruct (recipe_node_iri (name record)) as (Hiri & Hne & Hnode).
  pose proof (build_graph_label records record Hin Hname) as Hlabel.
  rewrite Hnode in Hlabel.
  assert (∃ l, Text (URIRef (node_str (recipe_node (name record))))
                 RDFS_label l ∈ build_graph records) as Hex by eauto.
  destruct (proj2 (proj2 (proj2 (recipe_detail_cases
                                   (build_graph records)
                                   (node_str (recipe_node (name record))))))
              (conj Hiri Hex)) as [d Hd].
  exists d. split; [done|]. split.
  - apply recipe_detail_returns in Hd as (first & rows & _ & ->).
    by rewrite collect_uri.
  - unfold Api.recipe_lookup. rewrite lookup_singleton_eq.
    rewrite text_or_none_some by done. by rewrite Hd.
Qed.

Lemma search_then_lookup_witness :
  ∃ d, recipe_detail (build_graph [ lentil_soup; water ])
         "http://example.org/recipes#recipe-lentil-soup" = Returns (Some d)
       ∧ uri d = "http://example.org/recipes#recipe-lentil-soup"
       ∧ Api.recipe_lookup (build_graph [ lentil_soup; water ])
           {[ "uri" := "http://example.org/recipes#recipe-lentil-soup" ]}
         = Returns (Api.Detail_body d, 200).
Proof.
  apply (search_then_lookup [ lentil_soup; water ] None None (Some "VEGAN")
           (Some 60)).
  eexists _, _. split; [vm_compute; reflexivity|].
  split; [apply elem_of_cons; by left|reflexivity].
Defined.

(** ** The summaries of [search] *)

Lemma touch_scalars r d :
  Search.d_label (touch r d) = Search.d_label d
  ∧ Search.d_url (touch r d) = Search.d_url d
  ∧ Search.d_rating (touch r d) = Search.d_rating d
  ∧ Search.d_total_time (touch r d) = Search.d_total_time d.
Proof.
  unfold touch.
  by destruct (text_or_none (Search.v_cuisineLabel r)),
    (text_or_none (Search.v_dietLabel r)).
Qed.

(** An entry of [recipe_data] keeps the scalars of the row that created
    it. *)
Lemma group_entry_scalars rows k d :
  (k, d) ∈ Search.group rows →
  ∃ r, r ∈ rows ∧ key r = k
       ∧ Search.d_label d = Search.v_label r
       ∧ Search.d_url d = text_or_none (Search.v_url r)
       ∧ Search.d_rating d = float_or_none (Search.v_rating r)
       ∧ Search.d_total_time d = int_or_none (Search.v_totalTime r).
Proof.
  revert d. induction rows as [|r rows IH] using rev_ind; intros d.
  - by intros ?%elem_of_nil.
  - rewrite group_snoc, group_row_alt, elem_of_update.
    intros (d0 & Hin & ->).
    assert ((k, d0) ∈ Search.group rows
            ∨ (k = key r ∧ d0 = Search.new_data r)) as Hcase.
    { case_bool_decide; [by left|].
      apply elem_of_app in Hin as [?|Heq%list_elem_of_singleton]; [by left|].
      right. by simplify_eq. }
    assert (∃ r', r' ∈ rows ++ [r] ∧ key r' = k
                  ∧ Search.d_label d0 = Search.v_label r'
                  ∧ Search.d_url d0 = text_or_none (Search.v_url r')
                  ∧ Search.d_rating d0 = float_or_none (Search.v_rating r')
                  ∧ Search.d_total_time d0
                    = int_or_none (Search.v_totalTime r'))
      as (r' & Hr' & Hk & H1 & H2 & H3 & H4).
    { destruct Hcase as [Hold|[-> ->]].
      - destruct (IH _ Hold) as (r' & Hr' & Hrest). exists r'.
        split; [apply elem_of_app; by left|done].
      - exists r. split; [apply elem_of_app; right; by apply list_elem_of_singleton|].
        done. }
    exists r'. split; [done|]. split; [done|].
    destruct (touch_scalars r d0) as (T1 & T2 & T3 & T4).
    destruct (bool_decide (k = key r)); [rewrite T1, T2, T3, T4|];
      by split_and!.
Qed.

Lemma summaries_uris rows :
  uri <$> Search.summaries rows = (Search.group rows).*1.
Proof.
  unfold Search.summaries. rewrite <- list_fmap_compose.
  apply list_fmap_ext. intros i [k d] Hi. cbn.
  apply list_elem_of_lookup_2 in Hi.
  by destruct (group_entries _ _ _ Hi) as (-> & _).
Qed.

Lemma query_row_associated g ingredient cuisine diet max_total_time r :
  r ∈ Search.query g ingredient cuisine diet max_total_time →
  selects g ingredient cuisine diet max_total_time (Search.v_recipe r)
  ∧ Text (Search.v_recipe r) RDFS_label (Search.v_label r) ∈ g
  ∧ (∀ l, Search.v_cuisineLabel r = Some l →
          associated g (Search.v_recipe r) REC_hasCuisine l)
  ∧ (∀ l, Search.v_dietLabel r = Some l →
          associated g (Search.v_recipe r) REC_hasDiet l).
Proof.
  intros Hin. split; [by exists r|].
  apply elem_of_query in Hin as [Hin _].
  apply elem_of_where_block in Hin as (_ & Hl & _ & _ & _ & Hc & Hd & _).
  split; [by apply elem_of_texts|].
  split; intros l Heq; rewrite Heq in *.
  - apply elem_of_optional in Hc as [[_ ?]|(x & [= <-] & Hx)]; [done|].
    by apply elem_of_labelled.
  - apply elem_of_optional in Hd as [[_ ?]|(x & [= <-] & Hx)]; [done|].
    by apply elem_of_labelled.
Qed.

Lemma text_or_none_inv v l :
  text_or_none v = Some l ↔ v = Some l ∧ l ≠ EmptyString.
Proof.
  unfold text_or_none.
  destruct v as [[|c s]|]; cbn [truthy_text Py.nonempty].
  - split; [done|]. by intros [[= <-] ?].
  - split; [by intros [= <-]|by intros [? _]].
  - split; [done|by intros [? _]].
Qed.

(** Whenever [search] returns, no two summaries have the same identifier;
    the cuisines of a summary are exactly the non-empty cuisine labels of
    the recipes with its identifier that the query selects, each once, and
    likewise its diets; its label is a label of such a recipe; an empty
    url, a zero rating and a zero total time are reported as absent. *)
Theorem search_summaries g ingredient cuisine diet max_total_time l :
  search g ingredient cuisine diet max_total_time = Returns l →
  NoDup (uri <$> l)
  ∧ ∀ x, x ∈ l →
      (NoDup (cuisines x) ∧ NoDup (diets x))
      ∧ (∀ c, c ∈ cuisines x ↔
              c ≠ EmptyString
              ∧ ∃ n, node_str n = uri x
                     ∧ selects g ingredient cuisine diet max_total_time n
                     ∧ associated g n REC_hasCuisine c)
      ∧ (∀ c, c ∈ diets x ↔
              c ≠ EmptyString
              ∧ ∃ n, node_str n = uri x
                     ∧ selects g ingredient cuisine diet max_total_time n
                     ∧ associated g n REC_hasDiet c)
      ∧ (∃ n, node_str n = uri x
              ∧ selects g ingredient cuisine diet max_total_time n
              ∧ Text n RDFS_label (label x) ∈ g)
      ∧ url x ≠ Some EmptyString
      ∧ total_time x ≠ Some 0
      ∧ (∀ s, rating x ≠ Some (S754_zero s)).
Proof.
  intros (_ & _ & _ & ->)%search_returns_inv.
  set (rows := Search.query g ingredient cuisine diet max_total_time).
  split; [rewrite summaries_uris; apply group_NoDup|].
  intros x Hx.
  pose proof Hx as (d & Hd & Hxd)%elem_of_summaries.
  split; [|split; [|split; [|split]]].
  - rewrite Hxd. cbn. split; apply NoDup_elements.
  - intros c. rewrite (summary_cuisines rows x c Hx). split.
    + intros (r & Hr & Hk & [Hc Hne]%text_or_none_inv). split; [done|].
      destruct (query_row_associated _ _ _ _ _ _ Hr) as (Hs & _ & Ha & _).
      exists (Search.v_recipe r). auto.
    + intros (Hne & n & Hn & (r & Hr & <-) & Ha).
      eexists. split; [by apply (query_set_cuisineLabel _ _ _ _ _ r c)|].
      split; [done|]. cbn. by apply text_or_none_some.
  - intros c. rewrite (summary_diets rows x c Hx). split.
    + intros (r & Hr & Hk & [Hc Hne]%text_or_none_inv). split; [done|].
      destruct (query_row_associated _ _ _ _ _ _ Hr) as (Hs & _ & _ & Ha).
      exists (Search.v_recipe r). auto.
    + intros (Hne & n & Hn & (r & Hr & <-) & Ha).
      eexists. split; [by apply (query_set_dietLabel _ _ _ _ _ r c)|].
      split; [done|]. cbn. by apply text_or_none_some.
  - destruct (group_entry_scalars _ _ _ Hd) as (r & Hr & Hk & Hl & _).
    destruct (query_row_associated _ _ _ _ _ _ Hr) as (Hs & Ht & _).
    exists (Search.v_recipe r). split; [exact Hk|]. split; [done|].
    rewrite Hxd. cbn. by rewrite Hl.
  - destruct (group_entry_scalars _ _ _ Hd) as (r & _ & _ & _ & Hu & Hr & Ht).
    rewrite Hxd. cbn. rewrite Hu, Hr, Ht. split; [|split].
    + unfold text_or_none. by destruct (Search.v_url r) as [[|??]|].
    + unfold int_or_none. by destruct (Search.v_totalTime r) as [[| |]|].
    + intros s. unfold float_or_none.
      by destruct (Search.v_rating r) as [[| | |]|].
Qed.

Lemma search_summaries_witness :
  ∃ l, search sample_store None None None None = Returns l
       ∧ NoDup (uri <$> l).
Proof.
  eexists. split; [vm_compute; reflexivity|].
  eapply (search_summaries sample_store None None None None).
  vm_compute. reflexivity.
Defined.

(** ** Loading the rows *)

Lemma strip_trimmed s :
  (∀ ch rest, Py.strip s = String ch rest → Py.is_space ch = false)
  ∧ (∀ front ch,
       Py.strip s = front +:+ String ch EmptyString → Py.is_space ch = false).
Proof.
  unfold Py.strip, Py.strip_chars. split.
  - intros ch rest Heq.
    destruct (Py.lstrip Py.is_space s) as [|c0 t] eqn:Hl; [done|].
    apply rstrip_head in Heq as ->. by eapply lstrip_head.
  - intros front ch Heq. by eapply rstrip_last.
Qed.

Lemma split_runs_chars cls in_run s piece c :
  piece ∈ split_runs cls in_run s →
  c ∈ list_ascii_of_string piece → cls c = false.
Proof.
  revert in_run piece. induction s as [|c0 s IH]; intros in_run piece.
  { cbn. intros ->%list_elem_of_singleton. by intros ?%elem_of_nil. }
  cbn [split_runs]. destruct (cls c0) eqn:Hc0.
  - destruct in_run.
    + apply IH.
    + intros [->|Hin]%elem_of_cons; [by intros ?%elem_of_nil|by eapply IH].
  - destruct (split_runs cls false s) as [|first pieces] eqn:Hs.
    + intros ->%list_elem_of_singleton. cbn.
      by intros [->|?%elem_of_nil]%elem_of_cons.
    + intros [->|Hin]%elem_of_cons.
      * cbn [list_ascii_of_string]. intros [->|Hin]%elem_of_cons; [done|].
        eapply (IH false first); [|done]. rewrite Hs. apply elem_of_cons. by left.
      * eapply (IH false). rewrite Hs. apply elem_of_cons. by right.
Qed.

Lemma strip_chars_chars p s c :
  c ∈ list_ascii_of_string (Py.strip_chars p s) → c ∈ list_ascii_of_string s.
Proof. by intros ?%rstrip_chars%lstrip_chars. Qed.

Lemma elem_of_stripped_items rt items x :
  x ∈ stripped_items rt items ↔
    x ≠ EmptyString ∧ ∃ v, v ∈ items ∧ x = Py.strip (str rt v).
Proof.
  unfold stripped_items. rewrite list_elem_of_filter, list_elem_of_fmap.
  split.
  - intros [Hne (v & -> & Hin)]. split; [|by eauto].
    intros Heq. by rewrite Heq in Hne.
  - intros [Hne (v & Hin & ->)]. split; [|by eauto].
    by destruct (Py.strip (str rt v)).
Qed.

(** Every item that [parse_sequence] returns is non-empty and has no
    whitespace at either end; a value that is neither a list nor a string,
    None included, and a blank string give no item; a string that decodes
    as a JSON list gives the items of that list; any other string is cut at
    line breaks and semicolons, which no item then holds. *)
Theorem parse_sequence_items rt :
  (∀ value x,
     x ∈ parse_sequence rt value →
     x ≠ EmptyString
     ∧ (∀ ch rest, x = String ch rest → Py.is_space ch = false)
     ∧ (∀ front ch,
          x = front +:+ String ch EmptyString → Py.is_space ch = false))
  ∧ (∀ value,
       (∀ s, value ≠ PyStr s) → (∀ items, value ≠ PyList items) →
       parse_sequence rt value = [])
  ∧ (∀ s, Py.strip s = EmptyString → parse_sequence rt (PyStr s) = [])
  ∧ (∀ s items,
       Py.strip s ≠ EmptyString →
       json_loads rt (Py.strip s) = Some (PyList items) →
       parse_sequence rt (PyStr s) = parse_sequence rt (PyList items))
  ∧ (∀ s x,
       (∀ items, json_loads rt (Py.strip s) ≠ Some (PyList items)) →
       x ∈ parse_sequence rt (PyStr s) →
       (LF ∉ list_ascii_of_string x)
       ∧ (ascii_of_N 59 ∉ list_ascii_of_string x)
       ∧ ∃ piece, piece ∈ re_split is_line_break_or_semicolon (Py.strip s)
                  ∧ x = Py.strip piece).
Proof.
  assert (∀ items x, x ∈ stripped_items rt items →
            x ≠ EmptyString
            ∧ (∀ ch rest, x = String ch rest → Py.is_space ch = false)
            ∧ (∀ front ch, x = front +:+ String ch EmptyString →
                           Py.is_space ch = false)) as Hitems.
  { intros items x (Hne & v & _ & ->)%elem_of_stripped_items.
    split; [done|]. apply strip_trimmed. }
  assert (∀ s x,
            x ∈ filter (λ part, Py.nonempty part = true)
                  (Py.strip <$> re_split is_line_break_or_semicolon s) ↔
              x ≠ EmptyString
              ∧ ∃ piece, piece ∈ re_split is_line_break_or_semicolon s
                         ∧ x = Py.strip piece) as Hparts.
  { intros s x. rewrite list_elem_of_filter, list_elem_of_fmap. split.
    - intros [Hne (v & -> & Hin)]. split; [|by eauto].
      intros Heq. by rewrite Heq in Hne.
    - intros [Hne (v & Hin & ->)]. split; [|by eauto].
      by destruct (Py.strip v). }
  split; [|split; [|split; [|split]]].
  - intros value x. destruct value as [| | | |s|items|]; cbn [parse_sequence];
      try (by intros ?%elem_of_nil); [|by apply Hitems].
    destruct (Py.nonempty (Py.strip s)); cbn [negb];
      [|by intros ?%elem_of_nil].
    destruct (json_loads rt (Py.strip s)) as [[| | | | |items|]|];
      try (by apply Hitems);
      (intros (Hne & piece & _ & ->)%Hparts; split; [done|];
       apply strip_trimmed).
  - intros value Hs Hl. destruct value; try done.
    + by destruct (Hs s).
    + by destruct (Hl items).
  - intros s Hs. cbn [parse_sequence]. by rewrite Hs.
  - intros s items Hne Hjson. cbn [parse_sequence]. rewrite Hjson.
    by destruct (Py.strip s).
  - intros s x Hjson. cbn [parse_sequence].
    destruct (Py.nonempty (Py.strip s)); cbn [negb];
      [|by intros ?%elem_of_nil].
    assert (x ∈ filter (λ part, Py.nonempty part = true)
                  (Py.strip <$> re_split is_line_break_or_semicolon
                                  (Py.strip s)) →
            (LF ∉ list_ascii_of_string x)
            ∧ (ascii_of_N 59 ∉ list_ascii_of_string x)
            ∧ ∃ piece, piece ∈ re_split is_line_break_or_semicolon (Py.strip s)
                       ∧ x = Py.strip piece) as Hcut.
    { intros (Hne & piece & Hin & ->)%Hparts.
      split; [|split; [|by eauto]];
        intros Hc%strip_chars_chars;
        by pose proof (split_runs_chars _ _ _ _ _ Hin Hc). }
    destruct (json_loads rt (Py.strip s)) as [[| | | | |items|]|];
      try exact Hcut.
    by destruct (Hjson items).
Qed.

Lemma parse_sequence_items_witness :
  parse_sequence plain_runtime (PyStr " Simmer ; ; Serve ")
  = [ "Simmer"; "Serve" ]
  ∧ LF ∉ list_ascii_of_string "Simmer".
Proof.
  split; [by vm_compute|].
  apply (proj2 (proj2 (proj2 (proj2 (parse_sequence_items plain_runtime))))
           " Simmer ; ; Serve " "Simmer").
  - done.
  - vm_compute. apply elem_of_cons. by left.
Defined.







(** ** The listings of a built store *)

Lemma recipe_not_cuisine nm c : recipe_node nm ≠ cuisine_node c.
Proof.
  unfold recipe_node, cuisine_node. intros H%REC_inj.
  rewrite !append_cons in H. discriminate H.
Qed.

Lemma ingredient_not_cuisine l c : ingredient_node l ≠ cuisine_node c.
Proof.
  unfold ingredient_node, cuisine_node. intros H%REC_inj.
  rewrite !append_cons in H. discriminate H.
Qed.

Lemma early_cuisine_free nm ph t :
  early ph → fact nm ph t → cuisine_free t.
Proof.
  intros [H1 H2] Hf.
  destruct Hf as [ |p v| | | | | | | | | | | | | | | | | ]; cbn; try done;
    try (by intros H%REC_inj);
    try (destruct p; [|done]);
    intros c;
    first [apply recipe_not_cuisine|apply ingredient_not_cuisine|done].
Qed.

Lemma labelled_same g g' :
  (∀ c, Link (cuisine_node c) RDF_type (REC "Cuisine") ∈ g' ↔
        Link (cuisine_node c) RDF_type (REC "Cuisine") ∈ g) →
  (∀ c l, Text (cuisine_node c) RDFS_label l ∈ g' ↔
          Text (cuisine_node c) RDFS_label l ∈ g) →
  cuisines_labelled g → cuisines_labelled g'.
Proof.
  intros Ht Hl Hg c Hc.
  destruct (Hg c) as (l & Heq & Htyped & Hlabels).
  { destruct Hc as [Hc|[l Hc]]; [left; by apply Ht|right; exists l; by apply Hl]. }
  exists l. split; [done|]. split; [by apply Ht|].
  intros l'. by rewrite Hl.
Qed.

Lemma labelled_grows_free g g' :
  cuisines_labelled g → grows cuisine_free g g' → cuisines_labelled g'.
Proof.
  intros Hg Hgrows. apply (labelled_same g); [| |done].
  - intros c. split; [|by apply (grows_subseteq _ _ _ _ Hgrows)].
    intros [Hin|Hfree]%(grows_elem_of _ _ _ _ Hgrows); [done|].
    by destruct Hfree.
  - intros c l. split; [|by apply (grows_subseteq _ _ _ _ Hgrows)].
    intros [Hin|Hfree]%(grows_elem_of _ _ _ _ Hgrows); [done|].
    by destruct (Hfree c).
Qed.

Lemma labelled_cuisine_step g parent c :
  cuisines_labelled g → cuisines_labelled (cuisine_step (g, parent) c).1.
Proof.
  intros Hg. unfold cuisine_step. cbv zeta. cbn [fst].
  assert (cuisines_labelled
            (if has g (Link (cuisine_node c) RDF_type (REC "Cuisine")) then g
             else add (add g (Link (cuisine_node c) RDF_type (REC "Cuisine")))
                      (Text (cuisine_node c) RDFS_label c))) as Hg1.
  { unfold has. case_bool_decide as Hhas; [done|].
    intros c0 Hc0.
    destruct (decide (cuisine_node c0 = cuisine_node c)) as [Heq|Hne].
    - rewrite Heq. exists c. split; [done|]. split.
      + rewrite !elem_of_add. left. by right.
      + intros l'. rewrite !elem_of_add. split.
        * intros [[Hin|[=]]|[= ->]]; [|done].
          destruct (Hg c) as (? & _ & Htyped & _); [right; by exists l'|].
          by destruct Hhas.
        * intros ->. by right.
    - destruct (Hg c0) as (l & Hl & Htyped & Hlabels).
      { destruct Hc0 as [Hc0|[l Hc0]]; rewrite !elem_of_add in Hc0.
        - destruct Hc0 as [[Hin|Hx]|Hx]; [by left|congruence..].
        - destruct Hc0 as [[Hin|Hx]|Hx]; [|congruence..].
          right. by exists l. }
      exists l. split; [done|]. split; [rewrite !elem_of_add; by do 2 left|].
      intros l'. rewrite !elem_of_add, <- Hlabels. split; [|by do 2 left].
      intros [[Hin|Hx]|Hx]; [done|congruence..]. }
  destruct parent as [parent|]; [|done].
  eapply labelled_grows_free; [exact Hg1|]. by apply grows_add.
Qed.

Lemma labelled_fold segs g parent :
  cuisines_labelled g →
  cuisines_labelled (foldl cuisine_step (g, parent) segs).1.
Proof.
  revert g parent. induction segs as [|c segs IH]; intros g parent Hg; [done|].
  cbn [foldl]. pose proof (labelled_cuisine_step g parent c Hg) as Hg1.
  destruct (cuisine_step (g, parent) c) as [g1 p1]. by apply IH.
Qed.

Lemma labelled_add_cuisines g record :
  cuisines_labelled g → cuisines_labelled (add_cuisines g record).
Proof.
  intros Hg. unfold add_cuisines.
  destruct (text_or_none (cuisine_path record)) as [path|]; [|done].
  unfold add_cuisine_chain.
  pose proof (labelled_fold (path_segments path) g None Hg) as Hg1.
  destruct (foldl cuisine_step (g, None) (path_segments path))
    as [g1 [leaf|]]; [|done].
  eapply labelled_grows_free; [exact Hg1|]. by apply grows_add.
Qed.

Lemma labelled_populate_record g bnodes record :
  cuisines_labelled g →
  cuisines_labelled (populate_record (g, bnodes) record).1.
Proof.
  intros Hg. destruct (decide (name record = EmptyString)) as [Hname|Hname].
  { by rewrite populate_record_empty_name. }
  rewrite populate_record_cuisines by done.
  apply labelled_add_cuisines. eapply labelled_grows_free; [exact Hg|].
  eapply grows_impl; [|apply before_cuisines_grows].
  intros t (ph & Hph & Hf). by eapply early_cuisine_free.
Qed.

Lemma labelled_populate_graph records g bnodes :
  cuisines_labelled g →
  cuisines_labelled (populate_graph (g, bnodes) records).1.
Proof.
  revert g bnodes. unfold populate_graph.
  induction records as [|r records IH]; intros g bnodes Hg; [done|].
  cbn [foldl]. pose proof (labelled_populate_record g bnodes r Hg) as Hg1.
  destruct (populate_record (g, bnodes) r) as [g1 b1]. by apply IH.
Qed.

Lemma schema_cuisine_free : Forall cuisine_free (add_ontology_schema []).
Proof.
  set (s := add_ontology_schema []). vm_compute in s. subst s.
  apply Forall_forall. intros t Ht.
  repeat (apply elem_of_cons in Ht as [->|Ht];
          [simpl; first [ by intros [= H]
                        | by intros c [= H]
                        | done ]|]).
  by apply elem_of_nil in Ht.
Qed.

Lemma build_graph_cuisines_labelled records :
  cuisines_labelled (build_graph records).
Proof.
  apply labelled_populate_graph. apply (labelled_grows_free []).
  - intros c [Hc|[l Hc]]; by apply elem_of_nil in Hc.
  - exists (add_ontology_schema []). split; [done|apply schema_cuisine_free].
Qed.

Lemma cuisine_fold_label_from segs g parent c l :
  Text (cuisine_node c) RDFS_label l ∈ (foldl cuisine_step (g, parent) segs).1 →
  Text (cuisine_node c) RDFS_label l ∈ g ∨ l ∈ segs.
Proof.
  revert g parent. induction segs as [|a segs IH]; intros g parent; [by left|].
  cbn [foldl].
  pose proof (cuisine_step_elem_of g parent a
                (Text (cuisine_node c) RDFS_label l)) as Hstep.
  destruct (cuisine_step (g, parent) a) as [g1 p1]. cbn [fst] in Hstep.
  intros [Hin|Hin]%IH; [|right; apply elem_of_cons; by right].
  destruct (Hstep Hin) as [H|[H|[H|[a0 H]]]]; try done; [by left|].
  injection H as _ ->. right. apply elem_of_cons. by left.
Qed.

Lemma populate_record_cuisine_label g bnodes record c l :
  name record ≠ EmptyString →
  Text (cuisine_node c) RDFS_label l ∈ (populate_record (g, bnodes) record).1 →
  Text (cuisine_node c) RDFS_label l ∈ g
  ∨ ∃ path, text_or_none (cuisine_path record) = Some path
            ∧ l ∈ path_segments path.
Proof.
  intros Hname. rewrite populate_record_cuisines by done.
  assert (Text (cuisine_node c) RDFS_label l ∈ before_cuisines g bnodes record →
          Text (cuisine_node c) RDFS_label l ∈ g) as Hbefore.
  { intros [Hin|(ph & Hph & Hf)]%(grows_elem_of _ _ _ _
                                     (before_cuisines_grows g bnodes record));
      [done|].
    by destruct (early_cuisine_free _ _ _ Hph Hf c). }
  destruct (text_or_none (cuisine_path record)) as [path|] eqn:Hpath.
  - rewrite (add_cuisines_elem_of _ _ path) by done.
    intros [Hin|(c0 & _ & [=])].
    apply cuisine_fold_label_from in Hin as [Hin|Hin]; [left; auto|].
    right. by exists path.
  - unfold add_cuisines. rewrite Hpath. intros Hin. left. auto.
Qed.

Lemma populate_graph_cuisine_label records g bnodes c l :
  Text (cuisine_node c) RDFS_label l ∈ (populate_graph (g, bnodes) records).1 →
  Text (cuisine_node c) RDFS_label l ∈ g
  ∨ ∃ record path,
      record ∈ records ∧ name record ≠ EmptyString
      ∧ text_or_none (cuisine_path record) = Some path
      ∧ l ∈ path_segments path.
Proof.
  revert g bnodes. unfold populate_graph.
  induction records as [|r records IH]; intros g bnodes; [by left|].
  cbn [foldl].
  pose proof (populate_record_cuisine_label g bnodes r c l) as Hr.
  pose proof (populate_record_empty_name (g, bnodes) r) as He.
  destruct (populate_record (g, bnodes) r) as [g1 b1]. cbn [fst] in Hr.
  intros [Hin|(record & path & Hrec & Hrest)]%IH.
  - destruct (decide (name r = EmptyString)) as [Hname|Hname].
    { left. specialize (He Hname). by injection He as <- <-. }
    destruct (Hr Hname Hin) as [Hg|(path & Hpath & Hl)]; [by left|].
    right. exists r, path. split; [apply elem_of_cons; by left|done].
  - right. exists record, path. split; [apply elem_of_cons; by right|done].
Qed.

Lemma fact_cuisine_type nm ph n :
  fact nm ph (Link n RDF_type (REC "Cuisine")) → ∃ c, n = cuisine_node c.
Proof. inversion 1; try done. by eexists. Qed.

Lemma schema_diet_listing n l :
  Link n RDF_type (REC "DietType") ∈ add_ontology_schema [] →
  Text n RDFS_label l ∈ add_ontology_schema [] →
  l ∈ DIET_NAMES.
Proof.
  set (s := add_ontology_schema []). vm_compute in s. subst s.
  intros _ Hl. unfold DIET_NAMES.
  repeat (apply elem_of_cons in Hl as [Hl|Hl];
          [first [ discriminate Hl
                 | injection Hl as _ ->; rewrite !elem_of_cons; tauto ]|]).
  by apply elem_of_nil in Hl.
Qed.

Lemma fact_no_diet_type nm ph n :
  ¬ fact nm ph (Link n RDF_type (REC "DietType")).
Proof. inversion 1; done. Qed.

Lemma schema_diet_nodes n :
  Link n RDF_type (REC "DietType") ∈ add_ontology_schema [] →
  ∃ d, d ∈ DIET_NAMES ∧ n = REC d.
Proof.
  set (s := add_ontology_schema []). vm_compute in s. subst s.
  intros Hl.
  repeat (apply elem_of_cons in Hl as [Hl|Hl];
          [first [ discriminate Hl
                 | injection Hl as ->;
                   first [ by exists "Vegan"; split; [set_solver|]
                         | by exists "Vegetarian"; split; [set_solver|]
                         | by exists "GlutenFree"; split; [set_solver|] ] ]|]).
  by apply elem_of_nil in Hl.
Qed.

Lemma fact_no_diet_label nm ph d l :
  d ∈ DIET_NAMES → ¬ fact nm ph (Text (REC d) RDFS_label l).
Proof.
  unfold DIET_NAMES. intros Hd Hf.
  assert (∀ x, REC d ≠ recipe_node x ∧ REC d ≠ ingredient_node x
               ∧ REC d ≠ cuisine_node x) as Hfresh.
  { intros x. unfold recipe_node, ingredient_node, cuisine_node.
    repeat (apply elem_of_cons in Hd as [->|Hd];
            [split_and!; intros H%REC_inj; rewrite !append_cons in H;
             discriminate H|]).
    by apply elem_of_nil in Hd. }
  remember (Text (REC d) RDFS_label l) as t eqn:Ht.
  destruct Hf as [ |p v|r|p z|l0|l0|l0 Hk|l0 Hk|l0|o|o|k|k v|k z|k|c|c|c c'|c ];
    try discriminate Ht.
  - destruct (Hfresh nm) as (H & _ & _). congruence.
  - destruct (Hfresh l0) as (_ & H & _). congruence.
  - destruct (Hfresh c) as (_ & _ & H). congruence.
Qed.

Lemma elem_of_list_diets records l :
  l ∈ list_diets (build_graph records) ↔ l ∈ DIET_NAMES.
Proof.
  unfold list_diets, build_graph. rewrite elem_of_listing_labels. split.
  - intros (n & Htype & Hlabel).
    apply populate_graph_elem_of in Htype as [Htype|(r & ph & _ & _ & Hf)];
      [|by destruct (fact_no_diet_type _ _ _ Hf)].
    apply populate_graph_elem_of in Hlabel as [Hlabel|(r & ph & _ & _ & Hf)];
      [by eapply schema_diet_listing|].
    apply schema_diet_nodes in Htype as (d & Hd & ->).
    by destruct (fact_no_diet_label _ _ _ _ Hd Hf).
  - intros Hl. exists (REC l).
    split; apply populate_graph_subseteq; unfold DIET_NAMES in Hl;
      repeat (apply elem_of_cons in Hl as [->|Hl];
              [apply (bool_decide_unpack _); by vm_compute|]);
      by apply elem_of_nil in Hl.
Qed.

(** Whatever the records, the store built from them lists the diets
    GlutenFree, Vegan and Vegetarian, in this order, and [/api/diets]
    answers the same list.  Its cuisines are segments of the cuisine paths
    of the named records: every listed cuisine is a segment of such a path,
    every segment of such a path has the identifier of a listed cuisine, and
    no two listed cuisines have the same identifier, so that of the
    spellings of one cuisine the list holds one. *)
Theorem built_store_listings records :
  let g := build_graph records in
  list_diets g = [ "GlutenFree"; "Vegan"; "Vegetarian" ]
  ∧ Api.diets g = ([ "GlutenFree"; "Vegan"; "Vegetarian" ], 200)
  ∧ (∀ l, l ∈ list_cuisines g →
          ∃ record path,
            record ∈ records ∧ name record ≠ EmptyString
            ∧ text_or_none (cuisine_path record) = Some path
            ∧ l ∈ path_segments path)
  ∧ (∀ record path c,
       record ∈ records → name record ≠ EmptyString →
       text_or_none (cuisine_path record) = Some path →
       c ∈ path_segments path →
       ∃ l, l ∈ list_cuisines g ∧ normalise_text l = normalise_text c)
  ∧ (∀ l1 l2,
       l1 ∈ list_cuisines g → l2 ∈ list_cuisines g →
       normalise_text l1 = normalise_text l2 → l1 = l2).
Proof.
  cbv zeta.
  assert (list_diets (build_graph records)
          = [ "GlutenFree"; "Vegan"; "Vegetarian" ]) as Hdiets.
  { apply (StronglySorted_unique_strong
             (λ a b, String.le (Py.lower a) (Py.lower b))).
    - intros x1 x2 Hx1%elem_of_list_diets Hx2.
      unfold DIET_NAMES in Hx1.
      repeat (apply elem_of_cons in Hx1 as [->|Hx1];
              [repeat (apply elem_of_cons in Hx2 as [->|Hx2];
                       [by vm_compute|]);
               by apply elem_of_nil in Hx2|]).
      by apply elem_of_nil in Hx1.
    - apply listing_labels_sorted.
    - repeat constructor; by vm_compute.
    - apply NoDup_Permutation.
      + apply listing_labels_NoDup.
      + apply NoDup_ListNoDup. repeat constructor; cbn; intuition discriminate.
      + intros l. rewrite elem_of_list_diets. unfold DIET_NAMES.
        rewrite !elem_of_cons. tauto. }
  split; [done|]. split; [unfold Api.diets; by rewrite Hdiets|].
  pose proof (build_graph_cuisines_labelled records) as Hlab.
  assert (∀ l, l ∈ list_cuisines (build_graph records) →
               Text (cuisine_node l) RDFS_label l ∈ build_graph records)
    as Hnode.
  { intros l (n & Htype & Hlabel)%elem_of_listing_labels.
    assert (∃ c, n = cuisine_node c) as [c ->].
    { apply populate_graph_elem_of in Htype as [Htype|(r & ph & _ & _ & Hf)];
        [|by eapply fact_cuisine_type].
      by destruct (proj1 (Forall_forall _ _) schema_cuisine_free _ Htype). }
    destruct (Hlab c) as (l0 & Heq & _ & Hlabels); [by left|].
    apply Hlabels in Hlabel as ->. rewrite Heq. by apply Hlabels. }
  split_and!.
  - intros l Hl%Hnode.
    apply populate_graph_cuisine_label in Hl as [Hl|Hl]; [|done].
    by destruct (proj1 (Forall_forall _ _) schema_cuisine_free _ Hl l).
  - intros record path c Hrec Hname Hpath Hc.
    assert (Link (cuisine_node c) RDF_type (REC "Cuisine")
            ∈ build_graph records) as Htyped.
    { apply (record_in_build records record); [done|]. intros g b.
      rewrite populate_record_cuisines by done.
      apply (add_cuisines_elem_of _ _ path); [done|]. left.
      by apply cuisine_chain_typed. }
    destruct (Hlab c) as (l & Heq & _ & Hlabels); [by left|].
    exists l. split; [|by apply cuisine_node_inj].
    apply elem_of_listing_labels. exists (cuisine_node c).
    split; [done|by apply Hlabels].
  - intros l1 l2 Hl1%Hnode Hl2%Hnode Heq.
    assert (cuisine_node l1 = cuisine_node l2) as Hsame
      by (unfold cuisine_node; by rewrite Heq).
    destruct (Hlab l1) as (l & _ & _ & Hlabels); [right; by exists l1|].
    rewrite <- Hsame in Hl2.
    apply Hlabels in Hl1, Hl2. by subst.
Qed.

(** ** The steps of a built store *)

Lemma fresh_bnode_inj a b : fresh_bnode a = fresh_bnode b → a = b.
Proof.
  unfold fresh_bnode. intros [= H]. rewrite !append_nil_l in H.
  by apply (inj pretty) in H.
Qed.

Lemma elem_of_step_triples s k idx x t :
  t ∈ step_triples s k idx x ↔
    t = Link (fresh_bnode k) RDF_type (SCHEMA "HowToStep")
    ∨ t = Text (fresh_bnode k) RDFS_label x
    ∨ t = Int (fresh_bnode k) SCHEMA_position idx
    ∨ t = Link s SCHEMA_step (fresh_bnode k).
Proof.
  unfold step_triples. cbv zeta. rewrite !elem_of_cons, elem_of_nil. tauto.
Qed.

Lemma step_triples_not_free s k idx x t :
  t ∈ step_triples s k idx x → ¬ step_free t.
Proof.
  intros [-> | [-> | [-> | ->]]]%elem_of_step_triples; unfold fresh_bnode; cbn; tauto.
Qed.

Lemma step_triples_node t s k idx x s' k' idx' x' :
  t ∈ step_triples s k idx x → t ∈ step_triples s' k' idx' x' → k' = k.
Proof.
  intros [-> | [-> | [-> | ->]]]%elem_of_step_triples
         [H|[H|[H|H]]]%elem_of_step_triples;
    try discriminate H;
    (assert (fresh_bnode k = fresh_bnode k') as Heq by congruence);
    symmetry; by apply fresh_bnode_inj.
Qed.

Lemma add_directions_fold recipe_uri dirs g bnodes idx t :
  let st :=
    foldl (λ '(g, bnodes, idx) direction,
             let step_bnode := fresh_bnode bnodes in
             let g := add g (Link step_bnode RDF_type (SCHEMA "HowToStep")) in
             let g := add g (Text step_bnode RDFS_label direction) in
             let g := add g (Int step_bnode SCHEMA_position idx) in
             let g := add g (Link recipe_uri SCHEMA_step step_bnode) in
             (g, S bnodes, idx + 1))
          (g, bnodes, idx) dirs in
  (t ∈ st.1.1 ↔
     t ∈ g ∨ ∃ i x, dirs !! i = Some x
                    ∧ t ∈ step_triples recipe_uri (bnodes + i)
                            (idx + Z.of_nat i) x)
  ∧ st.1.2 = (bnodes + length dirs)%nat.
Proof.
  cbv zeta. revert g bnodes idx.
  induction dirs as [|d dirs IH]; intros g bnodes idx.
  { cbn. split; [|lia]. split; [by left|].
    intros [H|(i & x & Hi & _)]; [done|by rewrite lookup_nil in Hi]. }
  cbn [foldl]. destruct (IH
    (add (add (add (add g (Link (fresh_bnode bnodes) RDF_type
                             (SCHEMA "HowToStep")))
                  (Text (fresh_bnode bnodes) RDFS_label d))
             (Int (fresh_bnode bnodes) SCHEMA_position idx))
        (Link recipe_uri SCHEMA_step (fresh_bnode bnodes)))
    (S bnodes) (idx + 1)) as [Hin Hcount].
  split; [|rewrite Hcount; cbn [length]; lia].
  rewrite Hin, !elem_of_add. split.
  - intros [[[[[H|H]|H]|H]|H]|(i & x & Hi & Ht)].
    + by left.
    + right. exists 0%nat, d. split; [done|].
      rewrite Nat.add_0_r, Z.add_0_r. apply elem_of_step_triples. tauto.
    + right. exists 0%nat, d. split; [done|].
      rewrite Nat.add_0_r, Z.add_0_r. apply elem_of_step_triples. tauto.
    + right. exists 0%nat, d. split; [done|].
      rewrite Nat.add_0_r, Z.add_0_r. apply elem_of_step_triples. tauto.
    + right. exists 0%nat, d. split; [done|].
      rewrite Nat.add_0_r, Z.add_0_r. apply elem_of_step_triples. tauto.
    + right. exists (S i), x. split; [done|].
      by replace (bnodes + S i)%nat with (S bnodes + i)%nat by lia;
        replace (idx + Z.of_nat (S i)) with (idx + 1 + Z.of_nat i) by lia.
  - intros [H|(i & x & Hi & Ht)]; [by do 5 left|].
    destruct i as [|i].
    + injection Hi as ->. rewrite Nat.add_0_r, Z.add_0_r in Ht.
      apply elem_of_step_triples in Ht. left. tauto.
    + right. exists i, x. split; [done|].
      by replace (S bnodes + i)%nat with (bnodes + S i)%nat by lia;
        replace (idx + 1 + Z.of_nat i) with (idx + Z.of_nat (S i)) by lia.
Qed.

Lemma add_directions_elem_of g bnodes recipe_uri dirs t :
  t ∈ (add_directions g bnodes recipe_uri dirs).1 ↔
    t ∈ g ∨ ∃ i x, dirs !! i = Some x
                   ∧ t ∈ step_triples recipe_uri (bnodes + i)
                           (Z.of_nat i + 1) x.
Proof.
  unfold add_directions.
  pose proof (add_directions_fold recipe_uri dirs g bnodes 1 t) as [H _].
  cbv zeta in H. cbn [fst]. rewrite H.
  split; (intros [Hin|(i & x & Hi & Ht)]; [by left|]); right; exists i, x;
    (split; [done|]);
    first [ by rewrite (Z.add_comm 1) in Ht | by rewrite (Z.add_comm 1) ].
Qed.

Lemma add_directions_count g bnodes recipe_uri dirs :
  (add_directions g bnodes recipe_uri dirs).2 = (bnodes + length dirs)%nat.
Proof.
  unfold add_directions.
  pose proof (add_directions_fold recipe_uri dirs g bnodes 1
                (Rating recipe_uri S754_nan)) as [_ H].
  exact H.
Qed.

Lemma fact_step_free nm ph t : ph ≠ Directions → fact nm ph t → step_free t.
Proof.
  intros Hph Hf.
  destruct Hf; try done;
    unfold step_free, recipe_node, ingredient_node, cuisine_node, REC; cbn;
    intuition discriminate.
Qed.

Lemma cuisine_facts_step_free nm t :
  fact nm CuisineChain t ∨ fact nm CuisineLeaf t → step_free t.
Proof. by intros [H|H]; eapply fact_step_free; [|exact H| |exact H]. Qed.

Lemma schema_step_free : Forall step_free (add_ontology_schema []).
Proof.
  set (s := add_ontology_schema []). vm_compute in s. subst s.
  apply Forall_forall. intros t Ht.
  repeat (apply elem_of_cons in Ht as [->|Ht]; [cbn; intuition discriminate|]).
  by apply elem_of_nil in Ht.
Qed.

Lemma grows_step_free P g g' t :
  (∀ t, P t → step_free t) → grows P g g' →
  t ∈ g' → t ∈ g ∨ step_free t.
Proof.
  intros HP Hgrows [Hin|Hin]%(grows_elem_of _ _ _ _ Hgrows); [by left|].
  right. by apply HP.
Qed.

Lemma populate_record_count g bnodes record :
  (populate_record (g, bnodes) record).2
  = if decide (name record = EmptyString) then bnodes
    else (bnodes + length (rec_directions record))%nat.
Proof.
  case_decide as Hname; [by rewrite populate_record_empty_name|].
  rewrite populate_record_unfold by done. cbv zeta. cbn [snd].
  apply add_directions_count.
Qed.

Lemma populate_record_steps g bnodes record t :
  name record ≠ EmptyString →
  t ∈ (populate_record (g, bnodes) record).1 →
  t ∈ g ∨ step_free t
  ∨ ∃ i x, rec_directions record !! i = Some x
           ∧ t ∈ step_triples (recipe_node (name record)) (bnodes + i)
                   (Z.of_nat i + 1) x.
Proof.
  intros Hname. rewrite populate_record_unfold by done. cbv zeta. cbn [fst].
  intros Hin.
  apply (grows_step_free _ _ _ _ (cuisine_facts_step_free (name record))
           (add_cuisines_grows _ _)) in Hin as [Hin|Hin]; [|by right; left].
  apply add_directions_elem_of in Hin as [Hin|Hin]; [|by right; right].
  rewrite add_ingredients_uris in Hin.
  apply (grows_step_free _ _ _ _ (λ t0, fact_step_free (name record) Diets t0
                                      ltac:(done))
           (infer_diets_grows _ _ _)) in Hin as [Hin|Hin]; [|by right; left].
  apply (grows_step_free _ _ _ _ (λ t0, fact_step_free (name record) Ingredients t0
                                      ltac:(done))
           (add_ingredients_grows _ _ _)) in Hin as [Hin|Hin];
    [|by right; left].
  apply (grows_step_free _ _ _ _ (λ t0, fact_step_free (name record) Attributes t0
                                      ltac:(done))
           (add_attributes_grows _ _)) in Hin as [Hin|Hin]; [|by right; left].
  by left.
Qed.

Lemma populate_record_step_added g bnodes record i x t :
  name record ≠ EmptyString →
  rec_directions record !! i = Some x →
  t ∈ step_triples (recipe_node (name record)) (bnodes + i) (Z.of_nat i + 1) x →
  t ∈ (populate_record (g, bnodes) record).1.
Proof.
  intros Hname Hi Ht. rewrite populate_record_unfold by done.
  cbv zeta. cbn [fst].
  eapply grows_subseteq; [apply add_cuisines_grows|].
  apply add_directions_elem_of. right. by exists i, x.
Qed.

Lemma populate_graph_count_le records g bnodes :
  (bnodes ≤ (populate_graph (g, bnodes) records).2)%nat.
Proof.
  revert g bnodes. unfold populate_graph.
  induction records as [|r records IH]; intros g bnodes; [done|].
  cbn [foldl]. pose proof (populate_record_count g bnodes r) as Hc.
  destruct (populate_record (g, bnodes) r) as [g1 b1]. cbn [snd] in Hc.
  etrans; [|apply IH]. subst b1. case_decide; lia.
Qed.

Lemma populate_graph_steps_later records g bnodes t :
  t ∈ (populate_graph (g, bnodes) records).1 →
  t ∈ g ∨ step_free t
  ∨ ∃ s k idx x, (bnodes ≤ k)%nat ∧ t ∈ step_triples s k idx x.
Proof.
  revert g bnodes. unfold populate_graph.
  induction records as [|r records IH]; intros g bnodes; [by left|].
  cbn [foldl]. pose proof (populate_record_count g bnodes r) as Hc.
  pose proof (populate_record_steps g bnodes r t) as Hr.
  pose proof (populate_record_empty_name (g, bnodes) r) as He.
  destruct (populate_record (g, bnodes) r) as [g1 b1].
  cbn [fst snd] in Hc, Hr.
  intros [Hin|[Hfree|(s & k & idx & x & Hk & Ht)]]%IH.
  - destruct (decide (name r = EmptyString)) as [Hname|Hname].
    { left. specialize (He Hname). by injection He as <- <-. }
    destruct (Hr Hname Hin) as [H|[H|(i & x & Hi & Ht)]];
      [by left|by right; left|].
    right; right. exists (recipe_node (name r)), (bnodes + i)%nat,
                    (Z.of_nat i + 1), x.
    split; [lia|done].
  - by right; left.
  - right; right. exists s, k, idx, x. split; [|done].
    subst b1. case_decide; lia.
Qed.

Lemma steps_below_populate_record g bnodes record :
  steps_below g bnodes →
  steps_below (populate_record (g, bnodes) record).1
    (populate_record (g, bnodes) record).2.
Proof.
  intros Hg. rewrite populate_record_count.
  destruct (decide (name record = EmptyString)) as [Hname|Hname].
  { by rewrite populate_record_empty_name. }
  intros t [Hin|[Hfree|(i & x & Hi & Ht)]]%populate_record_steps; [| |..];
    [|by left| |done].
  - destruct (Hg t Hin) as [H|(s & k & idx & x & Hk & Ht)]; [by left|].
    right. exists s, k, idx, x. split; [lia|done].
  - right. exists (recipe_node (name record)), (bnodes + i)%nat,
             (Z.of_nat i + 1), x.
    split; [|done]. apply lookup_lt_Some in Hi. lia.
Qed.

Lemma steps_below_populate_graph records g bnodes :
  steps_below g bnodes →
  steps_below (populate_graph (g, bnodes) records).1
    (populate_graph (g, bnodes) records).2.
Proof.
  revert g bnodes. unfold populate_graph.
  induction records as [|r records IH]; intros g bnodes Hg; [done|].
  cbn [foldl]. pose proof (steps_below_populate_record g bnodes r Hg) as H1.
  destruct (populate_record (g, bnodes) r) as [g1 b1]. by apply IH.
Qed.

Lemma steps_below_schema : steps_below (add_ontology_schema []) 0.
Proof.
  intros t Ht. left.
  by apply (proj1 (Forall_forall _ _) schema_step_free).
Qed.

(** The step triples of the store built from [before ++ record :: after]
    that mention the blank node numbered [b + i], [b] being the counter
    when [record] is reached. *)
Lemma build_graph_step_node before record after g b i x t k s idx x' :
  populate_graph (add_ontology_schema [], 0%nat) before = (g, b) →
  name record ≠ EmptyString →
  rec_directions record !! i = Some x →
  t ∈ build_graph (before ++ record :: after) →
  t ∈ step_triples s k idx x' → k = (b + i)%nat →
  t ∈ step_triples (recipe_node (name record)) (b + i) (Z.of_nat i + 1) x.
Proof.
  intros Hbefore Hname Hi Hin Ht ->.
  destruct (build_graph_split before record after)
    as (g0 & b0 & g' & b' & Hb & Hrec & Hbuild & _).
  rewrite Hbefore in Hb. injection Hb as <- <-.
  rewrite Hbuild in Hin.
  pose proof (step_triples_not_free _ _ _ _ _ Ht) as Hnf.
  pose proof (populate_record_count g b record) as Hcount.
  rewrite Hrec in Hcount. cbn [snd] in Hcount.
  rewrite decide_False in Hcount by done.
  pose proof (lookup_lt_Some _ _ _ Hi) as Hlt.
  assert (∀ s1 k1 idx1 x1, t ∈ step_triples s1 k1 idx1 x1 → k1 = (b + i)%nat)
    as Hnode.
  { intros s1 k1 idx1 x1 Ht1. by eapply step_triples_node. }
  apply populate_graph_steps_later in Hin
    as [Hin|[Hfree|(s1 & k1 & idx1 & x1 & Hk1 & Ht1)]]; [|done|].
  - pose proof (populate_record_steps g b record t Hname) as Hr.
    rewrite Hrec in Hr. cbn [fst] in Hr.
    destruct (Hr Hin) as [Hg|[Hfree|(j & y & Hj & Htj)]]; [|done|].
    + pose proof (steps_below_populate_graph before _ _ steps_below_schema)
        as Hbelow.
      rewrite Hbefore in Hbelow. cbn [fst snd] in Hbelow.
      destruct (Hbelow t Hg) as [Hfree|(s1 & k1 & idx1 & x1 & Hk1 & Ht1)];
        [done|].
      apply Hnode in Ht1. lia.
    + pose proof (Hnode _ _ _ _ Htj) as Hj'.
      assert (j = i) as -> by lia.
      rewrite Hi in Hj. by injection Hj as <-.
  - apply Hnode in Ht1. lia.
Qed.

(** For every named record of a batch the built store holds one step node
    per direction of the record, all distinct: the node at place [i],
    counted from 0, is a step of the recipe of the record and of no other
    recipe, is typed schema:HowToStep, has the direction at place [i] as its
    only label and [i + 1] as its only position.  The steps of a record are
    numbered from 1, whatever the other records of the batch. *)
Theorem build_graph_steps before record after :
  name record ≠ EmptyString →
  ∃ steps, steps_claim (build_graph (before ++ record :: after)) record steps.
Proof.
  intros Hname.
  destruct (populate_graph (add_ontology_schema [], 0%nat) before)
    as [g b] eqn:Hbefore.
  set (G := build_graph (before ++ record :: after)).
  exists ((λ i, fresh_bnode (b + i)) <$> seq 0 (length (rec_directions record))).
  split; [by rewrite length_fmap, length_seq|]. split.
  { apply NoDup_fmap_2; [|apply NoDup_seq].
    intros i j Hij%fresh_bnode_inj. lia. }
  intros i step Hstep.
  apply list_lookup_fmap_Some in Hstep as (i' & -> & Hi').
  apply lookup_seq in Hi' as [-> Hlt]. cbn [Nat.add].
  destruct (lookup_lt_is_Some_2 _ _ Hlt) as [text Hi].
  assert (∀ t, t ∈ step_triples (recipe_node (name record)) (b + i)
                     (Z.of_nat i + 1) text → t ∈ G) as Hadded.
  { intros t Ht. subst G.
    destruct (build_graph_split before record after)
      as (g0 & b0 & g' & b' & Hb & Hrec & -> & _).
    rewrite Hbefore in Hb. injection Hb as <- <-.
    apply populate_graph_subseteq.
    pose proof (populate_record_step_added g b record i text t Hname Hi Ht)
      as Hin.
    by rewrite Hrec in Hin. }
  assert (∀ t s idx x', t ∈ G → t ∈ step_triples s (b + i) idx x' →
            t ∈ step_triples (recipe_node (name record)) (b + i)
                  (Z.of_nat i + 1) text) as Honly.
  { intros t s idx x' Hin Ht.
    by eapply (build_graph_step_node before record after g b i text). }
  exists text. split; [done|].
  split; [apply Hadded, elem_of_step_triples; tauto|].
  split; [apply Hadded, elem_of_step_triples; tauto|].
  split_and!.
  - intros x. split.
    + intros Hin.
      specialize (Honly _ (recipe_node (name record)) 0 x Hin).
      rewrite !elem_of_step_triples in Honly.
      destruct Honly as [H|[H|[H|H]]]; [tauto|try discriminate H..].
      by injection H.
    + intros ->. apply Hadded, elem_of_step_triples. tauto.
  - intros z. split.
    + intros Hin.
      specialize (Honly _ (recipe_node (name record)) z EmptyString Hin).
      rewrite !elem_of_step_triples in Honly.
      destruct Honly as [H|[H|[H|H]]]; [tauto|try discriminate H..].
      by injection H.
    + intros ->. apply Hadded, elem_of_step_triples. tauto.
  - intros s. split.
    + intros Hin.
      specialize (Honly _ s 0 EmptyString Hin).
      rewrite !elem_of_step_triples in Honly.
      destruct Honly as [H|[H|[H|H]]]; [tauto|try discriminate H..].
      by injection H.
    + intros ->. apply Hadded, elem_of_step_triples. tauto.
Qed.

Lemma build_graph_steps_witness :
  ∃ steps, steps_claim (build_graph [ water; lentil_soup ]) lentil_soup steps.
Proof. apply (build_graph_steps [ water ] lentil_soup []). done. Defined.
